(** * Apex CRM: lead scoring, stage transition and analytics aggregations

    A shallow embedding of the three pieces of logic of the CRM front end:

    - [calculateLeadScore]            (services/storageService.ts)
    - [handleStageChange]             (components/Layout.tsx, lead detail view)
    - [funnelData], [revenueData], [teamData], [sourceConversionData]
                                      (pages/Analytics.tsx)

    Conventions of the embedding.

    - A JavaScript [number] that holds an amount, a probability or a rate is
      represented by the rational it denotes ([Q]; every finite binary64
      value is one), and comparisons of such numbers are [Qeq] ([==]).
      Products and quotients are rounded as IEEE 754 prescribes, to the
      nearest binary64 value, ties to even ([binary64]); the sums of the
      reports are taken exactly.  Infinities, [NaN] and the sign of zero
      are outside the model.  Counters that start at [0] and are only
      incremented are [nat]; the lead score is an integer ([Z]).
    - The enums [Stage] and [Status], which the code compares against enum
      members, are inductive types together with their run-time string.
      [source], [budgetRange] and [outcome], which the scoring code compares
      against string literals so as to tolerate drifting sheet data, stay
      strings.
    - An object literal used as a dictionary is a [JsObject.t]: its own
      properties in insertion order, lookups that fall through to
      [Object.prototype], and the enumeration order of [Object.values]
      (array-index keys first, ascending, then the other keys in insertion
      order).
    - [new Date(lead.createdAt)] is represented by the local calendar year
      and zero-based month it reports; parsing and the host time zone are
      outside the model.

    The second part of the file covers the code around these pieces: the
    other handlers of the lead detail and lead list pages, the dashboard
    metrics, the storage service with the backend reads it relies on, the
    backend writes on the sheet, and the session. *)

From Stdlib Require Import List String Ascii Bool Arith ZArith NArith.
From Stdlib Require Import QArith Qround Qabs Qpower Lia Sorted Permutation.
From Stdlib Require Import DecimalString OrdersEx Lqa.
From Stdlib Require DecimalNat DecimalZ DecimalPos DecimalFacts.
From Stdlib Require Floats.
Import ListNotations.
Local Open Scope string_scope.

(* ================================================================= *)
(** ** Data model (types.ts) *)

Module Stage.
Inductive t : Set := New | Contacted | Qualified | Proposal | Won | Lost.

Definition to_string (s : t) : string :=
  match s with
  | New => "New"
  | Contacted => "Contacted"
  | Qualified => "Qualified"
  | Proposal => "Proposal"
  | Won => "Won"
  | Lost => "Lost"
  end.

(** [a === b] on two members of the enum. *)
Definition eqb (a b : t) : bool := String.eqb (to_string a) (to_string b).
End Stage.

Module Status.
Inductive t : Set := Open | Won | Lost | OnHold.

Definition to_string (s : t) : string :=
  match s with
  | Open => "Open"
  | Won => "Won"
  | Lost => "Lost"
  | OnHold => "On Hold"
  end.

Definition eqb (a b : t) : bool := String.eqb (to_string a) (to_string b).
End Status.

Module Source.
Definition Website := "Website".
Definition Referral := "Referral".
Definition LinkedIn := "LinkedIn".
Definition Event := "Event".
Definition ColdCall := "Cold Call".
Definition members : list string := [Website; Referral; LinkedIn; Event; ColdCall].
End Source.

Module BudgetRange.
Definition Below1L := "<1L".
Definition OneToFiveL := "1–5L".
Definition FiveToTenL := "5–10L".
Definition Above10L := ">10L".
Definition members : list string := [Below1L; OneToFiveL; FiveToTenL; Above10L].
End BudgetRange.

Module ActivityType.
Definition Call := "Call".
Definition Email := "Email".
Definition Meeting := "Meeting".
Definition WhatsApp := "WhatsApp".
Definition Demo := "Demo".
End ActivityType.

Module ActivityOutcome.
Definition Interested := "Interested".
Definition FollowUpRequired := "Follow-up Required".
Definition NoResponse := "No Response".
Definition NotInterested := "Not Interested".
Definition members : list string :=
  [Interested; FollowUpRequired; NoResponse; NotInterested].
End ActivityOutcome.

(** What [new Date(s)] reports through [getFullYear()] and [getMonth()]. *)
Module Date.
Record t : Set := mk { getFullYear : Z; getMonth : nat }.
End Date.

Module Lead.
Record t : Type := mk {
  id : string;
  leadName : string;
  companyName : string;
  email : string;
  phone : string;
  industry : string;
  source : string;
  budgetRange : string;
  stage : Stage.t;
  status : Status.t;
  leadOwner : string;
  leadScore : Z;
  probability : Q;
  dealValue : Q;
  expectedValue : Q;
  nextActionType : option string;
  nextActionDateTime : option string;
  lastContactedAt : option string;
  createdAt : Date.t;
  notes : string;
  suggestedEmailSubject : option string;
  suggestedEmailBody : option string
}.
End Lead.

Module Activity.
Record t : Set := mk {
  id : string;
  leadId : string;
  type : string;
  subject : string;
  description : string;
  outcome : string;
  dateTime : string;
  createdBy : string
}.
End Activity.

(* ================================================================= *)
(** ** Scoring (services/storageService.ts) *)

Definition calculateLeadScore (lead : Lead.t) (leadActivities : list Activity.t) : Z :=
  let score := 0%Z in
  (* Source Score *)
  let score :=
    if Lead.source lead =? "Referral" then (score + 20)%Z
    else if Lead.source lead =? "Website" then (score + 10)%Z
    else if Lead.source lead =? "Cold Call" then (score + 5)%Z
    else score in
  (* Budget Score *)
  let score :=
    if Lead.budgetRange lead =? ">10L" then (score + 30)%Z
    else if Lead.budgetRange lead =? "5–10L" then (score + 20)%Z
    else if Lead.budgetRange lead =? "1–5L" then (score + 10)%Z
    else score in
  (* Engagement Score *)
  let lastActivity :=
    if (0 <? List.length leadActivities)%nat then nth_error leadActivities 0 else None in
  let score :=
    match lastActivity with
    | Some lastActivity =>
        let score :=
          if Activity.outcome lastActivity =? "Interested" then (score + 20)%Z else score in
        if Activity.outcome lastActivity =? "Follow-up Required" then (score + 10)%Z else score
    | None => score
    end in
  let score := if (3 <? List.length leadActivities)%nat then (score + 10)%Z else score in
  Z.min score 100.

(** The four contributions in the words of the scoring rules. *)
Module ScoreRules.
Definition src (source : string) : Z :=
  if source =? Source.Referral then 20
  else if source =? Source.Website then 10
  else if source =? Source.ColdCall then 5
  else 0.

Definition bud (budgetRange : string) : Z :=
  if budgetRange =? BudgetRange.Above10L then 30
  else if budgetRange =? BudgetRange.FiveToTenL then 20
  else if budgetRange =? BudgetRange.OneToFiveL then 10
  else 0.

Definition eng (A : list Activity.t) : Z :=
  match A with
  | [] => 0
  | mostRecent :: _ =>
      if Activity.outcome mostRecent =? ActivityOutcome.Interested then 20
      else if Activity.outcome mostRecent =? ActivityOutcome.FollowUpRequired then 10
      else 0
  end.

Definition vol (A : list Activity.t) : Z :=
  if (3 <? List.length A)%nat then 10 else 0.
End ScoreRules.

(* ================================================================= *)
(** ** JavaScript numbers

    A [number] is a binary64 floating-point value.  The result of [*]
    and of [/] is the exact product or quotient rounded to the nearest
    binary64 value, ties to the value with an even significand: 53
    significant bits, and a spacing of [2^-1074] below [2^-1022]. *)

Local Open Scope Q_scope.

(** [floor (log2 |x|)] for [x <> 0]. *)
Definition floor_log2 (x : Q) : Z :=
  let k := (Z.log2 (Z.abs (Qnum x)) - Z.log2 (Zpos (Qden x)))%Z in
  if Qle_bool (2 ^ k) (Qabs x) then k else (k - 1)%Z.

(** The integer nearest to [y], the even one of two equally near. *)
Definition round_half_even (y : Q) : Z :=
  let f := Qfloor y in
  match Qcompare (y - inject_Z f) (1 # 2) with
  | Lt => f
  | Gt => (f + 1)%Z
  | Eq => if Z.even f then f else (f + 1)%Z
  end.

(** The binary64 value nearest to [x]: [x] is scaled by the power of two
    that leaves 53 significant bits before the point (or by [2^1074], for
    a subnormal result), rounded to an integer and scaled back. *)
Definition binary64 (x : Q) : Q :=
  if Qeq_bool x 0 then 0
  else
    let e := Z.max (floor_log2 x - 52) (-1074) in
    inject_Z (round_half_even (x / 2 ^ e)) * 2 ^ e.

(** [a * b] and [a / b] on numbers. *)
Definition Number_mul (a b : Q) : Q := binary64 (a * b).
Definition Number_div (a b : Q) : Q := binary64 (a / b).

(** A rational that is a binary64 value: rounding leaves it as it is. *)
Definition is_binary64 (x : Q) : Prop := binary64 x == x.

(** [2^-53], half the spacing of the binary64 values relative to their
    size, and [2^-1075], half the spacing of the smallest ones. *)
Definition half_ulp : Q := 1 # 9007199254740992.
Definition half_min : Q := 2 ^ (-1075).

(** The binary64 numbers of the kernel, against which [binary64] is
    compared at the inputs of the examples: the number of an integer, and
    the rational a finite number denotes. *)
Definition float_of_Z (n : Z) : PrimFloat.float :=
  FloatOps.SF2Prim (SpecFloat.binary_normalize FloatOps.prec FloatOps.emax n 0 false).

Definition Q_of_float (f : PrimFloat.float) : option Q :=
  match FloatOps.Prim2SF f with
  | SpecFloat.S754_zero _ => Some 0
  | SpecFloat.S754_finite s m e =>
      Some ((if s then - inject_Z (Zpos m) else inject_Z (Zpos m)) * 2 ^ e)
  | _ => None
  end.

Definition denotes (f : PrimFloat.float) (x : Q) : bool :=
  match Q_of_float f with
  | Some q => Qeq_bool q x
  | None => false
  end.

(** [d * (p / 100)] and [(w / t) * 100] in the kernel and in the model. *)
Definition same_product (d p : Z) : bool :=
  denotes
    (PrimFloat.mul (float_of_Z d) (PrimFloat.div (float_of_Z p) (float_of_Z 100)))
    (Number_mul (inject_Z d) (Number_div (inject_Z p) 100)).

Definition same_percentage (w t : nat) : bool :=
  denotes
    (PrimFloat.mul
       (PrimFloat.div (float_of_Z (Z.of_nat w)) (float_of_Z (Z.of_nat t))) (float_of_Z 100))
    (Number_mul (Number_div (inject_Z (Z.of_nat w)) (inject_Z (Z.of_nat t))) 100).

(** The deal values 0 to 299 and a hundred larger ones, and the
    probabilities of the stage table, of a new lead and of the sample
    data. *)
Definition sample_deals : list Z :=
  (map Z.of_nat (seq 0 300) ++ map (fun k => 11000 + 997 * Z.of_nat k)%Z (seq 0 100))%list.

Definition sample_probabilities : list Z := [0; 10; 25; 40; 50; 70; 100]%Z.

(* ================================================================= *)
(** ** Stage transition (lead detail page) *)

Definition newProb (lead : Lead.t) (newStage : Stage.t) : Q :=
  let newProb := Lead.probability lead in
  let newProb := if Stage.eqb newStage Stage.Won then 100 else newProb in
  let newProb := if Stage.eqb newStage Stage.Lost then 0 else newProb in
  let newProb := if Stage.eqb newStage Stage.Proposal then 70 else newProb in
  let newProb := if Stage.eqb newStage Stage.Qualified then 40 else newProb in
  newProb.

(** [{ ...lead, stage, status, probability, expectedValue }] *)
Definition updatedLead (lead : Lead.t) (newStage : Stage.t) : Lead.t :=
  let newProb := newProb lead newStage in
  {| Lead.id := Lead.id lead;
     Lead.leadName := Lead.leadName lead;
     Lead.companyName := Lead.companyName lead;
     Lead.email := Lead.email lead;
     Lead.phone := Lead.phone lead;
     Lead.industry := Lead.industry lead;
     Lead.source := Lead.source lead;
     Lead.budgetRange := Lead.budgetRange lead;
     Lead.stage := newStage;
     Lead.status :=
       if Stage.eqb newStage Stage.Won then Status.Won
       else if Stage.eqb newStage Stage.Lost then Status.Lost
       else Status.Open;
     Lead.leadOwner := Lead.leadOwner lead;
     Lead.leadScore := Lead.leadScore lead;
     Lead.probability := newProb;
     Lead.dealValue := Lead.dealValue lead;
     Lead.expectedValue := Number_mul (Lead.dealValue lead) (Number_div newProb 100);
     Lead.nextActionType := Lead.nextActionType lead;
     Lead.nextActionDateTime := Lead.nextActionDateTime lead;
     Lead.lastContactedAt := Lead.lastContactedAt lead;
     Lead.createdAt := Lead.createdAt lead;
     Lead.notes := Lead.notes lead;
     Lead.suggestedEmailSubject := Lead.suggestedEmailSubject lead;
     Lead.suggestedEmailBody := Lead.suggestedEmailBody lead |}.

(** The handler on the page state [lead : Lead | null]: the result is the
    value handed to [setLead] and [updateLead]; with no lead loaded the
    handler returns without doing anything. *)
Definition handleStageChange (lead : option Lead.t) (newStage : Stage.t) : option Lead.t :=
  match lead with
  | None => None
  | Some lead => Some (updatedLead lead newStage)
  end.

(* ================================================================= *)
(** ** JavaScript run-time pieces the analytics code relies on *)

Local Open Scope string_scope.

(** An object literal [{}] used as a dictionary with string keys. *)
Module JsObject.

(** Property names that every object literal resolves through
    [Object.prototype]; [o[k]] is then a function (or, for [__proto__],
    the prototype itself) and is truthy although [o] has no own [k]. *)
Definition prototype_keys : list string :=
  [ "constructor"; "hasOwnProperty"; "isPrototypeOf"; "propertyIsEnumerable";
    "toLocaleString"; "toString"; "valueOf"; "__proto__";
    "__defineGetter__"; "__defineSetter__"; "__lookupGetter__"; "__lookupSetter__" ].

Definition inherited (k : string) : bool :=
  existsb (String.eqb k) prototype_keys.

(** A key is an array index when it is the canonical decimal numeral of
    an integer below [2^32 - 1]. *)
Definition array_index (k : string) : option N :=
  match NilZero.uint_of_string k with
  | Some d =>
      let n := N.of_uint d in
      if (NilZero.string_of_uint (N.to_uint n) =? k) && (n <? 4294967295)%N
      then Some n else None
  | None => None
  end.

Definition is_array_index (k : string) : bool :=
  match array_index k with Some _ => true | None => false end.

(** Own properties, in insertion order. *)
Definition t (V : Type) : Type := list (string * V).

Definition empty {V : Type} : t V := [].

(** The own property [k], if any. *)
Fixpoint get {V : Type} (o : t V) (k : string) : option V :=
  match o with
  | [] => None
  | (k', v) :: o' => if k' =? k then Some v else get o' k
  end.

(** Truthiness of [o[k]] when the own values are objects: an own
    property, or a member of the prototype. *)
Definition truthy {V : Type} (o : t V) (k : string) : bool :=
  match get o k with
  | Some _ => true
  | None => inherited k
  end.

(** [o[k] = v] for a key that is an own property or does not resolve at
    all (the only assignments the reductions make): overwrite the own
    property where it stands, else add it after the existing ones. *)
Fixpoint set {V : Type} (o : t V) (k : string) (v : V) : t V :=
  match o with
  | [] => [(k, v)]
  | (k', v') :: o' => if k' =? k then (k', v) :: o' else (k', v') :: set o' k v
  end.

(** [o[k].f = ...]: a write to a field of the object stored under [k].
    When [k] is not an own property the write lands on the prototype
    member that [o[k]] resolved to, and [o] itself does not change. *)
Fixpoint modify {V : Type} (o : t V) (k : string) (f : V -> V) : t V :=
  match o with
  | [] => []
  | (k', v) :: o' => if k' =? k then (k', f v) :: o' else (k', v) :: modify o' k f
  end.

Fixpoint insert_index {V : Type} (e : N * V) (l : list (N * V)) : list (N * V) :=
  match l with
  | [] => [e]
  | e' :: l' => if (fst e <? fst e')%N then e :: l else e' :: insert_index e l'
  end.

Definition index_properties {V : Type} (o : t V) : list (N * V) :=
  fold_right
    (fun kv acc =>
       match array_index (fst kv) with
       | Some n => insert_index (n, snd kv) acc
       | None => acc
       end) [] o.

Definition named_properties {V : Type} (o : t V) : t V :=
  filter (fun kv => negb (is_array_index (fst kv))) o.

(** [Object.values(o)]: array-index keys in ascending numeric order, then
    the remaining keys in insertion order. *)
Definition values {V : Type} (o : t V) : list V :=
  map snd (index_properties o) ++ map snd (named_properties o).

(** The names of the own properties, in insertion order. *)
Definition own_keys {V : Type} (o : t V) : list string := map fst o.

End JsObject.

(** [Array.prototype.sort(comparefn)]: a stable sort; [a] is placed after
    [b] exactly when [comparefn(a, b) > 0].  For a comparator that is a
    consistent ordering the result does not depend on the engine's
    algorithm, which is taken here to be a stable insertion sort. *)
Section ArraySort.
Context {A : Type} (comparefn : A -> A -> Q).

Fixpoint sort_insert (a : A) (l : list A) : list A :=
  match l with
  | [] => [a]
  | b :: l' =>
      if Qle_bool (comparefn a b) 0 then a :: b :: l' else b :: sort_insert a l'
  end.

Definition Array_sort (l : list A) : list A := fold_right sort_insert [] l.
End ArraySort.


(** [s.split(sep)] for a one-character separator. *)
Fixpoint String_split (sep : ascii) (s : string) : list string :=
  match s with
  | EmptyString => [EmptyString]
  | String c s' =>
      if Ascii.eqb c sep then EmptyString :: String_split sep s'
      else match String_split sep s' with
           | [] => [String c EmptyString]
           | piece :: pieces => String c piece :: pieces
           end
  end.

(** [String(n)] and the template-literal conversion of an integer. *)
Definition String_of_Z (n : Z) : string := NilZero.string_of_int (Z.to_int n).
Definition String_of_nat (n : nat) : string := NilZero.string_of_uint (Nat.to_uint n).

Fixpoint pad_filler (n : nat) (padString rest : string) : string :=
  match n with
  | O => EmptyString
  | S n' =>
      match rest with
      | String c rest' => String c (pad_filler n' padString rest')
      | EmptyString =>
          match padString with
          | String c rest' => String c (pad_filler n' padString rest')
          | EmptyString => EmptyString
          end
      end
  end.

(** [s.padStart(targetLength, padString)] *)
Definition padStart (s : string) (targetLength : nat) (padString : string) : string :=
  if (targetLength <=? String.length s)%nat then s
  else pad_filler (targetLength - String.length s) padString padString ++ s.

(** [x.toFixed(1)], as the rational that the printed decimal denotes.
    [toFixed] takes the integer [n] for which [n / 10 - x] is as close to
    zero as possible, the larger [n] when two are equally close, after
    moving the sign of a negative [x] in front; for [|x| >= 10^21] it
    prints [x] itself. *)
Definition toFixed1_digits (x : Q) : Z :=
  let lo := Qfloor (x * 10) in
  if Qle_bool (inject_Z (lo + 1) / 10 - x) (x - inject_Z lo / 10) then (lo + 1)%Z else lo.

Definition toFixed1 (x : Q) : Q :=
  if Qle_bool (inject_Z (10 ^ 21)) (Qabs x) then x
  else if Qle_bool 0 x then inject_Z (toFixed1_digits x) / 10
  else - (inject_Z (toFixed1_digits (- x)) / 10).

(** [Number(x.toFixed(1))]: the printed decimal read back as a number. *)
Definition Number_toFixed1 (x : Q) : Q := binary64 (toFixed1 x).

(** Rounding to one decimal place, half away from zero, in the words of
    the reporting rules. *)
Definition round_half_away_1dp (x : Q) : Q :=
  if Qle_bool 0 x then inject_Z (Qfloor (x * 10 + (1 # 2))) / 10
  else - (inject_Z (Qfloor (- x * 10 + (1 # 2))) / 10).

(* ================================================================= *)
(** ** Analytics (pages/Analytics.tsx) *)

Local Open Scope Q_scope.

Definition COLORS : list string :=
  ["#3b82f6"; "#6366f1"; "#8b5cf6"; "#d946ef"; "#ec4899"].

Fixpoint mapi_from {A B : Type} (f : A -> nat -> B) (index : nat) (l : list A) : list B :=
  match l with
  | [] => []
  | a :: l' => f a index :: mapi_from f (S index) l'
  end.

(** [l.map((a, index) => f(a, index))] *)
Definition mapi {A B : Type} (f : A -> nat -> B) (l : list A) : list B := mapi_from f 0 l.

(** [v || 0] for a counter that may be [undefined]. *)
Definition or_zero (v : option nat) : nat :=
  match v with Some n => n | None => 0%nat end.

(** *** 1. Funnel *)

Module FunnelRow.
Record t : Set := mk { name : Stage.t; value : nat; fill : string }.
End FunnelRow.

Definition stageOrder : list Stage.t :=
  [Stage.New; Stage.Contacted; Stage.Qualified; Stage.Proposal; Stage.Won].

Definition funnelRawCounts (leads : list Lead.t) : JsObject.t nat :=
  fold_left
    (fun acc lead =>
       JsObject.set acc (Stage.to_string (Lead.stage lead))
         (or_zero (JsObject.get acc (Stage.to_string (Lead.stage lead))) + 1)%nat)
    leads JsObject.empty.

Definition funnelData (leads : list Lead.t) : list FunnelRow.t :=
  mapi
    (fun stage index =>
       {| FunnelRow.name := stage;
          FunnelRow.value := or_zero (JsObject.get (funnelRawCounts leads) (Stage.to_string stage));
          FunnelRow.fill := nth (index mod List.length COLORS) COLORS "" |})
    stageOrder.

(** *** 2. Revenue trend by month *)

Module RevenueRow.
Record t : Set := mk { name : string; expected : Q; closed : Q }.
End RevenueRow.

Definition periodKey (date : Date.t) : string :=
  String_of_Z (Date.getFullYear date) ++ "-"
    ++ padStart (String_of_nat (Date.getMonth date + 1)) 2 "0".




(** *** 3. Team performance *)

Module TeamRow.
Record t : Set := mk { name : string; leads : nat; revenue : Q; won : nat }.
End TeamRow.

(** [lead.leadOwner.split('@')[0]] *)
Definition ownerKey (lead : Lead.t) : string :=
  nth 0 (String_split "@" (Lead.leadOwner lead)) "".




(** *** 4. Conversion by source *)

Module SourceStat.
Record t : Set := mk { name : string; total : nat; won : nat }.
End SourceStat.

Module SourceRow.
Record t : Set := mk { name : string; rate : Q; total : nat }.
End SourceRow.

Definition sourceStats_step (acc : JsObject.t SourceStat.t) (lead : Lead.t)
  : JsObject.t SourceStat.t :=
  let acc :=
    if negb (JsObject.truthy acc (Lead.source lead))
    then JsObject.set acc (Lead.source lead)
           {| SourceStat.name := Lead.source lead; SourceStat.total := 0; SourceStat.won := 0 |}
    else acc in
  let acc :=
    JsObject.modify acc (Lead.source lead)
      (fun s => {| SourceStat.name := SourceStat.name s;
                   SourceStat.total := (SourceStat.total s + 1)%nat;
                   SourceStat.won := SourceStat.won s |}) in
  if Status.eqb (Lead.status lead) Status.Won
  then JsObject.modify acc (Lead.source lead)
         (fun s => {| SourceStat.name := SourceStat.name s;
                      SourceStat.total := SourceStat.total s;
                      SourceStat.won := (SourceStat.won s + 1)%nat |})
  else acc.

Definition sourceStats (leads : list Lead.t) : JsObject.t SourceStat.t :=
  fold_left sourceStats_step leads JsObject.empty.

(** A counter read as a number. *)
Definition Q_of_nat (n : nat) : Q := inject_Z (Z.of_nat n).

Definition sourceConversionData (leads : list Lead.t) : list SourceRow.t :=
  map
    (fun s =>
       {| SourceRow.name := SourceStat.name s;
          SourceRow.rate :=
            if (0 <? SourceStat.total s)%nat
            then Number_toFixed1
                   (Number_mul
                      (Number_div (Q_of_nat (SourceStat.won s)) (Q_of_nat (SourceStat.total s)))
                      100)
            else 0;
          SourceRow.total := SourceStat.total s |})
    (JsObject.values (sourceStats leads)).

(* ================================================================= *)
(** ** Vocabulary of the statements *)

Fixpoint sumQ (l : list Q) : Q :=
  match l with
  | [] => 0
  | q :: l' => q + sumQ l'
  end.

Definition sumNat (l : list nat) : nat := fold_right Nat.add 0%nat l.

Definition isWon (lead : Lead.t) : bool := Status.eqb (Lead.status lead) Status.Won.

Definition inStage (s : Stage.t) (leads : list Lead.t) : list Lead.t :=
  filter (fun lead => Stage.eqb (Lead.stage lead) s) leads.




Definition fromSource (s : string) (leads : list Lead.t) : list Lead.t :=
  filter (fun lead => Lead.source lead =? s)%string leads.

(** The keys of a list in the order in which each one first occurs. *)
Fixpoint first_occurrences (ks : list string) : list string :=
  match ks with
  | [] => []
  | k :: ks' => k :: filter (fun k' => negb (k' =? k)%string) (first_occurrences ks')
  end.

(** [k] is not among the keys seen so far. *)
Definition absent (seen : list string) (k : string) : bool :=
  negb (existsb (String.eqb k) seen).

(** A key that an object literal treats as a plain named property. *)
Definition ordinary_key (k : string) : Prop :=
  JsObject.inherited k = false /\ JsObject.is_array_index k = false.

(** The shape shared by the three grouping reductions: create the row of
    a key that does not resolve yet, then update the row in place. *)
Section Grouping.
Context {X V : Type} (key : X -> string) (init : string -> V) (upd : X -> V -> V).

Definition group_step (acc : JsObject.t V) (x : X) : JsObject.t V :=
  JsObject.modify
    (if negb (JsObject.truthy acc (key x))
     then JsObject.set acc (key x) (init (key x)) else acc)
    (key x) (upd x).

Definition group_value (k : string) (xs : list X) : V :=
  fold_left (fun v x => upd x v) (filter (fun x => key x =? k)%string xs) (init k).

Definition group_keys (xs : list X) : list string :=
  first_occurrences (filter (fun k => negb (JsObject.inherited k)) (map key xs)).
End Grouping.





Definition source_init (s : string) : SourceStat.t :=
  {| SourceStat.name := s; SourceStat.total := 0; SourceStat.won := 0 |}.

Definition source_upd (lead : Lead.t) (s : SourceStat.t) : SourceStat.t :=
  {| SourceStat.name := SourceStat.name s;
     SourceStat.total := (SourceStat.total s + 1)%nat;
     SourceStat.won := if isWon lead then (SourceStat.won s + 1)%nat else SourceStat.won s |}.

(** A lead with the fields the analytics read, the others left blank. *)
Definition sampleLead (leadOwner source : string) (stage : Stage.t) (status : Status.t)
    (probability dealValue expectedValue : Q) (createdAt : Date.t) : Lead.t :=
  {| Lead.id := ""; Lead.leadName := ""; Lead.companyName := ""; Lead.email := "";
     Lead.phone := ""; Lead.industry := ""; Lead.source := source;
     Lead.budgetRange := BudgetRange.OneToFiveL; Lead.stage := stage;
     Lead.status := status; Lead.leadOwner := leadOwner; Lead.leadScore := 0;
     Lead.probability := probability; Lead.dealValue := dealValue;
     Lead.expectedValue := expectedValue; Lead.nextActionType := None;
     Lead.nextActionDateTime := None; Lead.lastContactedAt := None;
     Lead.createdAt := createdAt; Lead.notes := "";
     Lead.suggestedEmailSubject := None; Lead.suggestedEmailBody := None |}.

Definition sampleActivity (outcome : string) : Activity.t :=
  {| Activity.id := ""; Activity.leadId := ""; Activity.type := ActivityType.Call;
     Activity.subject := ""; Activity.description := ""; Activity.outcome := outcome;
     Activity.dateTime := ""; Activity.createdBy := "" |}.

(** A lead with the two fields the score reads. *)
Definition scoringLead (source budgetRange : string) : Lead.t :=
  {| Lead.id := ""; Lead.leadName := ""; Lead.companyName := ""; Lead.email := "";
     Lead.phone := ""; Lead.industry := ""; Lead.source := source;
     Lead.budgetRange := budgetRange; Lead.stage := Stage.New;
     Lead.status := Status.Open; Lead.leadOwner := ""; Lead.leadScore := 0;
     Lead.probability := 0; Lead.dealValue := 0;
     Lead.expectedValue := 0; Lead.nextActionType := None;
     Lead.nextActionDateTime := None; Lead.lastContactedAt := None;
     Lead.createdAt := {| Date.getFullYear := 2024; Date.getMonth := 0 |}; Lead.notes := "";
     Lead.suggestedEmailSubject := None; Lead.suggestedEmailBody := None |}.

Definition march2024 : Date.t := {| Date.getFullYear := 2024; Date.getMonth := 2 |}.

(** *** The stage transition as the rules word it *)

(** The relation between the three amounts of a lead. *)
Definition invariant (lead : Lead.t) : Prop :=
  Lead.expectedValue lead == Lead.dealValue lead * Lead.probability lead / 100.

(** The expected value after a move is dealValue * probability / 100 for
    the resulting probability. *)
Definition recomputed_exactly (lead : Lead.t) (s : Stage.t) : Prop :=
  Lead.expectedValue (updatedLead lead s)
  == Lead.dealValue lead * Lead.probability (updatedLead lead s) / 100.

(** A new lead with the given deal value. *)
Definition dealOf (dealValue : Q) : Lead.t :=
  sampleLead "a@x.com" Source.Website Stage.New Status.Open 10 dealValue 0 march2024.

(** *** The leaderboard as the reporting rules word it *)










Fixpoint has_hyphen (s : string) : bool :=
  match s with
  | EmptyString => false
  | String c s' => Ascii.eqb c "-" || has_hyphen s'
  end.


(** The win rate of a source as the reporting rules word it: won leads
    over all leads of the source, as a percentage. *)
Definition winRatePercent (s : string) (leads : list Lead.t) : Q :=
  round_half_away_1dp
    ((Q_of_nat (List.length (filter isWon (fromSource s leads)))
      / Q_of_nat (List.length (fromSource s leads))) * 100).

(** The percentage as the program computes it: [(won / total) * 100]. *)
Definition percentage (won total : nat) : Q :=
  Number_mul (Number_div (Q_of_nat won) (Q_of_nat total)) 100.

(** [x] lies halfway between two numbers with one decimal. *)
Definition halfway_1dp (x : Q) : bool :=
  Qeq_bool (inject_Z (Qfloor (x * 10 + (1 # 2)))) (x * 10 + (1 # 2)).

(** Every rate is the number that the exact win rate, rounded half away
    from zero to one decimal, is written as. *)
Definition rate_rounds_half_away (leads : list Lead.t) : Prop :=
  forall row, In row (sourceConversionData leads) ->
    SourceRow.rate row == binary64 (winRatePercent (SourceRow.name row) leads).

(** Eighty leads from Website, twenty-three of them won. *)
Definition twentyThreeOfEighty : list Lead.t :=
  (repeat (sampleLead "a@x.com" Source.Website Stage.Won Status.Won 100 100 100 march2024) 23
   ++ repeat (sampleLead "a@x.com" Source.Website Stage.New Status.Open 10 100 10 march2024) 57)%list.

(** Three leads from Website, one of them won. *)
Definition threeFromWebsite : list Lead.t :=
  [ sampleLead "a@x.com" Source.Website Stage.New Status.Open 10 100 10 march2024;
    sampleLead "b@x.com" Source.Website Stage.Won Status.Won 100 100 100 march2024;
    sampleLead "a@x.com" Source.Website Stage.Lost Status.Lost 0 100 0 march2024 ].

(* ================================================================= *)
(** ** Users *)

Module User.
Record t : Set := mk {
  id : string;
  email : string;
  name : string;
  role : string;
  password : option string;
  territory : option string
}.
End User.

(* ================================================================= *)
(** ** Lead detail page: logging an activity, reassigning (components/Layout.tsx) *)

(** The activity form; its three fields are always set by the inputs. *)
Module ActivityForm.
Record t : Set := mk { type : string; outcome : string; description : string }.
End ActivityForm.

(** The activity built by [handleAddActivity]; [now_ms] is
    [Date.now().toString()] and [now_iso] is [new Date().toISOString()]. *)
Definition loggedActivity (lead : Lead.t) (user : User.t) (newActivity : ActivityForm.t)
    (now_ms now_iso : string) : Activity.t :=
  {| Activity.id := now_ms;
     Activity.leadId := Lead.id lead;
     Activity.type := ActivityForm.type newActivity;
     Activity.subject :=
       (ActivityForm.type newActivity ++ " with " ++ Lead.leadName lead)%string;
     Activity.description :=
       if (ActivityForm.description newActivity =? "")%string then ""%string
       else ActivityForm.description newActivity;
     Activity.outcome := ActivityForm.outcome newActivity;
     Activity.dateTime := now_iso;
     Activity.createdBy := User.email user |}.

(** [{ ...lead, leadScore: newScore, lastContactedAt: now }] *)
Definition scoredLead (lead : Lead.t) (newScore : Z) (now_iso : string) : Lead.t :=
  {| Lead.id := Lead.id lead;
     Lead.leadName := Lead.leadName lead;
     Lead.companyName := Lead.companyName lead;
     Lead.email := Lead.email lead;
     Lead.phone := Lead.phone lead;
     Lead.industry := Lead.industry lead;
     Lead.source := Lead.source lead;
     Lead.budgetRange := Lead.budgetRange lead;
     Lead.stage := Lead.stage lead;
     Lead.status := Lead.status lead;
     Lead.leadOwner := Lead.leadOwner lead;
     Lead.leadScore := newScore;
     Lead.probability := Lead.probability lead;
     Lead.dealValue := Lead.dealValue lead;
     Lead.expectedValue := Lead.expectedValue lead;
     Lead.nextActionType := Lead.nextActionType lead;
     Lead.nextActionDateTime := Lead.nextActionDateTime lead;
     Lead.lastContactedAt := Some now_iso;
     Lead.createdAt := Lead.createdAt lead;
     Lead.notes := Lead.notes lead;
     Lead.suggestedEmailSubject := Lead.suggestedEmailSubject lead;
     Lead.suggestedEmailBody := Lead.suggestedEmailBody lead |}.

(** How a call of [handleAddActivity] ends.  [addActivity] and
    [updateLead] post to the backend and throw when the post fails; the
    handler awaits both without catching, so a failed post ends it there
    and the state setters after it never run. *)
Module AddActivity.
Inductive outcome : Type :=
| NotSubmitted
    (* the guard: no lead, no user or no description, and nothing is posted *)
| AddActivityFailed (activity : Activity.t)
    (* the post of the activity failed *)
| UpdateLeadFailed (activity : Activity.t) (updatedLead : Lead.t)
    (* the activity was saved, the post of the rescored lead failed *)
| Saved (activity : Activity.t) (updatedActivities : list Activity.t) (updatedLead : Lead.t).
    (* both were saved: [setActivities(updatedActivities)], [setLead(updatedLead)] *)

(** The page state after the call, given the state before it. *)
Definition activities (before : list Activity.t) (o : outcome) : list Activity.t :=
  match o with
  | Saved _ updatedActivities _ => updatedActivities
  | _ => before
  end.

Definition lead (before : option Lead.t) (o : outcome) : option Lead.t :=
  match o with
  | Saved _ _ updatedLead => Some updatedLead
  | _ => before
  end.

(** [setIsSavingActivity(true)] follows the guard and
    [setIsSavingActivity(false)] is the last statement. *)
Definition isSavingActivity (before : bool) (o : outcome) : bool :=
  match o with
  | NotSubmitted => before
  | Saved _ _ _ => false
  | _ => true
  end.

(** The rescored lead that was built, if the handler got that far. *)
Definition updatedLead (o : outcome) : option Lead.t :=
  match o with
  | UpdateLeadFailed _ l | Saved _ _ l => Some l
  | _ => None
  end.

(** The same outcome with another lead in place of the rescored one. *)
Definition map (f : Lead.t -> Lead.t) (o : outcome) : outcome :=
  match o with
  | NotSubmitted => NotSubmitted
  | AddActivityFailed a => AddActivityFailed a
  | UpdateLeadFailed a l => UpdateLeadFailed a (f l)
  | Saved a acts l => Saved a acts (f l)
  end.
End AddActivity.

(** [handleAddActivity] on the page state [(lead, activities)].  The
    clock is read three times: [now_ms] is [Date.now().toString()],
    [now_iso] the [new Date().toISOString()] of the activity and
    [later_iso] the one taken for [lastContactedAt] after the activity
    was posted.  [addActivity_ok] and [updateLead_ok] tell whether the
    two posts succeed. *)
Definition handleAddActivity (lead : option Lead.t) (user : option User.t)
    (activities : list Activity.t) (newActivity : ActivityForm.t)
    (now_ms now_iso later_iso : string) (addActivity_ok updateLead_ok : bool)
  : AddActivity.outcome :=
  match lead, user with
  | Some lead, Some user =>
      if (ActivityForm.description newActivity =? "")%string then AddActivity.NotSubmitted
      else
        let activity := loggedActivity lead user newActivity now_ms now_iso in
        if negb addActivity_ok then AddActivity.AddActivityFailed activity
        else
          let updatedActivities := activity :: activities in
          let newScore := calculateLeadScore lead updatedActivities in
          let updatedLead := scoredLead lead newScore later_iso in
          if negb updateLead_ok then AddActivity.UpdateLeadFailed activity updatedLead
          else AddActivity.Saved activity updatedActivities updatedLead
  | _, _ => AddActivity.NotSubmitted
  end.

(** [{ ...lead, leadOwner: newOwnerEmail }] *)
Definition assignedLead (lead : Lead.t) (newOwnerEmail : string) : Lead.t :=
  {| Lead.id := Lead.id lead;
     Lead.leadName := Lead.leadName lead;
     Lead.companyName := Lead.companyName lead;
     Lead.email := Lead.email lead;
     Lead.phone := Lead.phone lead;
     Lead.industry := Lead.industry lead;
     Lead.source := Lead.source lead;
     Lead.budgetRange := Lead.budgetRange lead;
     Lead.stage := Lead.stage lead;
     Lead.status := Lead.status lead;
     Lead.leadOwner := newOwnerEmail;
     Lead.leadScore := Lead.leadScore lead;
     Lead.probability := Lead.probability lead;
     Lead.dealValue := Lead.dealValue lead;
     Lead.expectedValue := Lead.expectedValue lead;
     Lead.nextActionType := Lead.nextActionType lead;
     Lead.nextActionDateTime := Lead.nextActionDateTime lead;
     Lead.lastContactedAt := Lead.lastContactedAt lead;
     Lead.createdAt := Lead.createdAt lead;
     Lead.notes := Lead.notes lead;
     Lead.suggestedEmailSubject := Lead.suggestedEmailSubject lead;
     Lead.suggestedEmailBody := Lead.suggestedEmailBody lead |}.

Definition handleAssignLead (lead : option Lead.t) (newOwnerEmail : string) : option Lead.t :=
  match lead with
  | None => None
  | Some lead => Some (assignedLead lead newOwnerEmail)
  end.

(* ================================================================= *)
(** ** Lead list page: creating a lead, the hot view (pages/LeadList.tsx) *)

(** The new-lead form.  [leadOwner] starts as [user?.email] and may be
    undefined; [dealValue] is the number the input produced. *)
Module LeadForm.
Record t : Type := mk {
  leadName : string;
  companyName : string;
  email : string;
  phone : string;
  industry : string;
  source : string;
  budgetRange : string;
  stage : Stage.t;
  dealValue : Q;
  leadOwner : option string
}.
End LeadForm.

(** [s || fallback] for a string. *)
Definition or_string (s fallback : string) : string :=
  if (s =? "")%string then fallback else s.

(** [Number(v) || 0] for a number. *)
Definition or_zeroQ (v : Q) : Q := if Qeq_bool v 0 then 0 else v.

(** The lead built by [handleCreateLead]; [None] when the handler returns
    at its guard.  [now_ms] is [Date.now().toString()], [now] the creation
    time. *)
Definition handleCreateLead (user : option User.t) (newLead : LeadForm.t)
    (now_ms : string) (now : Date.t) : option Lead.t :=
  match user with
  | None => None
  | Some user =>
      if (LeadForm.leadName newLead =? "")%string then None
      else Some
        {| Lead.id := now_ms;
           Lead.leadName := LeadForm.leadName newLead;
           Lead.companyName := or_string (LeadForm.companyName newLead) "Unknown";
           Lead.email := or_string (LeadForm.email newLead) "";
           Lead.phone := or_string (LeadForm.phone newLead) "";
           Lead.industry := or_string (LeadForm.industry newLead) "Other";
           Lead.source := LeadForm.source newLead;
           Lead.budgetRange := LeadForm.budgetRange newLead;
           Lead.stage := Stage.New;
           Lead.status := Status.Open;
           Lead.leadOwner :=
             match LeadForm.leadOwner newLead with
             | Some owner => or_string owner (User.email user)
             | None => User.email user
             end;
           Lead.leadScore := 10;
           Lead.probability := 10;
           Lead.dealValue := or_zeroQ (LeadForm.dealValue newLead);
           Lead.expectedValue :=
             Number_mul (or_zeroQ (LeadForm.dealValue newLead)) (binary64 (1 # 10));
           Lead.nextActionType := None;
           Lead.nextActionDateTime := None;
           Lead.lastContactedAt := None;
           Lead.createdAt := now;
           Lead.notes := "";
           Lead.suggestedEmailSubject := None;
           Lead.suggestedEmailBody := None |}
  end.

(** The hot view of [filterLeads], and the flame mark of the table. *)
Definition isHot (lead : Lead.t) : bool := (70 <? Lead.leadScore lead)%Z.

Definition sampleUser (email role : string) : User.t :=
  {| User.id := "u"; User.email := email; User.name := ""; User.role := role;
     User.password := None; User.territory := None |}.

(** A lead with an identifier and an owner, and an activity of a lead at
    a given time. *)
Definition leadOf (id leadOwner : string) : Lead.t :=
  {| Lead.id := id; Lead.leadName := "Asha Rao"; Lead.companyName := "Acme";
     Lead.email := "asha@acme.in"; Lead.phone := "555-0100"; Lead.industry := "Retail";
     Lead.source := Source.Website; Lead.budgetRange := BudgetRange.OneToFiveL;
     Lead.stage := Stage.Contacted; Lead.status := Status.Open; Lead.leadOwner := leadOwner;
     Lead.leadScore := 20; Lead.probability := 25; Lead.dealValue := 1000;
     Lead.expectedValue := 250; Lead.nextActionType := Some ActivityType.Call;
     Lead.nextActionDateTime := Some "2024-03-05T10:00:00.000Z"%string;
     Lead.lastContactedAt := Some "2024-03-01T10:00:00.000Z"%string;
     Lead.createdAt := march2024; Lead.notes := "met at the fair";
     Lead.suggestedEmailSubject := None; Lead.suggestedEmailBody := None |}.

Definition activityOf (id leadId dateTime : string) : Activity.t :=
  {| Activity.id := id; Activity.leadId := leadId; Activity.type := ActivityType.Call;
     Activity.subject := "Call with Asha Rao"; Activity.description := "rang";
     Activity.outcome := ActivityOutcome.NoResponse; Activity.dateTime := dateTime;
     Activity.createdBy := "a@x.com" |}.

(** [new Date(s).getTime()] on the three instants of the examples. *)
Definition sampleTime (s : string) : Q :=
  if (s =? "2024-03-01T10:00:00.000Z")%string then 1709287200000
  else if (s =? "2024-03-02T10:00:00.000Z")%string then 1709373600000
  else if (s =? "2024-03-03T10:00:00.000Z")%string then 1709460000000
  else 0.

(* ================================================================= *)
(** ** Backend reads (Code.gs) and the storage service on top of them

    A sheet is represented by the list of objects that the backend's
    [getData] builds from its rows; identifiers and e-mail addresses are
    read as strings, so that [==] and [===] on them are string equality. *)

Module Backend.

Definition getLeads (allLeads : list Lead.t) (userEmail userRole : string) : list Lead.t :=
  if (userRole =? "Admin")%string then allLeads
  else filter (fun l => (Lead.leadOwner l =? userEmail)%string) allLeads.

(** [leads.find(l => l.id == id)] *)
Definition getLeadById (leads : list Lead.t) (id : string) : option Lead.t :=
  find (fun l => (Lead.id l =? id)%string) leads.

(** [leadId] is [None] when the request carries no such parameter. *)
Definition getActivities (activities : list Activity.t) (leadId : option string)
  : list Activity.t :=
  match leadId with
  | Some leadId =>
      if (leadId =? "")%string then activities
      else filter (fun a => (Activity.leadId a =? leadId)%string) activities
  | None => activities
  end.

(** [users.find(u => u.email === email) || null] *)
Definition authenticateUser (users : list User.t) (email : string) : option User.t :=
  find (fun u => (User.email u =? email)%string) users.

End Backend.

(** [apiFetch] answers [null] when the URL is missing, the request fails
    or the backend reports an error: the sheet is then [None]. *)

(** [getLeads(user)] *)
Definition getLeads (sheet : option (list Lead.t)) (user : User.t) : list Lead.t :=
  match sheet with
  | Some allLeads => Backend.getLeads allLeads (User.email user) (User.role user)
  | None => []
  end.

(** [getActivities(leadId)]: the backend's answer sorted by date, newest
    first.  [getTime s] stands for [new Date(s).getTime()]. *)
Definition getActivities (getTime : string -> Q) (sheet : option (list Activity.t))
    (leadId : option string) : list Activity.t :=
  match sheet with
  | None => []
  | Some activities =>
      Array_sort
        (fun a b => getTime (Activity.dateTime b) - getTime (Activity.dateTime a))
        (Backend.getActivities activities
           (match leadId with
            | Some id => if (id =? "")%string then None else Some id
            | None => None
            end))
  end.

(** [authenticateUser(email, passwordInput)] *)
Definition authenticateUser (sheet : option (list User.t)) (email passwordInput : string)
  : option User.t :=
  match sheet with
  | None => None
  | Some users =>
      match Backend.authenticateUser users email with
      | Some user =>
          match User.password user with
          | Some password => if (password =? passwordInput)%string then Some user else None
          | None => None
          end
      | None => None
      end
  end.

(** The security check of the lead detail page: [true] when the page
    shows the lead, [false] when it sends the user back to the list. *)
Definition detailAllowed (user : User.t) (leadData : Lead.t) : bool :=
  negb (negb (User.role user =? "Admin")%string
        && negb (Lead.leadOwner leadData =? User.email user)%string).

(** The lead that the detail page ends up showing.  [id] is the route
    parameter ([None] when there is none) and [user] the signed-in user:
    [fetchData] does nothing unless both are there and [id] is not empty;
    a missing lead and a lead the user may not see send the user back to
    the list. *)
Definition detailLead (sheet : option (list Lead.t)) (user : option User.t)
    (id : option string) : option Lead.t :=
  match id, user with
  | Some id, Some user =>
      if (id =? "")%string then None
      else
        match sheet with
        | None => None
        | Some leads =>
            match Backend.getLeadById leads id with
            | Some leadData => if detailAllowed user leadData then Some leadData else None
            | None => None
            end
        end
  | _, _ => None
  end.

(** The activities page: activities of the leads the user can see, newest
    first ([userLeadIds.has(a.leadId)] on a set of strings). *)
Definition visibleActivities (getTime : string -> Q) (leadsData : list Lead.t)
    (allActivities : list Activity.t) : list Activity.t :=
  Array_sort
    (fun a b => getTime (Activity.dateTime b) - getTime (Activity.dateTime a))
    (filter (fun a => existsb (String.eqb (Activity.leadId a)) (map Lead.id leadsData))
       allActivities).

(* ================================================================= *)
(** ** Dashboard metrics (pages/Dashboard.tsx) *)



Definition totalLeads (leads : list Lead.t) : nat := List.length leads.

Definition wonLeads (leads : list Lead.t) : nat :=
  List.length (filter (fun l => Stage.eqb (Lead.stage l) Stage.Won) leads).

(** The conversion rate is the string that [toFixed(1)] prints (or the
    number [0]); it is represented by the rational that the string
    denotes. *)
Definition conversionRate (leads : list Lead.t) : Q :=
  if (0 <? totalLeads leads)%nat
  then toFixed1
         (Number_mul (Number_div (Q_of_nat (wonLeads leads)) (Q_of_nat (totalLeads leads))) 100)
  else 0.

Module PipelineRow.
Record t : Set := mk { name : Stage.t; count : nat; value : Q }.
End PipelineRow.



Module MemberRow.
Record t : Set := mk { member : User.t; leadCount : nat; openValue : Q; wonCount : nat }.
End MemberRow.



(* ================================================================= *)
(** ** Vocabulary for keys *)

(** [s.includes(c)] for a character. *)
Fixpoint contains (c : ascii) (s : string) : bool :=
  match s with
  | EmptyString => false
  | String c' s' => Ascii.eqb c' c || contains c s'
  end.

(** The part of [s] before the first [sep]. *)
Fixpoint before_first (sep : ascii) (s : string) : string :=
  match s with
  | EmptyString => EmptyString
  | String c s' => if Ascii.eqb c sep then EmptyString else String c (before_first sep s')
  end.

(** [pieces.join(sep)] *)
Fixpoint String_join (sep : ascii) (pieces : list string) : string :=
  match pieces with
  | [] => EmptyString
  | piece :: rest =>
      match rest with
      | [] => piece
      | _ :: _ => (piece ++ String sep (String_join sep rest))%string
      end
  end.

(* ================================================================= *)
(** ** Backend writes on the sheet (Code.gs)

    A sheet is the rectangular array that [getDataRange().getValues()]
    returns: its rows in order, the header row first.  What a cell holds
    (string, number, boolean) is left open; the JavaScript primitives the
    code applies to cells are parameters: [key_of] the property key a
    header denotes, [is_id] the test [h === 'id'], [loose_eq] the
    comparison [==] ([None] standing for [undefined]), [truthy] the
    truthiness of a value and [empty_string] the cell [""].  Objects
    received from the client are [JsObject.t] with their own properties;
    header names are taken not to be members of [Object.prototype]. *)

Section Sheets.
Context {cell : Type}.
Context (key_of : cell -> string) (is_id : cell -> bool)
        (loose_eq : option cell -> option cell -> bool)
        (truthy : cell -> bool) (empty_string : cell).

(** [headers.indexOf('id')], [None] for -1. *)
Fixpoint indexOf_id (headers : list cell) : option nat :=
  match headers with
  | [] => None
  | header :: rest => if is_id header then Some 0%nat else option_map S (indexOf_id rest)
  end.

(** [row[index]], [undefined] when the index is -1 or past the end. *)
Definition cell_at (row : list cell) (index : option nat) : option cell :=
  match index with
  | Some i => nth_error row i
  | None => None
  end.

(** [l.findIndex(p)], [None] for -1. *)
Fixpoint findIndex {A : Type} (p : A -> bool) (l : list A) : option nat :=
  match l with
  | [] => None
  | a :: rest => if p a then Some 0%nat else option_map S (findIndex p rest)
  end.

(** [sheet.getRange(rowIndex + 1, 1, 1, newRow.length).setValues([newRow])] *)
Fixpoint set_row (data : list (list cell)) (rowIndex : nat) (newRow : list cell)
  : list (list cell) :=
  match data, rowIndex with
  | [], _ => []
  | _ :: rest, O => newRow :: rest
  | row :: rest, S i => row :: set_row rest i newRow
  end.

(** The row [updateLead] writes: the client's value where the object has
    the header as an own property, the old cell elsewhere. *)
Definition merged_row (headers oldRow : list cell) (leadData : JsObject.t cell) : list cell :=
  mapi
    (fun header i =>
       match JsObject.get leadData (key_of header) with
       | Some value => value
       | None => nth i oldRow empty_string
       end)
    headers.

(** [updateLead(leadData)]: the sheet after the call, or [None] when it
    throws ('Lead not found'). *)
Definition updateLead (data : list (list cell)) (leadData : JsObject.t cell)
  : option (list (list cell)) :=
  let headers := nth 0 data [] in
  let idIndex := indexOf_id headers in
  let rowIndex :=
    findIndex (fun row => loose_eq (cell_at row idIndex) (JsObject.get leadData "id")) data in
  match rowIndex with
  | None => None
  | Some rowIndex =>
      let newRow := merged_row headers (nth rowIndex data []) leadData in
      Some (set_row data rowIndex newRow)
  end.

(** The row [createLead] and [addActivity] append: [leadData[header] || '']. *)
Definition appended_row (headers : list cell) (leadData : JsObject.t cell) : list cell :=
  map
    (fun header =>
       match JsObject.get leadData (key_of header) with
       | Some value => if truthy value then value else empty_string
       | None => empty_string
       end)
    headers.

(** [createLead(leadData)] on the Leads sheet, [addActivity(activityData)]
    on the Activities sheet. *)
Definition createLead (data : list (list cell)) (leadData : JsObject.t cell)
  : list (list cell) :=
  (data ++ [appended_row (nth 0 data []) leadData])%list.

(** The object [getData] builds from a row. *)
Definition row_object (headers row : list cell) : JsObject.t cell :=
  fold_left
    (fun obj hi => JsObject.set obj (key_of (fst hi)) (nth (snd hi) row empty_string))
    (combine headers (seq 0 (List.length headers)))
    JsObject.empty.

(** [getData(sheetName)] *)
Definition getData (data : list (list cell)) : list (JsObject.t cell) :=
  match data with
  | [] => []
  | headers :: rows => map (row_object headers) rows
  end.

End Sheets.

(** A sheet of strings: [==] is equality of strings and the empty string
    is the only falsy value. *)
Definition string_loose_eq (a b : option string) : bool :=
  match a, b with
  | Some x, Some y => (x =? y)%string
  | None, None => true
  | _, _ => false
  end.

Definition string_truthy (s : string) : bool := negb (s =? "")%string.

Definition sampleSheet : list (list string) :=
  [ ["id"; "leadName"; "stage"]%string;
    ["7"; "Ann"; "New"]%string;
    ["8"; "Bob"; "Won"]%string ].

(* ================================================================= *)
(** ** The session (context/AuthContext.tsx, App.tsx)

    [sessionStorage] holds the signed-in user under one key; the stored
    JSON text is represented by the user it encodes. *)

Module Auth.

Record state : Set := mk {
  user : option User.t;
  loading : bool;
  stored : option User.t
}.

(** The provider before its effect has run. *)
Definition initial (stored : option User.t) : state :=
  {| user := None; loading := true; stored := stored |}.

(** The effect run on mount: restore the stored user, stop loading. *)
Definition mount (s : state) : state :=
  {| user := match stored s with Some u => Some u | None => user s end;
     loading := false;
     stored := stored s |}.

(** [login(email, password)] against the current Users sheet: the new
    state and the value returned. *)
Definition login (sheet : option (list User.t)) (email password : string) (s : state)
  : state * bool :=
  match authenticateUser sheet email password with
  | Some foundUser =>
      ({| user := Some foundUser; loading := loading s; stored := Some foundUser |}, true)
  | None => (s, false)
  end.

Definition logout (s : state) : state :=
  {| user := None; loading := loading s; stored := None |}.

Inductive view : Set := Loading | Children | RedirectToLogin.

(** [ProtectedRoute] *)
Definition ProtectedRoute (s : state) : view :=
  if loading s then Loading
  else match user s with Some _ => Children | None => RedirectToLogin end.

Inductive action : Set :=
| Login (sheet : option (list User.t)) (email password : string)
| Logout.

Definition step (s : state) (a : action) : state :=
  match a with
  | Login sheet email password => fst (login sheet email password s)
  | Logout => logout s
  end.

(** The session after the provider has mounted and the actions have been
    carried out in order. *)
Definition run (stored : option User.t) (actions : list action) : state :=
  fold_left step actions (mount (initial stored)).

End Auth.

(* ################################################################# *)
(** * Properties *)

(* ================================================================= *)
(** ** Enum facts *)

Lemma Stage_eqb_spec (a b : Stage.t) : reflect (a = b) (Stage.eqb a b).
Proof. destruct a, b; (now left) || (right; discriminate). Qed.


Lemma Stage_to_string_inj (a b : Stage.t) :
  Stage.to_string a = Stage.to_string b -> a = b.
Proof. destruct a, b; simpl; intros H; reflexivity || discriminate H. Qed.

(* ================================================================= *)
(** ** Scoring *)

Ltac case_string_eqb :=
  repeat match goal with
    | |- context [String.eqb ?a ?b] =>
        destruct (String.eqb_spec a b) as [?E | ?E]; simpl
    end.

Lemma score_as_sum (L : Lead.t) (A : list Activity.t) :
  calculateLeadScore L A
  = Z.min 100 (ScoreRules.src (Lead.source L) + ScoreRules.bud (Lead.budgetRange L)
               + ScoreRules.eng A + ScoreRules.vol A)%Z.
Proof.
  unfold calculateLeadScore, ScoreRules.src, ScoreRules.bud, ScoreRules.eng, ScoreRules.vol.
  unfold Source.Referral, Source.Website, Source.ColdCall, BudgetRange.Above10L,
    BudgetRange.FiveToTenL, BudgetRange.OneToFiveL, ActivityOutcome.Interested,
    ActivityOutcome.FollowUpRequired.
  destruct A as [| a A]; simpl List.length; cbv beta iota zeta.
  - simpl.
    destruct (Lead.source L =? "Referral"), (Lead.source L =? "Website"),
      (Lead.source L =? "Cold Call"), (Lead.budgetRange L =? ">10L"),
      (Lead.budgetRange L =? "5–10L"), (Lead.budgetRange L =? "1–5L"); lia.
  - change (0 <? S (List.length A))%nat with true. cbv iota. simpl nth_error. cbv iota.
    assert (E : forall z : Z,
               (if String.eqb (Activity.outcome a) "Follow-up Required"
                then (if String.eqb (Activity.outcome a) "Interested"
                      then z + 20 else z) + 10
                else (if String.eqb (Activity.outcome a) "Interested"
                      then z + 20 else z))%Z
               = (z + (if String.eqb (Activity.outcome a) "Interested" then 20
                       else if String.eqb (Activity.outcome a) "Follow-up Required"
                            then 10 else 0))%Z).
    { intros z.
      destruct (String.eqb_spec (Activity.outcome a) "Interested") as [-> | ?]; simpl.
      - reflexivity.
      - destruct (Activity.outcome a =? "Follow-up Required"); lia. }
    rewrite E.
    destruct (3 <? S (List.length A))%nat;
      destruct (Activity.outcome a =? "Interested"),
        (Activity.outcome a =? "Follow-up Required");
      destruct (Lead.source L =? "Referral"), (Lead.source L =? "Website"),
        (Lead.source L =? "Cold Call"), (Lead.budgetRange L =? ">10L"),
        (Lead.budgetRange L =? "5–10L"), (Lead.budgetRange L =? "1–5L"); lia.
Qed.

Lemma ScoreRules_bounds (L : Lead.t) (A : list Activity.t) :
  (0 <= ScoreRules.src (Lead.source L) <= 20
   /\ 0 <= ScoreRules.bud (Lead.budgetRange L) <= 30
   /\ 0 <= ScoreRules.eng A <= 20
   /\ 0 <= ScoreRules.vol A <= 10)%Z.
Proof.
  unfold ScoreRules.src, ScoreRules.bud, ScoreRules.eng, ScoreRules.vol.
  repeat split;
    repeat match goal with
      | |- context [if ?c then _ else _] => destruct c
      | |- context [match ?l with [] => _ | _ :: _ => _ end] => destruct l
      end; lia.
Qed.

(** C2. The score is the capped sum of four contributions: source
    (Referral 20, Website 10, Cold Call 5, anything else 0), budget
    (>10L 30, 5-10L 20, 1-5L 10, anything else 0), engagement read off the
    first activity only (Interested 20, Follow-up Required 10, otherwise or
    with no activity 0) and volume (10 when there are more than three
    activities, else 0); it always lies between 0 and 100. *)
Theorem calculateLeadScore_rules (L : Lead.t) (A : list Activity.t) :
  calculateLeadScore L A
  = Z.min 100 (ScoreRules.src (Lead.source L) + ScoreRules.bud (Lead.budgetRange L)
               + ScoreRules.eng A + ScoreRules.vol A)%Z
  /\ (0 <= calculateLeadScore L A <= 100)%Z
  (* source table *)
  /\ ScoreRules.src Source.Referral = 20%Z
  /\ ScoreRules.src Source.Website = 10%Z
  /\ ScoreRules.src Source.ColdCall = 5%Z
  /\ ScoreRules.src Source.LinkedIn = 0%Z
  /\ ScoreRules.src Source.Event = 0%Z
  /\ (forall s, ~ In s [Source.Referral; Source.Website; Source.ColdCall] ->
                ScoreRules.src s = 0%Z)
  (* budget table *)
  /\ ScoreRules.bud BudgetRange.Above10L = 30%Z
  /\ ScoreRules.bud BudgetRange.FiveToTenL = 20%Z
  /\ ScoreRules.bud BudgetRange.OneToFiveL = 10%Z
  /\ ScoreRules.bud BudgetRange.Below1L = 0%Z
  /\ (forall b, ~ In b [BudgetRange.Above10L; BudgetRange.FiveToTenL; BudgetRange.OneToFiveL] ->
                ScoreRules.bud b = 0%Z)
  (* engagement: the first activity only *)
  /\ ScoreRules.eng [] = 0%Z
  /\ (forall a rest, ScoreRules.eng (a :: rest) = ScoreRules.eng [a])
  /\ (forall a, Activity.outcome a = ActivityOutcome.Interested -> ScoreRules.eng [a] = 20%Z)
  /\ (forall a, Activity.outcome a = ActivityOutcome.FollowUpRequired ->
                ScoreRules.eng [a] = 10%Z)
  /\ (forall a, ~ In (Activity.outcome a)
                     [ActivityOutcome.Interested; ActivityOutcome.FollowUpRequired] ->
                ScoreRules.eng [a] = 0%Z)
  (* volume *)
  /\ ((3 < List.length A)%nat -> ScoreRules.vol A = 10%Z)
  /\ ((List.length A <= 3)%nat -> ScoreRules.vol A = 0%Z).
Proof.
  split; [apply score_as_sum |].
  split.
  { rewrite score_as_sum. pose proof (ScoreRules_bounds L A). lia. }
  repeat split; try reflexivity.
  - intros s Hs. unfold ScoreRules.src. simpl in Hs.
    case_string_eqb; try reflexivity; exfalso; intuition congruence.
  - intros b Hb. unfold ScoreRules.bud. simpl in Hb.
    case_string_eqb; try reflexivity; exfalso; intuition congruence.
  - intros a Ha. unfold ScoreRules.eng. rewrite Ha. reflexivity.
  - intros a Ha. unfold ScoreRules.eng. rewrite Ha. reflexivity.
  - intros a Ha. unfold ScoreRules.eng. simpl in Ha.
    case_string_eqb; try reflexivity; exfalso; intuition congruence.
  - intros H. unfold ScoreRules.vol. apply Nat.ltb_lt in H. rewrite H. reflexivity.
  - intros H. unfold ScoreRules.vol.
    destruct (Nat.ltb_spec 3 (List.length A)); [lia | reflexivity].
Qed.

(** C10. No lead scores above 80: the largest contributions are 20
    (source), 30 (budget), 20 (engagement) and 10 (volume), so the cap at
    100 never decides the result. *)
Theorem calculateLeadScore_le_80 (L : Lead.t) (A : list Activity.t) :
  (0 <= calculateLeadScore L A <= 80)%Z
  /\ calculateLeadScore L A
     = (ScoreRules.src (Lead.source L) + ScoreRules.bud (Lead.budgetRange L)
        + ScoreRules.eng A + ScoreRules.vol A)%Z
  /\ calculateLeadScore (scoringLead Source.Referral BudgetRange.Above10L)
       [sampleActivity ActivityOutcome.Interested; sampleActivity ActivityOutcome.NoResponse;
        sampleActivity ActivityOutcome.NoResponse; sampleActivity ActivityOutcome.NoResponse]
     = 80%Z
  /\ calculateLeadScore (scoringLead Source.LinkedIn BudgetRange.Below1L) [] = 0%Z.
Proof.
  rewrite score_as_sum. pose proof (ScoreRules_bounds L A).
  repeat split; try reflexivity; lia.
Qed.

(* ================================================================= *)
(** ** Rounding to binary64 *)

Lemma pow2_pos (e : Z) : 0 < 2 ^ e.
Proof. apply Qpower_0_lt. reflexivity. Qed.

Lemma pow2_succ (e : Z) : 2 ^ (e + 1) == 2 * 2 ^ e.
Proof. rewrite Qpower_plus by discriminate. change (2 ^ 1) with 2. ring. Qed.

Lemma pow2_pred (e : Z) : 2 ^ (e - 1) == 2 ^ e / 2.
Proof. rewrite Qpower_minus by discriminate. reflexivity. Qed.

Lemma pow2_log2 (n : Z) :
  (0 < n)%Z -> 2 ^ Z.log2 n <= inject_Z n /\ inject_Z n < 2 * 2 ^ Z.log2 n.
Proof.
  intros H. destruct (Z.log2_spec n H) as [L U].
  pose proof (Z.log2_nonneg n) as Nn.
  rewrite <- pow2_succ.
  change 2 with (inject_Z 2).
  rewrite <- !Zpower_Qpower by lia.
  split; [now rewrite <- Zle_Qle | now rewrite <- Zlt_Qlt].
Qed.

Lemma Qabs_num_den (x : Q) :
  Qabs x == inject_Z (Z.abs (Qnum x)) / inject_Z (Zpos (Qden x)).
Proof.
  destruct x as [n d]. unfold Qabs. simpl.
  unfold Qeq, Qdiv, Qmult, Qinv, inject_Z. simpl. lia.
Qed.

(** [floor_log2 x] is the exponent of the power of two at or below [|x|]. *)
Lemma floor_log2_spec (x : Q) :
  ~ x == 0 -> 2 ^ floor_log2 x <= Qabs x /\ Qabs x < 2 ^ (floor_log2 x + 1).
Proof.
  intros Nz.
  assert (0 < Z.abs (Qnum x))%Z as Npos.
  { destruct x as [n d]. unfold Qeq in Nz. simpl in *. lia. }
  destruct (pow2_log2 _ Npos) as [NL NU].
  destruct (pow2_log2 (Zpos (Qden x)) eq_refl) as [DL DU].
  pose proof (Qabs_num_den x) as E.
  set (N := inject_Z (Z.abs (Qnum x))) in *.
  set (D := inject_Z (Zpos (Qden x))) in *.
  set (a := Z.log2 (Z.abs (Qnum x))) in *.
  set (b := Z.log2 (Z.pos (Qden x))) in *.
  pose proof (pow2_pos a) as Apos. pose proof (pow2_pos b) as Bpos.
  assert (K : 2 ^ (a - b) == 2 ^ a / 2 ^ b) by (apply Qpower_minus; discriminate).
  unfold floor_log2. fold a b.
  set (A := 2 ^ a) in *. set (B := 2 ^ b) in *.
  assert (0 < D) as Dpos by lra.
  destruct (Qle_bool (2 ^ (a - b)) (Qabs x)) eqn:T.
  - apply Qle_bool_iff in T. split; [exact T |].
    rewrite pow2_succ, K, E.
    apply Qlt_shift_div_r; [exact Dpos |].
    assert (2 * (A / B) * D == (2 * A) * (D / B)) as -> by (field; lra).
    assert (1 <= D / B) as G by (apply Qle_shift_div_l; lra).
    nra.
  - assert (Qabs x < 2 ^ (a - b)) as U.
    { apply Qnot_le_lt. intros H. apply Qle_bool_iff in H. congruence. }
    split.
    + rewrite pow2_pred, K, E.
      apply Qle_shift_div_l; [exact Dpos |].
      assert (A / B / 2 * D == A * (D / (2 * B))) as -> by (field; lra).
      assert (D / (2 * B) <= 1) as G by (apply Qle_shift_div_r; lra).
      nra.
    + now replace (a - b - 1 + 1)%Z with (a - b)%Z by lia.
Qed.

Lemma floor_log2_unique (x : Q) (k : Z) :
  2 ^ k <= Qabs x -> Qabs x < 2 ^ (k + 1) -> floor_log2 x = k.
Proof.
  intros L U.
  assert (~ x == 0) as Nz.
  { intros E. rewrite E in L. pose proof (pow2_pos k). change (Qabs 0) with 0 in L. lra. }
  destruct (floor_log2_spec x Nz) as [L' U'].
  assert (2 ^ k < 2 ^ (floor_log2 x + 1)) as H1 by lra.
  assert (2 ^ floor_log2 x < 2 ^ (k + 1)) as H2 by lra.
  apply Qpower_lt_compat_l_inv in H1; [| reflexivity].
  apply Qpower_lt_compat_l_inv in H2; [| reflexivity].
  lia.
Qed.

(** Rounding to an integer moves a number by at most one half. *)
Lemma round_half_even_close (y : Q) :
  Qabs (inject_Z (round_half_even y) - y) <= 1 # 2.
Proof.
  unfold round_half_even.
  pose proof (Qfloor_le y) as L. pose proof (Qlt_floor y) as U.
  rewrite inject_Z_plus in U. change (inject_Z 1) with 1 in U.
  apply Qabs_Qle_condition.
  destruct (Qcompare_spec (y - inject_Z (Qfloor y)) (1 # 2)) as [E | E | E].
  - destruct (Z.even (Qfloor y)); [| rewrite inject_Z_plus; change (inject_Z 1) with 1];
      split; lra.
  - split; lra.
  - rewrite inject_Z_plus. change (inject_Z 1) with 1. split; lra.
Qed.

Lemma round_half_even_comp (x y : Q) : x == y -> round_half_even x = round_half_even y.
Proof.
  intros E. unfold round_half_even.
  assert (Qfloor x = Qfloor y) as -> by now rewrite E.
  now rewrite E.
Qed.

Lemma round_half_even_nonneg (y : Q) : 0 <= y -> (0 <= round_half_even y)%Z.
Proof.
  intros H. unfold round_half_even.
  assert (0 <= Qfloor y)%Z as F.
  { change 0%Z with (Qfloor 0). now apply Qfloor_resp_le. }
  destruct (Qcompare _ _); [destruct (Z.even _) | |]; lia.
Qed.

Lemma round_half_even_Z (z : Z) : round_half_even (inject_Z z) = z.
Proof.
  unfold round_half_even. rewrite Qfloor_Z.
  assert (inject_Z z - inject_Z z == 0) as E by ring.
  now rewrite (Qcompare_comp _ _ E _ _ (Qeq_refl (1 # 2))).
Qed.

(** [binary64] depends on the number only, not on the fraction that
    writes it. *)
Lemma binary64_comp (x y : Q) : x == y -> binary64 x = binary64 y.
Proof.
  intros E. unfold binary64.
  rewrite (Qeqb_comp x y E 0 0 (Qeq_refl 0)).
  destruct (Qeq_bool y 0) eqn:Z0; [reflexivity |].
  assert (~ y == 0) as Ny.
  { intros H. apply Qeq_bool_iff in H. congruence. }
  assert (floor_log2 x = floor_log2 y) as ->.
  { destruct (floor_log2_spec y Ny) as [L U].
    apply floor_log2_unique; now rewrite E. }
  assert (x / 2 ^ Z.max (floor_log2 y - 52) (-1074)
          == y / 2 ^ Z.max (floor_log2 y - 52) (-1074)) as D by now rewrite E.
  now rewrite (round_half_even_comp _ _ D).
Qed.

Lemma binary64_nonneg (x : Q) : 0 <= x -> 0 <= binary64 x.
Proof.
  intros H. unfold binary64. destruct (Qeq_bool x 0); [lra |].
  set (e := Z.max (floor_log2 x - 52) (-1074)).
  pose proof (pow2_pos e) as P.
  apply Qmult_le_0_compat; [| lra].
  change 0 with (inject_Z 0). rewrite <- Zle_Qle.
  apply round_half_even_nonneg.
  apply Qle_shift_div_l; [exact P | lra].
Qed.

Lemma round_half_even_mono (x y : Q) : x <= y -> (round_half_even x <= round_half_even y)%Z.
Proof.
  intros H. unfold round_half_even.
  pose proof (Qfloor_resp_le x y H) as F.
  pose proof (Qfloor_le x) as Lx. pose proof (Qlt_floor x) as Ux.
  pose proof (Qfloor_le y) as Ly. pose proof (Qlt_floor y) as Uy.
  rewrite inject_Z_plus in Ux, Uy. change (inject_Z 1) with 1 in Ux, Uy.
  destruct (Z.eq_dec (Qfloor x) (Qfloor y)) as [E | N].
  - rewrite E in *.
    destruct (Qcompare_spec (x - inject_Z (Qfloor y)) (1 # 2)) as [Cx | Cx | Cx];
      destruct (Qcompare_spec (y - inject_Z (Qfloor y)) (1 # 2)) as [Cy | Cy | Cy];
      try destruct (Z.even (Qfloor y)); try lia; exfalso; lra.
  - assert (Qfloor x + 1 <= Qfloor y)%Z as G by lia.
    destruct (Qcompare (x - inject_Z (Qfloor x)) (1 # 2));
      destruct (Qcompare (y - inject_Z (Qfloor y)) (1 # 2));
      try destruct (Z.even (Qfloor x)); try destruct (Z.even (Qfloor y)); lia.
Qed.

Lemma floor_log2_mono (x y : Q) : 0 < x -> x <= y -> (floor_log2 x <= floor_log2 y)%Z.
Proof.
  intros Hx H.
  assert (~ x == 0) as Nx by lra. assert (~ y == 0) as Ny by lra.
  destruct (floor_log2_spec x Nx) as [Lx _].
  destruct (floor_log2_spec y Ny) as [_ Uy].
  rewrite Qabs_pos in Lx by lra. rewrite Qabs_pos in Uy by lra.
  assert (2 ^ floor_log2 x < 2 ^ (floor_log2 y + 1)) as C by lra.
  apply Qpower_lt_compat_l_inv in C; [lia | reflexivity].
Qed.

(** Rounding keeps the order of non-negative numbers. *)
Lemma binary64_mono (x y : Q) : 0 <= x -> x <= y -> binary64 x <= binary64 y.
Proof.
  intros Hx H.
  destruct (Qeq_dec x 0) as [X0 | Nx].
  { rewrite (binary64_comp _ _ X0). change (binary64 0) with 0.
    apply binary64_nonneg. lra. }
  assert (0 < x) as Px by lra. assert (~ y == 0) as Ny by lra.
  unfold binary64.
  destruct (Qeq_bool x 0) eqn:Bx; [apply Qeq_bool_iff in Bx; contradiction |].
  destruct (Qeq_bool y 0) eqn:By; [apply Qeq_bool_iff in By; contradiction |].
  pose proof (floor_log2_mono x y Px H) as K.
  destruct (floor_log2_spec x Nx) as [Lx Ux].
  destruct (floor_log2_spec y Ny) as [Ly Uy].
  rewrite Qabs_pos in Lx, Ux by lra. rewrite Qabs_pos in Ly, Uy by lra.
  set (kx := floor_log2 x) in *. set (ky := floor_log2 y) in *.
  set (ex := Z.max (kx - 52) (-1074)). set (ey := Z.max (ky - 52) (-1074)).
  pose proof (pow2_pos ex) as Pex. pose proof (pow2_pos ey) as Pey.
  destruct (Z.eq_dec ex ey) as [E | N].
  - rewrite E. apply Qmult_le_compat_r; [| lra].
    rewrite <- Zle_Qle. apply round_half_even_mono.
    apply Qle_shift_div_l; [exact Pey |].
    assert (x / 2 ^ ey * 2 ^ ey == x) as -> by (field; lra). exact H.
  - assert (ex + 1 <= ey)%Z as G by (unfold ex, ey in *; lia).
    assert (ey = ky - 52)%Z as Ey by (unfold ex, ey in *; lia).
    (* the significand of [x] is at most 2^53, that of [y] at least 2^52 *)
    assert (round_half_even (x / 2 ^ ex) <= 2 ^ 53)%Z as Mx.
    { rewrite <- (round_half_even_Z (2 ^ 53)). apply round_half_even_mono.
      apply Qle_shift_div_r; [exact Pex |].
      assert (inject_Z (2 ^ 53) * 2 ^ ex == 2 ^ (ex + 53)) as ->.
      { rewrite Zpower_Qpower by lia. change (inject_Z 2) with 2.
        rewrite Qpower_plus by discriminate. ring. }
      assert (2 ^ (kx + 1) <= 2 ^ (ex + 53)) as P.
      { apply Qpower_le_compat_l; [unfold ex; lia | discriminate]. }
      lra. }
    assert (2 ^ 52 <= round_half_even (y / 2 ^ ey))%Z as My.
    { rewrite <- (round_half_even_Z (2 ^ 52)) at 1. apply round_half_even_mono.
      apply Qle_shift_div_l; [exact Pey |].
      assert (inject_Z (2 ^ 52) * 2 ^ ey == 2 ^ ky) as ->.
      { rewrite Zpower_Qpower by lia. change (inject_Z 2) with 2.
        rewrite Ey. rewrite <- Qpower_plus by discriminate.
        now replace (52 + (ky - 52))%Z with ky by lia. }
      exact Ly. }
    rewrite Zle_Qle in Mx, My.
    assert (2 ^ (ex + 1) <= 2 ^ ey) as P2.
    { apply Qpower_le_compat_l; [exact G | discriminate]. }
    rewrite pow2_succ in P2.
    assert (inject_Z (2 ^ 53) == 2 * inject_Z (2 ^ 52)) as D by reflexivity.
    assert (0 < inject_Z (2 ^ 52)) as P52 by reflexivity.
    set (mx := inject_Z (round_half_even (x / 2 ^ ex))) in *.
    set (my := inject_Z (round_half_even (y / 2 ^ ey))) in *.
    set (A := 2 ^ ex) in *. set (B := 2 ^ ey) in *.
    set (c := inject_Z (2 ^ 52)) in *. set (c2 := inject_Z (2 ^ 53)) in *.
    assert (mx * A <= c2 * A) by nra.
    assert (c * B <= my * B) by nra.
    assert (c2 * A <= c * B) by nra.
    lra.
Qed.

(** The rounding error: at most half a unit in the last place, which is
    at most [2^-53] of the number itself, or [2^-1075] where the spacing
    of the binary64 values no longer shrinks. *)
Lemma binary64_error (x : Q) :
  Qabs (binary64 x - x) <= half_ulp * Qabs x + half_min.
Proof.
  unfold binary64.
  destruct (Qeq_bool x 0) eqn:Z0.
  - apply Qeq_bool_iff in Z0. rewrite Z0. vm_compute. discriminate.
  - assert (~ x == 0) as Nz.
    { intros H. apply Qeq_bool_iff in H. congruence. }
    destruct (floor_log2_spec x Nz) as [L _].
    set (k := floor_log2 x) in *.
    set (e := Z.max (k - 52) (-1074)).
    pose proof (pow2_pos e) as P.
    pose proof (round_half_even_close (x / 2 ^ e)) as C.
    set (m := inject_Z (round_half_even (x / 2 ^ e))) in *.
    assert (m * 2 ^ e - x == (m - x / 2 ^ e) * 2 ^ e) as -> by (field; lra).
    rewrite Qabs_Qmult, (Qabs_pos (2 ^ e)) by lra.
    assert (2 ^ e * (1 # 2) <= half_ulp * Qabs x + half_min) as B.
    { pose proof (Qabs_nonneg x) as Ax.
      destruct (Z.max_spec (k - 52) (-1074)) as [[_ Em] | [_ Em]]; fold e in Em; rewrite Em.
      - change (2 ^ (-1074) * (1 # 2)) with half_min at 1.
        assert (0 <= half_ulp * Qabs x) by (apply Qmult_le_0_compat; [discriminate | exact Ax]).
        lra.
      - assert (2 ^ (k - 52) == 2 ^ k * (1 # 4503599627370496)) as ->.
        { rewrite Qpower_minus by discriminate. reflexivity. }
        assert (0 < half_min) by reflexivity.
        unfold half_ulp.
        assert (2 ^ k * (1 # 4503599627370496) * (1 # 2)
                == (1 # 9007199254740992) * 2 ^ k) as -> by ring.
        set (K := 2 ^ k) in *. set (A := Qabs x) in *. lra. }
    set (d := Qabs (m - x / 2 ^ e)) in *.
    set (E := 2 ^ e) in *. set (R := half_ulp * Qabs x + half_min) in *.
    nra.
Qed.

(** Integers below [2^53] in absolute value are binary64 numbers. *)
Lemma binary64_Z (z : Z) : (Z.abs z < 2 ^ 53)%Z -> is_binary64 (inject_Z z).
Proof.
  intros B. unfold is_binary64, binary64.
  destruct (Qeq_bool (inject_Z z) 0) eqn:Z0.
  - apply Qeq_bool_iff in Z0. now rewrite Z0.
  - assert (~ inject_Z z == 0) as Nz.
    { intros H. apply Qeq_bool_iff in H. congruence. }
    destruct (floor_log2_spec _ Nz) as [L _].
    set (k := floor_log2 (inject_Z z)) in *.
    assert (k < 53)%Z as K.
    { apply (Qpower_lt_compat_l_inv 2); [| reflexivity].
      eapply Qle_lt_trans; [exact L |].
      assert (Qabs (inject_Z z) == inject_Z (Z.abs z)) as -> by reflexivity.
      change (2 ^ 53) with (inject_Z (2 ^ 53)). now rewrite <- Zlt_Qlt. }
    set (e := Z.max (k - 52) (-1074)).
    assert (e <= 0)%Z as E0 by (unfold e; lia).
    assert (inject_Z z / 2 ^ e == inject_Z (z * 2 ^ (- e))) as D.
    { rewrite inject_Z_mult, Zpower_Qpower by lia.
      change (inject_Z 2) with 2. rewrite Qpower_opp.
      field. apply Qpower_not_0; discriminate. }
    rewrite (round_half_even_comp _ _ D), round_half_even_Z.
    rewrite inject_Z_mult, Zpower_Qpower by lia.
    change (inject_Z 2) with 2. rewrite Qpower_opp.
    field. apply Qpower_not_0. discriminate.
Qed.

Lemma half_ulp_facts :
  0 <= half_ulp /\ 0 <= half_min
  /\ 2 * half_ulp + half_ulp * half_ulp <= 2 ^ (-51)
  /\ (1 + half_ulp) * half_min <= 2 ^ (-1074)
  /\ half_min <= 2 ^ (-1074).
Proof. vm_compute. repeat split; discriminate. Qed.

(** A product with a quotient, both rounded, against the exact value:
    two roundings cost at most [2^-51] of the value, plus the spacing of
    the smallest numbers. *)
Lemma Number_mul_div_close (d p c : Q) :
  Qabs (Number_mul d (Number_div p c) - d * (p / c))
  <= 2 ^ (-51) * Qabs (d * (p / c)) + 2 ^ (-1074) * (Qabs d + 1).
Proof.
  unfold Number_mul, Number_div.
  set (P := p / c). set (q := binary64 P).
  pose proof (binary64_error P) as H1. fold q in H1.
  pose proof (binary64_error (d * q)) as H2.
  rewrite Qabs_Qmult in H2.
  assert (binary64 (d * q) - d * P == (binary64 (d * q) - d * q) + d * (q - P)) as -> by ring.
  eapply Qle_trans; [apply Qabs_triangle |].
  rewrite !Qabs_Qmult.
  assert (Qabs q <= Qabs P + Qabs (q - P)) as C.
  { assert (q == P + (q - P)) as E by ring.
    rewrite E at 1. apply Qabs_triangle. }
  pose proof (Qabs_nonneg d) as A0. pose proof (Qabs_nonneg P) as B0.
  pose proof (Qabs_nonneg q) as C0. pose proof (Qabs_nonneg (q - P)) as E0.
  destruct half_ulp_facts as (U0 & M0 & U4 & M2 & M1).
  set (a := Qabs d) in *. set (b := Qabs P) in *. set (cq := Qabs q) in *.
  set (e1 := Qabs (q - P)) in *. set (e2 := Qabs (binary64 (d * q) - d * q)) in *.
  set (u := half_ulp) in *. set (h := half_min) in *.
  set (U := 2 ^ (-51)) in *. set (H := 2 ^ (-1074)) in *.
  assert (a * e1 <= a * (u * b + h)) as S1 by nra.
  assert (u * a * cq <= u * a * (b + (u * b + h))) as S2.
  { assert (cq <= b + (u * b + h)) by lra.
    assert (0 <= u * a) by nra. nra. }
  assert (a * b * (2 * u + u * u) <= a * b * U) as S3.
  { assert (0 <= a * b) by nra. nra. }
  assert (a * ((1 + u) * h) <= a * H) as S4 by nra.
  nra.
Qed.

(** At the inputs of the examples below, at some awkward ones (a
    repeating fraction, a negative number, a tie between two neighbours,
    a subnormal and a large number), on four hundred deal values with
    each of seven probabilities, and on every share of up to eighty
    leads, [binary64] gives what the kernel's binary64 arithmetic gives. *)
Lemma binary64_as_the_kernel :
  denotes (PrimFloat.mul (float_of_Z 11000) (PrimFloat.div (float_of_Z 70) (float_of_Z 100)))
    (Number_mul 11000 (Number_div 70 100)) = true
  /\ denotes (PrimFloat.div (PrimFloat.mul (float_of_Z 11000) (float_of_Z 70)) (float_of_Z 100))
       (Number_div (Number_mul 11000 70) 100) = true
  /\ denotes (PrimFloat.mul (float_of_Z 1000) (PrimFloat.div (float_of_Z 70) (float_of_Z 100)))
       (Number_mul 1000 (Number_div 70 100)) = true
  /\ denotes (PrimFloat.mul (float_of_Z 3) (PrimFloat.div (float_of_Z 40) (float_of_Z 100)))
       (Number_mul 3 (Number_div 40 100)) = true
  /\ denotes (PrimFloat.mul (float_of_Z 3) (PrimFloat.div (float_of_Z 1) (float_of_Z 10)))
       (Number_mul 3 (binary64 (1 # 10))) = true
  /\ denotes (PrimFloat.mul (PrimFloat.div (float_of_Z 23) (float_of_Z 80)) (float_of_Z 100))
       (Number_mul (Number_div 23 80) 100) = true
  /\ denotes (PrimFloat.div (float_of_Z 287) (float_of_Z 10)) (binary64 (287 # 10)) = true
  /\ denotes (PrimFloat.div (float_of_Z 1) (float_of_Z 3)) (Number_div 1 3) = true
  /\ denotes (PrimFloat.div (float_of_Z (-7)) (float_of_Z 3)) (Number_div (-7) 3) = true
  /\ denotes (float_of_Z (2 ^ 53 + 1)) (binary64 (inject_Z (2 ^ 53 + 1))) = true
  /\ denotes (float_of_Z (2 ^ 53 + 3)) (binary64 (inject_Z (2 ^ 53 + 3))) = true
  /\ denotes (PrimFloat.div (FloatOps.SF2Prim (SpecFloat.S754_finite false 5 (-1074)))
                (float_of_Z 2))
       (Number_div (5 * 2 ^ (-1074)) 2) = true
  /\ denotes (PrimFloat.mul (float_of_Z (10 ^ 300)) (float_of_Z 7))
       (Number_mul (binary64 (inject_Z (10 ^ 300))) 7) = true
  /\ forallb (fun d => forallb (same_product d) sample_probabilities) sample_deals = true
  /\ forallb (fun t => forallb (fun w => same_percentage w t) (seq 0 (S t))) (seq 1 80)
     = true.
Proof. vm_compute. repeat split. Qed.

(* ================================================================= *)
(** ** Stage transition *)

Lemma newProb_table (lead : Lead.t) (s : Stage.t) :
  newProb lead s =
  match s with
  | Stage.Won => 100
  | Stage.Lost => 0
  | Stage.Proposal => 70
  | Stage.Qualified => 40
  | Stage.New | Stage.Contacted => Lead.probability lead
  end.
Proof. destruct s; reflexivity. Qed.

(** The recomputed expected value against the exact product. *)
Lemma expectedValue_close (lead : Lead.t) (s : Stage.t) :
  let r := updatedLead lead s in
  Qabs (Lead.expectedValue r - Lead.dealValue r * Lead.probability r / 100)
  <= 2 ^ (-51) * Qabs (Lead.dealValue r * Lead.probability r / 100)
     + 2 ^ (-1074) * (Qabs (Lead.dealValue r) + 1).
Proof.
  cbv zeta. cbn [updatedLead Lead.expectedValue Lead.dealValue Lead.probability].
  assert (Lead.dealValue lead * newProb lead s / 100
          == Lead.dealValue lead * (newProb lead s / 100)) as E by (field; discriminate).
  rewrite E. apply Number_mul_div_close.
Qed.

(** Where the quotient and the product are binary64 values themselves,
    nothing is rounded. *)
Lemma expectedValue_exact (lead : Lead.t) (s : Stage.t) :
  let r := updatedLead lead s in
  is_binary64 (Lead.probability r / 100) ->
  is_binary64 (Lead.dealValue r * (Lead.probability r / 100)) ->
  invariant r.
Proof.
  cbv zeta. unfold invariant, is_binary64.
  cbn [updatedLead Lead.expectedValue Lead.dealValue Lead.probability].
  intros Hq Hp. unfold Number_mul, Number_div.
  rewrite (binary64_comp _ (Lead.dealValue lead * (newProb lead s / 100)))
    by now rewrite Hq.
  rewrite Hp. field.
Qed.

(** C1 (as amended). Moving a lead to stage [s] returns a copy of the
    lead in stage [s] whose probability and status follow the table (Won
    100/Won, Lost 0/Lost, Proposal 70/Open, Qualified 40/Open, New and
    Contacted keep the probability and are Open); every other field but
    the expected value is the input's.  The expected value is recomputed
    from the resulting probability as the binary64 product dealValue *
    (probability / 100): the quotient is rounded, then the product.  It
    lies within [2^-51] of the exact dealValue * probability / 100,
    relative to that value (plus the spacing of the smallest numbers);
    for Won it is the deal value itself and for Lost it is 0.  With a deal
    value of 1000 the expected value is 700 for Proposal, 1000 for Won and
    0 for Lost. *)
Theorem stage_transition_table (lead : Lead.t) (s : Stage.t) :
  let r := updatedLead lead s in
  handleStageChange (Some lead) s = Some r
  /\ Lead.stage r = s
  /\ Lead.probability r =
       match s with
       | Stage.Won => 100
       | Stage.Lost => 0
       | Stage.Proposal => 70
       | Stage.Qualified => 40
       | Stage.New | Stage.Contacted => Lead.probability lead
       end
  /\ Lead.status r =
       match s with
       | Stage.Won => Status.Won
       | Stage.Lost => Status.Lost
       | Stage.Proposal | Stage.Qualified | Stage.New | Stage.Contacted => Status.Open
       end
  /\ Lead.expectedValue r
     = Number_mul (Lead.dealValue lead) (Number_div (Lead.probability r) 100)
  /\ Qabs (Lead.expectedValue r - Lead.dealValue lead * Lead.probability r / 100)
     <= 2 ^ (-51) * Qabs (Lead.dealValue lead * Lead.probability r / 100)
        + 2 ^ (-1074) * (Qabs (Lead.dealValue lead) + 1)
  /\ (s = Stage.Won -> is_binary64 (Lead.dealValue lead) ->
      Lead.expectedValue r == Lead.dealValue lead)
  /\ (s = Stage.Lost -> Lead.expectedValue r == 0)
  /\ (Lead.id r, Lead.leadName r, Lead.companyName r, Lead.email r, Lead.phone r,
      Lead.industry r, Lead.source r, Lead.budgetRange r, Lead.leadOwner r,
      Lead.leadScore r, Lead.dealValue r, Lead.nextActionType r,
      Lead.nextActionDateTime r, Lead.lastContactedAt r, Lead.createdAt r,
      Lead.notes r, Lead.suggestedEmailSubject r, Lead.suggestedEmailBody r)
     = (Lead.id lead, Lead.leadName lead, Lead.companyName lead, Lead.email lead,
        Lead.phone lead, Lead.industry lead, Lead.source lead, Lead.budgetRange lead,
        Lead.leadOwner lead, Lead.leadScore lead, Lead.dealValue lead,
        Lead.nextActionType lead, Lead.nextActionDateTime lead,
        Lead.lastContactedAt lead, Lead.createdAt lead, Lead.notes lead,
        Lead.suggestedEmailSubject lead, Lead.suggestedEmailBody lead)
  /\ (Lead.dealValue lead == 1000 ->
      (s = Stage.Proposal -> Lead.expectedValue r == 700)
      /\ (s = Stage.Won -> Lead.expectedValue r == 1000)
      /\ (s = Stage.Lost -> Lead.expectedValue r == 0)).
Proof.
  intros r.
  pose proof (expectedValue_close lead s) as Close.
  pose proof (expectedValue_exact lead s) as Exact.
  cbv zeta in Close, Exact. fold r in Close, Exact.
  subst r.
  split; [reflexivity |].
  split; [reflexivity |].
  split; [apply newProb_table |].
  split; [destruct s; reflexivity |].
  split; [reflexivity |].
  split; [exact Close |].
  cbn [updatedLead Lead.expectedValue Lead.dealValue Lead.probability] in *.
  split.
  { intros -> Hd. unfold invariant in Exact.
    cbn [updatedLead Lead.expectedValue Lead.dealValue Lead.probability] in Exact.
    rewrite Exact.
    - change (newProb lead Stage.Won) with 100. field.
    - reflexivity.
    - change (newProb lead Stage.Won) with 100. unfold is_binary64 in *.
      rewrite (binary64_comp _ (Lead.dealValue lead)) by field.
      rewrite Hd. field. }
  split.
  { intros ->. unfold invariant in Exact.
    cbn [updatedLead Lead.expectedValue Lead.dealValue Lead.probability] in Exact.
    rewrite Exact.
    - change (newProb lead Stage.Lost) with 0. field.
    - reflexivity.
    - change (newProb lead Stage.Lost) with 0. unfold is_binary64.
      rewrite (binary64_comp _ 0) by field. change (binary64 0) with 0. field. }
  split; [reflexivity |].
  intros Hd.
  assert (forall p, Number_mul (Lead.dealValue lead) (Number_div p 100)
                    = Number_mul 1000 (Number_div p 100)) as E.
  { intros p. unfold Number_mul. apply binary64_comp. now rewrite Hd. }
  repeat split; intros ->; rewrite E; vm_compute; reflexivity.
Qed.

(** A deal of 11000 moved to Proposal: 70 / 100 is rounded to the
    binary64 value next to 0.7 and the product to 7699.999999999999, one
    unit in the last place below 7700. *)
Lemma recomputed_exactly_fails :
  Lead.probability (updatedLead (dealOf 11000) Stage.Proposal) == 70
  /\ Lead.expectedValue (updatedLead (dealOf 11000) Stage.Proposal)
     == 8466239533875199 # 1099511627776
  /\ Lead.dealValue (dealOf 11000) * 70 / 100 == 7700
  /\ ~ recomputed_exactly (dealOf 11000) Stage.Proposal.
Proof.
  split; [reflexivity |].
  split; [vm_compute; reflexivity |].
  split; [reflexivity |].
  vm_compute. discriminate.
Qed.

(** C4 (as amended). After a stage transition the expected value of the
    returned lead is the binary64 product dealValue * (probability / 100)
    of its own fields.  It agrees with dealValue * probability / 100 up
    to the two roundings, that is within [2^-51] of that value relative to
    it (plus the spacing of the smallest numbers), and exactly whenever
    probability / 100 and the product are binary64 values themselves, as
    they are for probability 100 and 0 (Won and Lost). *)
Theorem stage_transition_invariant (lead : Lead.t) (s : Stage.t) :
  let r := updatedLead lead s in
  handleStageChange (Some lead) s = Some r
  /\ Lead.expectedValue r
     = Number_mul (Lead.dealValue r) (Number_div (Lead.probability r) 100)
  /\ Qabs (Lead.expectedValue r - Lead.dealValue r * Lead.probability r / 100)
     <= 2 ^ (-51) * Qabs (Lead.dealValue r * Lead.probability r / 100)
        + 2 ^ (-1074) * (Qabs (Lead.dealValue r) + 1)
  /\ (is_binary64 (Lead.probability r / 100) ->
      is_binary64 (Lead.dealValue r * (Lead.probability r / 100)) ->
      invariant r)
  /\ (is_binary64 (Lead.dealValue r) ->
      Lead.probability r == 100 \/ Lead.probability r == 0 ->
      invariant r).
Proof.
  intros r.
  pose proof (expectedValue_close lead s) as Close.
  pose proof (expectedValue_exact lead s) as Exact.
  cbv zeta in Close, Exact. fold r in Close, Exact.
  split; [reflexivity |].
  split; [reflexivity |].
  split; [exact Close |].
  split; [exact Exact |].
  intros Hd Hp. apply Exact; unfold is_binary64 in *.
  - destruct Hp as [Hp | Hp].
    + rewrite (binary64_comp _ 1) by (rewrite Hp; reflexivity).
      rewrite Hp. reflexivity.
    + rewrite (binary64_comp _ 0) by (rewrite Hp; reflexivity).
      rewrite Hp. reflexivity.
  - destruct Hp as [Hp | Hp].
    + rewrite (binary64_comp _ (Lead.dealValue r)) by (rewrite Hp; field).
      rewrite Hd, Hp. field.
    + rewrite (binary64_comp _ 0) by (rewrite Hp; field).
      rewrite Hp. change (binary64 0) with 0. field.
Qed.

(** A deal of 3 moved to Qualified: the expected value is
    1.2000000000000002, which is neither 3 * 40 / 100 = 1.2 nor the
    binary64 value of 1.2 that 3 * 40 / 100 evaluates to. *)
Lemma invariant_after_transition_fails :
  (Lead.dealValue (updatedLead (dealOf 3) Stage.Qualified),
   Lead.probability (updatedLead (dealOf 3) Stage.Qualified)) = (3, 40)
  /\ Lead.expectedValue (updatedLead (dealOf 3) Stage.Qualified)
     == 5404319552844596 # 4503599627370496
  /\ ~ invariant (updatedLead (dealOf 3) Stage.Qualified)
  /\ ~ Lead.expectedValue (updatedLead (dealOf 3) Stage.Qualified)
       == Number_div (Number_mul 3 40) 100.
Proof.
  split; [reflexivity |].
  split; [vm_compute; reflexivity |].
  split; vm_compute; discriminate.
Qed.

Lemma stage_transition_invariant_witness :
  invariant (updatedLead (dealOf 11000) Stage.Won)
  /\ Lead.expectedValue (updatedLead (dealOf 11000) Stage.Won) == 11000.
Proof.
  destruct (stage_transition_invariant (dealOf 11000) Stage.Won) as (_ & _ & _ & _ & H).
  split; [apply H; [reflexivity | left; reflexivity] | reflexivity].
Defined.

(** C9. Applying the same stage transition twice gives exactly the lead
    obtained by applying it once. *)
Theorem stage_transition_idempotent (lead : Lead.t) (s : Stage.t) :
  updatedLead (updatedLead lead s) s = updatedLead lead s
  /\ (forall once, handleStageChange (Some lead) s = Some once ->
                   handleStageChange (Some once) s = Some once).
Proof.
  assert (E : updatedLead (updatedLead lead s) s = updatedLead lead s).
  { unfold updatedLead at 1 3.
    cbn [updatedLead Lead.id Lead.leadName Lead.companyName Lead.email Lead.phone
         Lead.industry Lead.source Lead.budgetRange Lead.stage Lead.status Lead.leadOwner
         Lead.leadScore Lead.probability Lead.dealValue Lead.expectedValue
         Lead.nextActionType Lead.nextActionDateTime Lead.lastContactedAt Lead.createdAt
         Lead.notes Lead.suggestedEmailSubject Lead.suggestedEmailBody].
    rewrite !newProb_table. destruct s; reflexivity. }
  split; [exact E |].
  intros once H. cbn [handleStageChange] in H. injection H as <-.
  cbn [handleStageChange]. now rewrite E.
Qed.

(* ================================================================= *)
(** ** Object literals as dictionaries *)

Section JsObjectFacts.
Context {V : Type}.
Implicit Types (o : JsObject.t V) (k : string) (v : V).

Lemma get_set_eq o k v : JsObject.get (JsObject.set o k v) k = Some v.
Proof.
  induction o as [| [k' v'] o IH]; simpl.
  - now rewrite String.eqb_refl.
  - destruct (String.eqb_spec k' k) as [E | E]; simpl.
    + now rewrite E, String.eqb_refl.
    + destruct (String.eqb_spec k' k); [contradiction | exact IH].
Qed.

Lemma get_set_neq o k k' v :
  k <> k' -> JsObject.get (JsObject.set o k v) k' = JsObject.get o k'.
Proof.
  intros N. induction o as [| [k0 v0] o IH]; simpl.
  - destruct (String.eqb_spec k k'); [contradiction | reflexivity].
  - destruct (String.eqb_spec k0 k) as [E | E]; simpl.
    + subst k0. destruct (String.eqb_spec k k'); [contradiction | reflexivity].
    + now rewrite IH.
Qed.

Lemma get_modify_eq o k f :
  JsObject.get (JsObject.modify o k f) k = option_map f (JsObject.get o k).
Proof.
  induction o as [| [k' v'] o IH]; simpl; [reflexivity |].
  destruct (String.eqb_spec k' k) as [E | E]; simpl.
  - now rewrite E, String.eqb_refl.
  - destruct (String.eqb_spec k' k); [contradiction | exact IH].
Qed.

Lemma get_modify_neq o k k' f :
  k <> k' -> JsObject.get (JsObject.modify o k f) k' = JsObject.get o k'.
Proof.
  intros N. induction o as [| [k0 v0] o IH]; simpl; [reflexivity |].
  destruct (String.eqb_spec k0 k) as [E | E]; simpl.
  - subst k0. destruct (String.eqb_spec k k'); [contradiction | reflexivity].
  - now rewrite IH.
Qed.

Lemma keys_modify o k f : JsObject.own_keys (JsObject.modify o k f) = JsObject.own_keys o.
Proof.
  induction o as [| [k' v'] o IH]; simpl; [reflexivity |].
  destruct (k' =? k); simpl; [reflexivity | now f_equal].
Qed.

Lemma keys_set_fresh o k v :
  JsObject.get o k = None -> JsObject.own_keys (JsObject.set o k v) = (JsObject.own_keys o ++ [k])%list.
Proof.
  induction o as [| [k' v'] o IH]; simpl; [reflexivity |].
  destruct (k' =? k); [discriminate |].
  intros H. simpl. f_equal. now apply IH.
Qed.

Lemma get_None_keys o k : JsObject.get o k = None <-> ~ In k (JsObject.own_keys o).
Proof.
  induction o as [| [k' v'] o IH]; simpl; [tauto |].
  destruct (String.eqb_spec k' k) as [E | E].
  - split; [discriminate | intros H; exfalso; apply H; now left].
  - rewrite IH. tauto.
Qed.

Lemma get_In o k v : JsObject.get o k = Some v -> In (k, v) o.
Proof.
  induction o as [| [k' v'] o IH]; simpl; [discriminate |].
  destruct (String.eqb_spec k' k) as [E | E].
  - intros [= ->]. left. now rewrite E.
  - intros H. right. now apply IH.
Qed.

Lemma modify_modify o k f g :
  JsObject.modify (JsObject.modify o k f) k g = JsObject.modify o k (fun v => g (f v)).
Proof.
  induction o as [| [k' v'] o IH]; simpl; [reflexivity |].
  destruct (String.eqb_spec k' k) as [E | E]; simpl.
  - subst k'. now rewrite String.eqb_refl.
  - destruct (String.eqb_spec k' k); [contradiction |]. now rewrite IH.
Qed.

Lemma modify_ext o k f g :
  (forall v, f v = g v) -> JsObject.modify o k f = JsObject.modify o k g.
Proof.
  intros E. induction o as [| [k' v'] o IH]; simpl; [reflexivity |].
  destruct (k' =? k); [now rewrite E | now rewrite IH].
Qed.

End JsObjectFacts.

(* ================================================================= *)
(** ** Funnel *)

Lemma funnel_counts_from (leads : list Lead.t) (acc : JsObject.t nat) (s : Stage.t) :
  or_zero (JsObject.get
             (fold_left
                (fun acc lead =>
                   JsObject.set acc (Stage.to_string (Lead.stage lead))
                     (or_zero (JsObject.get acc (Stage.to_string (Lead.stage lead))) + 1)%nat)
                leads acc)
             (Stage.to_string s))
  = (or_zero (JsObject.get acc (Stage.to_string s)) + List.length (inStage s leads))%nat.
Proof.
  revert acc. induction leads as [| lead leads IH]; intros acc; simpl.
  - lia.
  - rewrite IH. clear IH.
    destruct (Stage_eqb_spec (Lead.stage lead) s) as [E | E].
    + subst s. rewrite get_set_eq. simpl. lia.
    + rewrite get_set_neq; [lia |].
      intros H. apply E. now apply Stage_to_string_inj.
Qed.

Lemma funnelRawCounts_get (leads : list Lead.t) (s : Stage.t) :
  or_zero (JsObject.get (funnelRawCounts leads) (Stage.to_string s))
  = List.length (inStage s leads).
Proof. unfold funnelRawCounts. now rewrite funnel_counts_from. Qed.

Lemma stage_partition (leads : list Lead.t) :
  (List.length (inStage Stage.New leads) + List.length (inStage Stage.Contacted leads)
   + List.length (inStage Stage.Qualified leads) + List.length (inStage Stage.Proposal leads)
   + List.length (inStage Stage.Won leads) + List.length (inStage Stage.Lost leads)
   = List.length leads)%nat.
Proof.
  induction leads as [| lead leads IH]; [reflexivity |].
  unfold inStage in *. simpl.
  destruct (Lead.stage lead); simpl; lia.
Qed.

(** C5. The funnel always has the five rows New, Contacted, Qualified,
    Proposal, Won in that order; each row counts the leads currently in
    its stage (0 when there are none); Lost leads are counted nowhere, so
    the counts add up to at most the number of leads, with equality
    exactly when no lead is Lost. *)
Theorem funnelData_rows (leads : list Lead.t) :
  map (fun row => (FunnelRow.name row, FunnelRow.value row)) (funnelData leads)
  = [ (Stage.New, List.length (inStage Stage.New leads));
      (Stage.Contacted, List.length (inStage Stage.Contacted leads));
      (Stage.Qualified, List.length (inStage Stage.Qualified leads));
      (Stage.Proposal, List.length (inStage Stage.Proposal leads));
      (Stage.Won, List.length (inStage Stage.Won leads)) ]
  /\ List.length (funnelData leads) = 5%nat
  /\ (forall lead, In lead leads -> Lead.stage lead = Stage.Lost ->
        forall row, In row (funnelData leads) -> FunnelRow.name row <> Lead.stage lead)
  /\ (sumNat (map FunnelRow.value (funnelData leads)) <= List.length leads)%nat
  /\ (sumNat (map FunnelRow.value (funnelData leads)) = List.length leads
      <-> forall lead, In lead leads -> Lead.stage lead <> Stage.Lost).
Proof.
  assert (Rows : map (fun row => (FunnelRow.name row, FunnelRow.value row)) (funnelData leads)
    = [ (Stage.New, List.length (inStage Stage.New leads));
        (Stage.Contacted, List.length (inStage Stage.Contacted leads));
        (Stage.Qualified, List.length (inStage Stage.Qualified leads));
        (Stage.Proposal, List.length (inStage Stage.Proposal leads));
        (Stage.Won, List.length (inStage Stage.Won leads)) ]).
  { unfold funnelData, mapi, stageOrder.
    cbn [mapi_from map FunnelRow.name FunnelRow.value].
    now rewrite !funnelRawCounts_get. }
  assert (Sum : (sumNat (map FunnelRow.value (funnelData leads))
                 + List.length (inStage Stage.Lost leads) = List.length leads)%nat).
  { rewrite <- (stage_partition leads).
    replace (map FunnelRow.value (funnelData leads))
      with (map snd (map (fun row => (FunnelRow.name row, FunnelRow.value row))
                       (funnelData leads)))
      by (rewrite map_map; reflexivity).
    rewrite Rows. simpl. lia. }
  split; [exact Rows |].
  split; [reflexivity |].
  split.
  { intros lead _ E row Hrow. rewrite E.
    unfold funnelData, mapi, stageOrder in Hrow. simpl in Hrow.
    intuition (subst; discriminate). }
  split; [lia |].
  split.
  - intros E lead Hin HL.
    assert (In lead (inStage Stage.Lost leads)) as Hl.
    { unfold inStage. apply filter_In. split; [exact Hin |]. now rewrite HL. }
    destruct (inStage Stage.Lost leads); [contradiction | cbn [List.length] in Sum; lia].
  - intros H.
    destruct (inStage Stage.Lost leads) as [| lead lost] eqn:E;
      [cbn [List.length] in Sum; lia |].
    exfalso.
    assert (In lead (inStage Stage.Lost leads)) as Hl by (rewrite E; now left).
    unfold inStage in Hl. apply filter_In in Hl. destruct Hl as [Hin Hs].
    apply (H lead Hin). now destruct (Stage_eqb_spec (Lead.stage lead) Stage.Lost).
Qed.

Lemma Stage_name_not_inherited (s : Stage.t) :
  JsObject.inherited (Stage.to_string s) = false.
Proof. destruct s; reflexivity. Qed.

(* ================================================================= *)
(** ** Keys in order of first occurrence *)

Lemma absent_true_iff seen k : absent seen k = true <-> ~ In k seen.
Proof.
  unfold absent. rewrite negb_true_iff. split.
  - intros H Hin. assert (existsb (String.eqb k) seen = true) as E; [| congruence].
    apply existsb_exists. exists k. split; [exact Hin | apply String.eqb_refl].
  - intros H. destruct (existsb (String.eqb k) seen) eqn:E; [| reflexivity].
    apply existsb_exists in E. destruct E as [k' [Hin E]].
    apply String.eqb_eq in E. subst k'. contradiction.
Qed.

Lemma absent_false_iff seen k : absent seen k = false <-> In k seen.
Proof.
  destruct (absent seen k) eqn:E.
  - apply absent_true_iff in E. split; [discriminate | contradiction].
  - split; [intros _ | reflexivity].
    destruct (in_dec string_dec k seen) as [H | H]; [exact H |].
    apply absent_true_iff in H. congruence.
Qed.

Lemma filter_filter_and {A : Type} (p q : A -> bool) (l : list A) :
  filter p (filter q l) = filter (fun a => q a && p a) l.
Proof.
  induction l as [| a l IH]; simpl; [reflexivity |].
  destruct (q a); simpl; [destruct (p a) |]; now rewrite IH.
Qed.

Lemma filter_all {A : Type} (p : A -> bool) (l : list A) :
  (forall a, In a l -> p a = true) -> filter p l = l.
Proof.
  induction l as [| a l IH]; simpl; intros H; [reflexivity |].
  rewrite (H a (or_introl eq_refl)). f_equal. apply IH. intros b Hb. apply H. now right.
Qed.

Lemma In_first_occurrences (ks : list string) (k : string) :
  In k (first_occurrences ks) <-> In k ks.
Proof.
  induction ks as [| k0 ks IH]; simpl; [tauto |].
  rewrite filter_In, IH, negb_true_iff, String.eqb_neq.
  destruct (string_dec k0 k) as [E | E]; [tauto |].
  split; [tauto |]. intros [H | H]; [contradiction |]. right. split; [exact H | congruence].
Qed.

Lemma NoDup_first_occurrences (ks : list string) : NoDup (first_occurrences ks).
Proof.
  induction ks as [| k ks IH]; simpl; constructor.
  - intros H. apply filter_In in H. destruct H as [_ H].
    now rewrite String.eqb_refl in H.
  - now apply NoDup_filter.
Qed.

(* ================================================================= *)
(** ** The grouping reductions *)

Section GroupingFacts.
Context {X V : Type} (key : X -> string) (init : string -> V) (upd : X -> V -> V).

Lemma get_group_step_same (acc : JsObject.t V) (x : X) :
  JsObject.get (group_step key init upd acc x) (key x) =
  match JsObject.get acc (key x) with
  | Some v => Some (upd x v)
  | None => if JsObject.inherited (key x) then None else Some (upd x (init (key x)))
  end.
Proof.
  unfold group_step, JsObject.truthy.
  destruct (JsObject.get acc (key x)) eqn:E; simpl.
  - now rewrite get_modify_eq, E.
  - destruct (JsObject.inherited (key x)); simpl.
    + now rewrite get_modify_eq, E.
    + now rewrite get_modify_eq, get_set_eq.
Qed.

Lemma get_group_step_other (acc : JsObject.t V) (x : X) (k : string) :
  key x <> k -> JsObject.get (group_step key init upd acc x) k = JsObject.get acc k.
Proof.
  intros N. unfold group_step. rewrite get_modify_neq by exact N.
  destruct (negb (JsObject.truthy acc (key x))); [| reflexivity].
  now apply get_set_neq.
Qed.

Lemma keys_group_step (acc : JsObject.t V) (x : X) :
  JsObject.own_keys (group_step key init upd acc x) =
  if JsObject.truthy acc (key x) then JsObject.own_keys acc
  else (JsObject.own_keys acc ++ [key x])%list.
Proof.
  unfold group_step. rewrite keys_modify.
  unfold JsObject.truthy.
  destruct (JsObject.get acc (key x)) eqn:E; simpl; [reflexivity |].
  destruct (JsObject.inherited (key x)); simpl; [reflexivity |].
  now apply keys_set_fresh.
Qed.

Lemma get_group_fold (xs : list X) (acc : JsObject.t V) (k : string) :
  JsObject.get (fold_left (group_step key init upd) xs acc) k =
  match JsObject.get acc k with
  | Some v =>
      Some (fold_left (fun v x => upd x v) (filter (fun x => key x =? k)%string xs) v)
  | None =>
      if JsObject.inherited k then None
      else match filter (fun x => key x =? k)%string xs with
           | [] => None
           | _ :: _ => Some (group_value key init upd k xs)
           end
  end.
Proof.
  revert acc. induction xs as [| x xs IH]; intros acc; simpl.
  - destruct (JsObject.get acc k); [reflexivity |].
    now destruct (JsObject.inherited k).
  - rewrite IH. clear IH. unfold group_value. simpl.
    destruct (String.eqb_spec (key x) k) as [E | E].
    + subst k. rewrite get_group_step_same.
      destruct (JsObject.get acc (key x)); [reflexivity |].
      destruct (JsObject.inherited (key x)); reflexivity.
    + now rewrite get_group_step_other by exact E.
Qed.

Lemma keys_group_fold (xs : list X) (acc : JsObject.t V) :
  JsObject.own_keys (fold_left (group_step key init upd) xs acc) =
  (JsObject.own_keys acc ++ filter (absent (JsObject.own_keys acc)) (group_keys key xs))%list.
Proof.
  revert acc. induction xs as [| x xs IH]; intros acc.
  - simpl. now rewrite app_nil_r.
  - simpl fold_left. rewrite IH, keys_group_step. clear IH.
    unfold group_keys, JsObject.truthy. simpl map. simpl filter.
    destruct (JsObject.get acc (key x)) eqn:E.
    + (* the row exists already *)
      f_equal.
      assert (In (key x) (JsObject.own_keys acc)) as Hin.
      { apply get_In in E. apply (in_map fst) in E. exact E. }
      destruct (JsObject.inherited (key x)); simpl; [reflexivity |].
      apply absent_false_iff in Hin. rewrite Hin.
      rewrite filter_filter_and. apply filter_ext_in. intros k _.
      destruct (String.eqb_spec k (key x)) as [-> | _]; simpl; [now rewrite Hin | reflexivity].
    + destruct (JsObject.inherited (key x)); simpl; [reflexivity |].
      (* a new row is appended *)
      rewrite <- app_assoc. f_equal. simpl.
      assert (absent (JsObject.own_keys acc) (key x) = true) as Hab.
      { apply absent_true_iff. now apply get_None_keys. }
      rewrite Hab. f_equal.
      rewrite filter_filter_and. apply filter_ext. intros k.
      unfold absent. rewrite existsb_app. simpl. rewrite orb_false_r, negb_orb.
      apply andb_comm.
Qed.

Lemma entries_of_keys (o : JsObject.t V) (g : string -> V) :
  NoDup (JsObject.own_keys o) ->
  (forall k v, JsObject.get o k = Some v -> v = g k) ->
  o = map (fun k => (k, g k)) (JsObject.own_keys o).
Proof.
  induction o as [| [k v] o IH]; simpl; intros ND H; [reflexivity |].
  inversion ND as [| ? ? Hn ND']; subst.
  f_equal.
  - f_equal. apply H. now rewrite String.eqb_refl.
  - apply IH; [exact ND' |].
    intros k' v' G. apply H.
    destruct (String.eqb_spec k k') as [E | E]; [| exact G].
    subst k'. exfalso. apply Hn. apply get_In in G. apply (in_map fst) in G. exact G.
Qed.

(** The reduction builds one entry per key that occurs and does not
    resolve through the prototype, in order of first occurrence; the
    entry of a key is the fold of the updates of its elements. *)
Lemma group_fold_entries (xs : list X) :
  fold_left (group_step key init upd) xs JsObject.empty
  = map (fun k => (k, group_value key init upd k xs)) (group_keys key xs).
Proof.
  assert (K : JsObject.own_keys (fold_left (group_step key init upd) xs JsObject.empty) = group_keys key xs).
  { rewrite keys_group_fold. simpl. apply filter_all. reflexivity. }
  rewrite <- K. apply entries_of_keys.
  - rewrite K. apply NoDup_first_occurrences.
  - intros k v. rewrite get_group_fold. simpl.
    destruct (JsObject.inherited k); [discriminate |].
    destruct (filter (fun x => key x =? k)%string xs); [discriminate |].
    now intros [= <-].
Qed.

End GroupingFacts.

Lemma In_group_keys {X : Type} (key : X -> string) (xs : list X) (k : string) :
  In k (group_keys key xs) <-> JsObject.inherited k = false /\ In k (map key xs).
Proof.
  unfold group_keys. rewrite In_first_occurrences, filter_In, negb_true_iff. tauto.
Qed.

(* ================================================================= *)
(** ** [Object.values] *)

Section ValuesFacts.
Context {V : Type}.

Lemma insert_index_perm (e : N * V) (l : list (N * V)) :
  Permutation (JsObject.insert_index e l) (e :: l).
Proof.
  induction l as [| e' l IH]; simpl; [reflexivity |].
  destruct (fst e <? fst e')%N; [reflexivity |].
  rewrite IH. apply perm_swap.
Qed.

Lemma values_perm (o : JsObject.t V) : Permutation (JsObject.values o) (map snd o).
Proof.
  unfold JsObject.values.
  induction o as [| [k v] o IH]; simpl; [reflexivity |].
  unfold JsObject.is_array_index. simpl.
  destruct (JsObject.array_index k) as [n |]; simpl.
  - rewrite (Permutation_map snd (insert_index_perm (n, v) _)). simpl.
    now apply perm_skip.
  - rewrite <- Permutation_middle. now apply perm_skip.
Qed.

Lemma values_named (o : JsObject.t V) :
  (forall k, In k (JsObject.own_keys o) -> JsObject.is_array_index k = false) ->
  JsObject.values o = map snd o.
Proof.
  unfold JsObject.values.
  induction o as [| [k v] o IH]; simpl; intros H; [reflexivity |].
  assert (JsObject.is_array_index k = false) as E by (apply H; now left).
  unfold JsObject.is_array_index in E |- *. simpl.
  destruct (JsObject.array_index k); [discriminate |]. simpl.
  assert (JsObject.index_properties o = []) as I.
  { clear IH E. induction o as [| [k' v'] o IHo]; simpl; [reflexivity |].
    assert (JsObject.is_array_index k' = false) as E' by (apply H; right; now left).
    unfold JsObject.is_array_index in E'.
    destruct (JsObject.array_index k'); [discriminate |].
    apply IHo. intros k0 [-> | H0]; apply H; [now left | right; now right]. }
  rewrite I. simpl. f_equal.
  rewrite <- IH by (intros k0 H0; apply H; now right).
  now rewrite I.
Qed.



End ValuesFacts.

(* ================================================================= *)
(** ** [Array.prototype.sort] *)

Section ArraySortFacts.
Context {A : Type} (comparefn : A -> A -> Q).

Lemma sort_insert_perm (a : A) (l : list A) :
  Permutation (sort_insert comparefn a l) (a :: l).
Proof.
  induction l as [| b l IH]; simpl; [reflexivity |].
  destruct (Qle_bool (comparefn a b) 0); [reflexivity |].
  rewrite IH. apply perm_swap.
Qed.

Lemma Array_sort_perm (l : list A) : Permutation (Array_sort comparefn l) l.
Proof.
  induction l as [| a l IH]; simpl; [reflexivity |].
  rewrite sort_insert_perm. now apply perm_skip.
Qed.

(** Stability: elements that the comparator does not separate keep
    their relative order. *)
Lemma sort_insert_filter (P : A -> bool) (a : A) (l : list A) :
  (forall x y, P x = true -> P y = true -> comparefn x y <= 0) ->
  filter P (sort_insert comparefn a l) = filter P (a :: l).
Proof.
  intros HP. induction l as [| b l IH]; [reflexivity |].
  simpl sort_insert.
  destruct (Qle_bool (comparefn a b) 0) eqn:E; [reflexivity |].
  simpl in IH |- *. rewrite IH.
  destruct (P a) eqn:Pa, (P b) eqn:Pb; try reflexivity.
  exfalso. specialize (HP a b Pa Pb). apply Qle_bool_iff in HP. congruence.
Qed.

Lemma Array_sort_stable (P : A -> bool) (l : list A) :
  (forall x y, P x = true -> P y = true -> comparefn x y <= 0) ->
  filter P (Array_sort comparefn l) = filter P l.
Proof.
  intros HP. induction l as [| a l IH]; [reflexivity |].
  simpl Array_sort. rewrite sort_insert_filter by exact HP.
  simpl. now rewrite IH.
Qed.

Section Ordering.
Hypothesis comparefn_total : forall a b, ~ comparefn a b <= 0 -> comparefn b a <= 0.
Hypothesis comparefn_trans :
  forall a b c, comparefn a b <= 0 -> comparefn b c <= 0 -> comparefn a c <= 0.

Lemma sort_insert_sorted (a : A) (l : list A) :
  StronglySorted (fun x y => comparefn x y <= 0) l ->
  StronglySorted (fun x y => comparefn x y <= 0) (sort_insert comparefn a l).
Proof.
  induction 1 as [| b l S IH F]; simpl.
  - constructor; constructor.
  - destruct (Qle_bool (comparefn a b) 0) eqn:E.
    + apply Qle_bool_iff in E.
      constructor; [now constructor |].
      constructor; [exact E |].
      eapply Forall_impl; [| exact F].
      intros c Hc. now apply (comparefn_trans a b c).
    + assert (comparefn b a <= 0) as Hba.
      { apply comparefn_total. intros H. apply Qle_bool_iff in H. congruence. }
      constructor; [exact IH |].
      eapply Permutation_Forall; [symmetry; apply sort_insert_perm |].
      now constructor.
Qed.

Lemma Array_sort_sorted (l : list A) :
  StronglySorted (fun x y => comparefn x y <= 0) (Array_sort comparefn l).
Proof.
  induction l as [| a l IH]; simpl; [constructor |].
  now apply sort_insert_sorted.
Qed.
End Ordering.
End ArraySortFacts.

Lemma fold_left_ext {A B : Type} (f g : A -> B -> A) (l : list B) (a : A) :
  (forall a b, f a b = g a b) -> fold_left f l a = fold_left g l a.
Proof.
  intros E. revert a. induction l as [| b l IH]; intros a; simpl; [reflexivity |].
  now rewrite E, IH.
Qed.

(* ================================================================= *)
(** ** Team performance *)











Lemma StronglySorted_impl {A : Type} (R R' : A -> A -> Prop) (l : list A) :
  (forall a b, R a b -> R' a b) -> StronglySorted R l -> StronglySorted R' l.
Proof.
  intros HR. induction 1 as [| a l S IH F]; constructor; [exact IH |].
  eapply Forall_impl; [| exact F]. intros b. apply HR.
Qed.
















(* ================================================================= *)
(** ** Revenue trend *)

Lemma has_hyphen_app (a b : string) : has_hyphen (a ++ String "-" b) = true.
Proof.
  induction a as [| c a IH]; simpl; [reflexivity |].
  rewrite IH. apply orb_true_r.
Qed.


















(* ================================================================= *)
(** ** Conversion by source *)

Lemma Qfloor_unique (x : Q) (z : Z) :
  inject_Z z <= x -> x < inject_Z (z + 1) -> Qfloor x = z.
Proof.
  intros L U.
  assert (z <= Qfloor x)%Z as H1.
  { rewrite <- (Qfloor_Z z). now apply Qfloor_resp_le. }
  assert (Qfloor x < z + 1)%Z as H2.
  { rewrite Zlt_Qlt. eapply Qle_lt_trans; [apply Qfloor_le | exact U]. }
  lia.
Qed.

(** The digits [toFixed(1)] prints are those of rounding half up. *)
Lemma toFixed1_digits_round (x : Q) : toFixed1_digits x = Qfloor (x * 10 + (1 # 2)).
Proof.
  unfold toFixed1_digits.
  pose proof (Qfloor_le (x * 10)) as L.
  pose proof (Qlt_floor (x * 10)) as U.
  set (lo := Qfloor (x * 10)) in *.
  rewrite inject_Z_plus in U. change (inject_Z 1) with 1 in U.
  destruct (Qle_bool (inject_Z (lo + 1) / 10 - x) (x - inject_Z lo / 10)) eqn:E.
  - apply Qle_bool_iff in E. rewrite inject_Z_plus in E. change (inject_Z 1) with 1 in E.
    symmetry. apply Qfloor_unique.
    + rewrite inject_Z_plus. change (inject_Z 1) with 1.
      assert ((inject_Z lo + 1) / 10 - x == (inject_Z lo + 1 - x * 10) / 10) as E1 by field.
      assert (x - inject_Z lo / 10 == (x * 10 - inject_Z lo) / 10) as E2 by field.
      rewrite E1, E2 in E. clear E1 E2.
      unfold Qdiv in E. apply Qmult_le_r in E; [lra | reflexivity].
    + rewrite !inject_Z_plus. change (inject_Z 1) with 1. lra.
  - assert (~ (inject_Z (lo + 1) / 10 - x <= x - inject_Z lo / 10)) as N.
    { intros H. apply Qle_bool_iff in H. congruence. }
    rewrite inject_Z_plus in N. change (inject_Z 1) with 1 in N.
    symmetry. apply Qfloor_unique.
    + lra.
    + rewrite inject_Z_plus. change (inject_Z 1) with 1.
      apply Qnot_le_lt in N.
      assert ((inject_Z lo + 1) / 10 - x == (inject_Z lo + 1 - x * 10) / 10) as E1 by field.
      assert (x - inject_Z lo / 10 == (x * 10 - inject_Z lo) / 10) as E2 by field.
      rewrite E1, E2 in N. clear E1 E2.
      unfold Qdiv in N. apply Qmult_lt_r in N; [lra | reflexivity].
Qed.

(** Below [10^21], [x.toFixed(1)] is [x] rounded to one decimal place,
    half away from zero. *)
Lemma toFixed1_round (x : Q) :
  Qabs x < inject_Z (10 ^ 21) -> toFixed1 x = round_half_away_1dp x.
Proof.
  intros H. unfold toFixed1, round_half_away_1dp.
  destruct (Qle_bool (inject_Z (10 ^ 21)) (Qabs x)) eqn:E.
  - apply Qle_bool_iff in E. exfalso. apply (Qlt_not_le _ _ H E).
  - now rewrite !toFixed1_digits_round.
Qed.

Lemma Qfloor_half_close (y : Q) :
  inject_Z (Qfloor (y + (1 # 2))) - (1 # 2) <= y
  /\ y < inject_Z (Qfloor (y + (1 # 2))) + (1 # 2).
Proof.
  pose proof (Qfloor_le (y + (1 # 2))) as L.
  pose proof (Qlt_floor (y + (1 # 2))) as U.
  rewrite inject_Z_plus in U. change (inject_Z 1) with 1 in U.
  split; lra.
Qed.

Lemma sourceStats_step_group (acc : JsObject.t SourceStat.t) (lead : Lead.t) :
  sourceStats_step acc lead = group_step Lead.source source_init source_upd acc lead.
Proof.
  unfold sourceStats_step, group_step.
  fold (source_init (Lead.source lead)). fold (isWon lead).
  destruct (isWon lead) eqn:W; rewrite ?modify_modify; apply modify_ext; intros row;
    unfold source_upd; rewrite W; reflexivity.
Qed.

Lemma sourceStats_entries (leads : list Lead.t) :
  sourceStats leads
  = map (fun k => (k, group_value Lead.source source_init source_upd k leads))
      (group_keys Lead.source leads).
Proof.
  unfold sourceStats.
  rewrite (fold_left_ext _ _ leads JsObject.empty sourceStats_step_group).
  apply group_fold_entries.
Qed.

Lemma source_fold_fields (ls : list Lead.t) (st : SourceStat.t) :
  let r := fold_left (fun v x => source_upd x v) ls st in
  SourceStat.name r = SourceStat.name st
  /\ SourceStat.total r = (SourceStat.total st + List.length ls)%nat
  /\ SourceStat.won r = (SourceStat.won st + List.length (filter isWon ls))%nat.
Proof.
  revert st. induction ls as [| lead ls IH]; intros st; simpl.
  - repeat split; lia.
  - destruct (IH (source_upd lead st)) as (Hn & Ht & Hw). clear IH.
    repeat split.
    + exact Hn.
    + rewrite Ht. simpl. lia.
    + rewrite Hw. simpl. destruct (isWon lead); simpl; lia.
Qed.

Lemma source_stat_fields (k : string) (leads : list Lead.t) :
  let r := group_value Lead.source source_init source_upd k leads in
  SourceStat.name r = k
  /\ SourceStat.total r = List.length (fromSource k leads)
  /\ SourceStat.won r = List.length (filter isWon (fromSource k leads)).
Proof.
  unfold group_value. fold (fromSource k leads).
  destruct (source_fold_fields (fromSource k leads) (source_init k)) as (Hn & Ht & Hw).
  repeat split; [exact Hn | exact Ht | exact Hw].
Qed.

Lemma sourceConversionData_names (leads : list Lead.t) :
  Permutation (map SourceRow.name (sourceConversionData leads))
    (group_keys Lead.source leads).
Proof.
  unfold sourceConversionData. rewrite map_map. simpl.
  rewrite (Permutation_map SourceStat.name (values_perm (sourceStats leads))).
  rewrite sourceStats_entries, !map_map. simpl.
  erewrite map_ext; [rewrite map_id; reflexivity |].
  intros k. apply (source_stat_fields k leads).
Qed.

Lemma fromSource_nonempty (s : string) (leads : list Lead.t) :
  In s (map Lead.source leads) -> (0 < List.length (fromSource s leads))%nat.
Proof.
  intros H. apply in_map_iff in H. destruct H as [lead [E Hin]].
  assert (In lead (fromSource s leads)) as Hf.
  { unfold fromSource. apply filter_In. split; [exact Hin |]. now apply String.eqb_eq. }
  destruct (fromSource s leads); [contradiction | simpl; lia].
Qed.

(** A share of a non-empty whole, as a percentage, lies between 0 and 100. *)
Lemma percentage_bounds (w t : nat) :
  (w <= t)%nat -> (0 < t)%nat ->
  0 <= (Q_of_nat w / Q_of_nat t) * 100 /\ (Q_of_nat w / Q_of_nat t) * 100 <= 100.
Proof.
  intros Hw Ht. unfold Q_of_nat.
  assert (0 < inject_Z (Z.of_nat t)) as Tpos.
  { change 0 with (inject_Z 0). rewrite <- Zlt_Qlt. lia. }
  assert (0 <= inject_Z (Z.of_nat w)) as Wpos.
  { change 0 with (inject_Z 0). rewrite <- Zle_Qle. lia. }
  assert (inject_Z (Z.of_nat w) <= inject_Z (Z.of_nat t)) as WT.
  { rewrite <- Zle_Qle. lia. }
  assert (0 <= inject_Z (Z.of_nat w) / inject_Z (Z.of_nat t)) as A.
  { apply Qle_shift_div_l; [exact Tpos | lra]. }
  assert (inject_Z (Z.of_nat w) / inject_Z (Z.of_nat t) <= 1) as B.
  { apply Qle_shift_div_r; [exact Tpos | lra]. }
  split; lra.
Qed.

Lemma percentage_facts :
  0 <= half_ulp /\ 0 <= half_min
  /\ 100 * half_ulp * (1 + half_ulp + half_min) + half_min + 100 * (half_ulp + half_min)
     <= 2 ^ (-45).
Proof. vm_compute. repeat split; discriminate. Qed.

(** The computed percentage is within [2^-45] of the exact one. *)
Lemma percentage_close (w t : nat) :
  (w <= t)%nat -> (0 < t)%nat ->
  0 <= percentage w t
  /\ Qabs (percentage w t - (Q_of_nat w / Q_of_nat t) * 100) <= 2 ^ (-45).
Proof.
  intros Hw Ht.
  destruct (percentage_bounds w t Hw Ht) as [L U].
  unfold percentage, Number_mul, Number_div.
  set (x := Q_of_nat w / Q_of_nat t) in *.
  assert (0 <= x) as X0 by lra. assert (x <= 1) as X1 by lra.
  pose proof (binary64_nonneg x X0) as Q0.
  pose proof (binary64_error x) as E1.
  rewrite (Qabs_pos x X0) in E1.
  set (q := binary64 x) in *.
  assert (0 <= q * 100) as QH by lra.
  pose proof (binary64_nonneg (q * 100) QH) as R0.
  pose proof (binary64_error (q * 100)) as E2.
  rewrite (Qabs_pos (q * 100) QH) in E2.
  split; [exact R0 |].
  apply Qabs_Qle_condition in E1. apply Qabs_Qle_condition in E2.
  apply Qabs_Qle_condition.
  destruct percentage_facts as (U0 & M0 & F).
  set (r := binary64 (q * 100)) in *.
  set (u := half_ulp) in *. set (h := half_min) in *. set (B := 2 ^ (-45)) in *.
  assert (u * x <= u) as S1 by nra.
  assert (q <= 1 + u + h) as S2 by lra.
  assert (u * (q * 100) <= 100 * u * (1 + u + h)) as S3 by nra.
  split; lra.
Qed.

Ltac push_inject_Z :=
  unfold Z.sub;
  repeat (rewrite inject_Z_plus || rewrite inject_Z_mult || rewrite inject_Z_opp);
  change (inject_Z 1) with 1; change (inject_Z 2) with 2.

(** A fraction over [t] and a half-integer that differ, differ by at
    least [1 / (2 t)]. *)
Lemma half_integer_gap (m W T : Z) :
  (0 < T)%Z ->
  (inject_Z m / 2 < inject_Z W / inject_Z T ->
   inject_Z m / 2 + 1 / (2 * inject_Z T) <= inject_Z W / inject_Z T)
  /\ (inject_Z W / inject_Z T < inject_Z m / 2 ->
      inject_Z W / inject_Z T + 1 / (2 * inject_Z T) <= inject_Z m / 2).
Proof.
  intros HT.
  assert (0 < inject_Z T) as Tpos.
  { change 0 with (inject_Z 0). now rewrite <- Zlt_Qlt. }
  assert (forall a b : Z, inject_Z a / 2 + 1 / (2 * inject_Z T) - inject_Z b / inject_Z T
            == inject_Z (a * T + 1 - 2 * b) / (2 * inject_Z T)) as E1.
  { intros a b. push_inject_Z. field. lra. }
  assert (forall a b : Z, inject_Z b / inject_Z T + 1 / (2 * inject_Z T) - inject_Z a / 2
            == inject_Z (2 * b + 1 - a * T) / (2 * inject_Z T)) as E2.
  { intros a b. push_inject_Z. field. lra. }
  assert (forall a b : Z, inject_Z a / 2 - inject_Z b / inject_Z T
            == inject_Z (a * T - 2 * b) / (2 * inject_Z T)) as E3.
  { intros a b. push_inject_Z. field. lra. }
  assert (forall z : Z, inject_Z z / (2 * inject_Z T) < 0 -> (z < 0)%Z) as Neg.
  { intros z H. rewrite Zlt_Qlt. change (inject_Z 0) with 0.
    assert (inject_Z z == inject_Z z / (2 * inject_Z T) * (2 * inject_Z T)) as E
      by (field; lra).
    set (y := inject_Z z / (2 * inject_Z T)) in *. nra. }
  assert (forall z : Z, (z <= 0)%Z -> inject_Z z / (2 * inject_Z T) <= 0) as Le0.
  { intros z H. apply Qle_shift_div_r; [lra |].
    rewrite Zle_Qle in H. change (inject_Z 0) with 0 in H. lra. }
  split; intros H.
  - assert (inject_Z m / 2 - inject_Z W / inject_Z T < 0) as H' by lra.
    rewrite E3 in H'. apply Neg in H'.
    assert (inject_Z m / 2 + 1 / (2 * inject_Z T) - inject_Z W / inject_Z T <= 0) as G.
    { rewrite E1. apply Le0. lia. }
    lra.
  - assert (inject_Z m / 2 - inject_Z W / inject_Z T
            == - (inject_Z (2 * W - m * T) / (2 * inject_Z T))) as E4.
    { rewrite E3. push_inject_Z. field. lra. }
    assert (inject_Z (2 * W - m * T) / (2 * inject_Z T) < 0) as H' by lra.
    apply Neg in H'.
    assert (inject_Z W / inject_Z T + 1 / (2 * inject_Z T) - inject_Z m / 2 <= 0) as G.
    { rewrite E2. apply Le0. lia. }
    lra.
Qed.

(** What [toFixed(1)] prints for a computed percentage is a percentage
    with one decimal. *)
Lemma toFixed1_percentage_digits (w t : nat) :
  (w <= t)%nat -> (0 < t)%nat ->
  let n := Qfloor (percentage w t * 10 + (1 # 2)) in
  toFixed1 (percentage w t) = inject_Z n / 10 /\ (0 <= n <= 1000)%Z.
Proof.
  intros Hw Ht n.
  destruct (percentage_bounds w t Hw Ht) as [L U].
  destruct (percentage_close w t Hw Ht) as [R0 C].
  set (x := Q_of_nat w / Q_of_nat t * 100) in *.
  set (r := percentage w t) in *.
  apply Qabs_Qle_condition in C.
  assert (2 ^ (-45) <= 1) as Small by (vm_compute; discriminate).
  split.
  - unfold toFixed1.
    assert (Qle_bool (inject_Z (10 ^ 21)) (Qabs r) = false) as ->.
    { destruct (Qle_bool (inject_Z (10 ^ 21)) (Qabs r)) eqn:T; [| reflexivity].
      apply Qle_bool_iff in T. rewrite (Qabs_pos r R0) in T.
      assert (inject_Z (10 ^ 21) == 1000000000000000000000) as E by reflexivity.
      rewrite E in T. lra. }
    assert (Qle_bool 0 r = true) as -> by now apply Qle_bool_iff.
    now rewrite toFixed1_digits_round.
  - assert (2 ^ (-45) <= 1 # 100) as Tiny by (vm_compute; discriminate).
    split.
    + change 0%Z with (Qfloor 0). apply Qfloor_resp_le. lra.
    + assert (Qfloor (r * 10 + (1 # 2)) < 1001)%Z; [| lia].
      rewrite Zlt_Qlt. eapply Qle_lt_trans; [apply Qfloor_le |].
      change (inject_Z 1001) with 1001. lra.
Qed.

Lemma printed_percentage_bounds (w t : nat) :
  (w <= t)%nat -> (0 < t)%nat ->
  let printed := toFixed1 (percentage w t) in
  (0 <= printed /\ printed <= 100)
  /\ (0 <= binary64 printed /\ binary64 printed <= 100).
Proof.
  intros Hw Ht printed.
  destruct (toFixed1_percentage_digits w t Hw Ht) as [E [N0 N1]].
  fold printed in E.
  set (n := Qfloor (percentage w t * 10 + (1 # 2))) in *.
  assert (0 <= printed /\ printed <= 100) as [P0 P1].
  { rewrite E.
    assert (inject_Z n / 10 == inject_Z n * (1 # 10)) as -> by field.
    rewrite Zle_Qle in N0, N1.
    change (inject_Z 0) with 0 in N0. change (inject_Z 1000) with 1000 in N1.
    split; lra. }
  split; [now split |].
  split; [now apply binary64_nonneg |].
  assert (binary64 100 == 100) as <- by (vm_compute; reflexivity).
  now apply binary64_mono.
Qed.

(** For a total that an array can reach, that gap is wider than the
    rounding error of the percentage. *)
Lemma array_length_gap (t : nat) :
  (0 < t)%nat -> (Z.of_nat t < 2 ^ 32)%Z ->
  10 * 2 ^ (-45) < 1 / (2 * Q_of_nat t).
Proof.
  intros Ht Hb. unfold Q_of_nat.
  assert (0 < inject_Z (Z.of_nat t)) as Tpos.
  { change 0 with (inject_Z 0). rewrite <- Zlt_Qlt. lia. }
  assert (inject_Z (Z.of_nat t) < inject_Z (2 ^ 32)) as Tb by now rewrite <- Zlt_Qlt.
  apply Qlt_shift_div_l; [lra |].
  assert (10 * 2 ^ (-45) * inject_Z (2 ^ 32) < (1 # 2)) as C by reflexivity.
  set (T := inject_Z (Z.of_nat t)) in *. set (c := 10 * 2 ^ (-45)) in *.
  assert (0 < c) by reflexivity.
  set (M := inject_Z (2 ^ 32)) in *.
  nra.
Qed.

(** What [toFixed(1)] prints for a computed percentage: [n / 10] for an
    integer [n] within one half of ten times the exact percentage. *)
Lemma toFixed1_percentage (w t : nat) :
  (w <= t)%nat -> (0 < t)%nat -> (Z.of_nat t < 2 ^ 32)%Z ->
  let x := (Q_of_nat w / Q_of_nat t) * 100 in
  let n := Qfloor (percentage w t * 10 + (1 # 2)) in
  toFixed1 (percentage w t) = inject_Z n / 10
  /\ inject_Z n - (1 # 2) <= x * 10 <= inject_Z n + (1 # 2).
Proof.
  intros Hw Ht Hb x n.
  destruct (percentage_close w t Hw Ht) as [R0 C]. fold x in C.
  pose proof (array_length_gap t Ht Hb) as G.
  split; [apply (toFixed1_percentage_digits w t Hw Ht) |].
  set (r := percentage w t) in *.
  apply Qabs_Qle_condition in C.
  destruct (Qfloor_half_close (r * 10)) as [FL FU]. fold n in FL, FU.
  assert (0 < Z.of_nat t)%Z as Tz by lia.
  destruct (half_integer_gap (2 * n + 1) (1000 * Z.of_nat w) (Z.of_nat t) Tz) as [Up _].
  destruct (half_integer_gap (2 * n - 1) (1000 * Z.of_nat w) (Z.of_nat t) Tz) as [_ Lo].
  assert (0 < Q_of_nat t) as Tpos.
  { unfold Q_of_nat. change 0 with (inject_Z 0). rewrite <- Zlt_Qlt. lia. }
  assert (inject_Z (1000 * Z.of_nat w) / inject_Z (Z.of_nat t) == x * 10) as EX.
  { unfold x, Q_of_nat in *. rewrite inject_Z_mult.
    change (inject_Z 1000) with 1000. field. lra. }
  assert (inject_Z (2 * n + 1) / 2 == inject_Z n + (1 # 2)) as EU.
  { push_inject_Z. field. }
  assert (inject_Z (2 * n - 1) / 2 == inject_Z n - (1 # 2)) as EL.
  { push_inject_Z. field. }
  rewrite EX, EU in Up. rewrite EX, EL in Lo.
  fold (Q_of_nat t) in Up, Lo.
  set (g := 1 / (2 * Q_of_nat t)) in *. set (c := 2 ^ (-45)) in *.
  set (N := inject_Z n) in *.
  split.
  - destruct (Qlt_le_dec (x * 10) (N - (1 # 2))) as [H | H]; [| exact H].
    specialize (Lo H). lra.
  - destruct (Qlt_le_dec (N + (1 # 2)) (x * 10)) as [H | H]; [| exact H].
    specialize (Up H). lra.
Qed.

(** The printed percentage against the exact one: a percentage again,
    within 0.05 of the exact one, and the exact one rounded half away
    from zero unless that lies halfway between two printable values,
    where the printed one may be the lower neighbour. *)
Lemma printed_percentage (w t : nat) :
  (w <= t)%nat -> (0 < t)%nat -> (Z.of_nat t < 2 ^ 32)%Z ->
  let x := (Q_of_nat w / Q_of_nat t) * 100 in
  let printed := toFixed1 (percentage w t) in
  Qabs (printed - x) <= 1 # 20
  /\ (halfway_1dp x = false -> printed = round_half_away_1dp x)
  /\ (printed = round_half_away_1dp x \/ printed == round_half_away_1dp x - (1 # 10)).
Proof.
  intros Hw Ht Hb x printed.
  destruct (percentage_bounds w t Hw Ht) as [L U]. fold x in L, U.
  destruct (toFixed1_percentage w t Hw Ht Hb) as [E [NL NU]]. fold x in NL, NU.
  fold printed in E. rewrite E. clear E printed.
  set (n := Qfloor (percentage w t * 10 + (1 # 2))) in *.
  assert (forall z : Z, inject_Z z / 10 == inject_Z z * (1 # 10)) as Tenth
    by (intros z; field).
  assert (round_half_away_1dp x = inject_Z (Qfloor (x * 10 + (1 # 2))) / 10) as R.
  { unfold round_half_away_1dp.
    assert (Qle_bool 0 x = true) as -> by now apply Qle_bool_iff.
    reflexivity. }
  assert (halfway_1dp x = false -> Qfloor (x * 10 + (1 # 2)) = n) as NotHalf.
  { unfold halfway_1dp. intros H.
    pose proof (Qfloor_le (x * 10 + (1 # 2))) as FL.
    assert (~ inject_Z (Qfloor (x * 10 + (1 # 2))) == x * 10 + (1 # 2)) as Ne.
    { intros Hq. apply Qeq_bool_iff in Hq. congruence. }
    apply Qfloor_unique.
    - lra.
    - rewrite inject_Z_plus. change (inject_Z 1) with 1.
      destruct (Qlt_le_dec (x * 10 + (1 # 2)) (inject_Z n + 1)) as [Lt | Ge]; [exact Lt |].
      exfalso. apply Ne.
      assert (x * 10 + (1 # 2) == inject_Z (n + 1)) as Hq.
      { rewrite inject_Z_plus. change (inject_Z 1) with 1. lra. }
      rewrite (Qfloor_comp _ _ Hq), Qfloor_Z. symmetry. exact Hq. }
  assert (Qfloor (x * 10 + (1 # 2)) = n \/ Qfloor (x * 10 + (1 # 2)) = (n + 1)%Z) as Near.
  { assert (n <= Qfloor (x * 10 + (1 # 2)))%Z as A.
    { rewrite <- (Qfloor_Z n). apply Qfloor_resp_le. lra. }
    assert (Qfloor (x * 10 + (1 # 2)) <= n + 1)%Z as B.
    { rewrite <- (Qfloor_Z (n + 1)). apply Qfloor_resp_le.
      rewrite inject_Z_plus. change (inject_Z 1) with 1. lra. }
    lia. }
  split; [| split].
  - apply Qabs_Qle_condition. rewrite Tenth. split; lra.
  - intros H. rewrite R, (NotHalf H). reflexivity.
  - rewrite R. destruct Near as [-> | ->]; [now left | right].
    rewrite inject_Z_plus. change (inject_Z 1) with 1. field.
Qed.

Lemma source_row_in_data (leads : list Lead.t) (row : SourceRow.t) :
  In row (sourceConversionData leads) ->
  In (SourceRow.name row) (map Lead.source leads)
  /\ SourceRow.total row = List.length (fromSource (SourceRow.name row) leads)
  /\ SourceRow.rate row
     = Number_toFixed1
         (percentage (List.length (filter isWon (fromSource (SourceRow.name row) leads)))
            (SourceRow.total row)).
Proof.
  unfold sourceConversionData. intros H.
  apply in_map_iff in H. destruct H as [st [<- H]].
  apply (Permutation_in _ (values_perm (sourceStats leads))) in H.
  rewrite sourceStats_entries, map_map in H. simpl in H.
  apply in_map_iff in H. destruct H as [k [<- Hk]].
  apply In_group_keys in Hk. destruct Hk as [_ Hk].
  destruct (source_stat_fields k leads) as (Hn & Ht & Hw).
  cbn [SourceRow.name SourceRow.total SourceRow.rate]. rewrite Hn, Ht, Hw.
  pose proof (fromSource_nonempty k leads Hk) as Pos.
  repeat split; [exact Hk |].
  destruct (Nat.ltb_spec 0 (List.length (fromSource k leads))) as [_ | N]; [| lia].
  reflexivity.
Qed.

Lemma Source_members_not_inherited (s : string) :
  In s Source.members -> JsObject.inherited s = false.
Proof.
  simpl. intros H. repeat (destruct H as [<- | H]; [reflexivity |]). contradiction.
Qed.

(** C7 (as amended). The conversion table has exactly one row per source
    that occurs among the leads: rows have pairwise distinct sources,
    every row belongs to a source with at least one lead, and every source
    that occurs has its row (the sources of the enum, and any other string
    that is not a name inherited from [Object.prototype]).  The row's
    total is the number of leads of the source.  Its rate is
    (won / total) * 100 computed in binary64, printed with one decimal
    and read back as a number.  For a source with fewer than 2^32 leads
    the printed decimal is within 0.05 of the exact percentage; it is the
    exact percentage rounded half away from zero, unless the exact
    percentage lies halfway between two one-decimal values, where it may
    be the lower neighbour instead.  Three leads from Website with one Won
    give rate 33.3 and total 3. *)
Theorem sourceConversionData_rows (leads : list Lead.t) :
  NoDup (map SourceRow.name (sourceConversionData leads))
  /\ (forall row, In row (sourceConversionData leads) ->
        let won := List.length (filter isWon (fromSource (SourceRow.name row) leads)) in
        let exact := (Q_of_nat won / Q_of_nat (SourceRow.total row)) * 100 in
        let printed := toFixed1 (percentage won (SourceRow.total row)) in
        In (SourceRow.name row) (map Lead.source leads)
        /\ (0 < SourceRow.total row)%nat
        /\ SourceRow.total row = List.length (fromSource (SourceRow.name row) leads)
        /\ SourceRow.rate row = binary64 printed
        /\ ((Z.of_nat (SourceRow.total row) < 2 ^ 32)%Z ->
            Qabs (printed - exact) <= 1 # 20
            /\ (halfway_1dp exact = false -> printed = round_half_away_1dp exact)
            /\ (printed = round_half_away_1dp exact
                \/ printed == round_half_away_1dp exact - (1 # 10))))
  /\ (forall lead, In lead leads ->
        In (Lead.source lead) Source.members \/ JsObject.inherited (Lead.source lead) = false ->
        exists row, In row (sourceConversionData leads)
                    /\ SourceRow.name row = Lead.source lead)
  /\ (List.length (fromSource Source.Website leads) = 3%nat ->
      List.length (filter isWon (fromSource Source.Website leads)) = 1%nat ->
      exists row, In row (sourceConversionData leads)
                  /\ SourceRow.name row = Source.Website
                  /\ SourceRow.rate row == binary64 (333 # 10)
                  /\ SourceRow.total row = 3%nat).
Proof.
  assert (Has : forall s, In s (map Lead.source leads) -> JsObject.inherited s = false ->
                exists row, In row (sourceConversionData leads) /\ SourceRow.name row = s).
  { intros s Hs Hp.
    assert (In s (map SourceRow.name (sourceConversionData leads))) as H.
    { apply (Permutation_in _ (Permutation_sym (sourceConversionData_names leads))).
      apply In_group_keys. now split. }
    apply in_map_iff in H. destruct H as [row [E H]]. now exists row. }
  split; [| split; [| split]].
  - apply (Permutation_NoDup (Permutation_sym (sourceConversionData_names leads))).
    apply NoDup_first_occurrences.
  - intros row H won exact printed.
    destruct (source_row_in_data leads row H) as (Hs & Ht & Hr).
    pose proof (fromSource_nonempty _ leads Hs) as Pos. rewrite <- Ht in Pos.
    split; [exact Hs |]. split; [exact Pos |]. split; [exact Ht |].
    split; [exact Hr |].
    intros Hb.
    assert (won <= SourceRow.total row)%nat as Hw.
    { subst won. rewrite Ht. apply filter_length_le. }
    destruct (printed_percentage won (SourceRow.total row) Hw Pos Hb) as (C & N & T).
    repeat split; assumption.
  - intros lead Hin Hs. apply Has; [now apply in_map |].
    destruct Hs as [Hs | Hs]; [now apply Source_members_not_inherited | exact Hs].
  - intros H3 H1.
    assert (In Source.Website (map Lead.source leads)) as Hin.
    { destruct (fromSource Source.Website leads) as [| lead rest] eqn:E; [discriminate H3 |].
      assert (In lead (fromSource Source.Website leads)) as Hl by (rewrite E; now left).
      unfold fromSource in Hl. apply filter_In in Hl. destruct Hl as [Hl Hs].
      apply String.eqb_eq in Hs. rewrite <- Hs. now apply in_map. }
    destruct (Has Source.Website Hin eq_refl) as [row [Hrow Hname]].
    exists row. destruct (source_row_in_data leads row Hrow) as (_ & Ht & Hr).
    rewrite Hname in Ht, Hr. rewrite H3 in Ht. rewrite Ht, H1 in Hr.
    repeat split; [exact Hrow | exact Hname | | exact Ht].
    rewrite Hr. vm_compute. reflexivity.
Qed.

Lemma sourceConversionData_rows_witness :
  (exists row, In row (sourceConversionData threeFromWebsite)
               /\ SourceRow.name row = Source.Website
               /\ SourceRow.rate row == binary64 (333 # 10)
               /\ SourceRow.total row = 3%nat)
  /\ (forall row, In row (sourceConversionData twentyThreeOfEighty) ->
        Qabs (toFixed1 (percentage 23 80) - (Q_of_nat 23 / Q_of_nat 80) * 100) <= 1 # 20).
Proof.
  split.
  - destruct (sourceConversionData_rows threeFromWebsite) as (_ & _ & _ & H).
    apply H; reflexivity.
  - intros row Hrow.
    destruct (sourceConversionData_rows twentyThreeOfEighty) as (_ & H & _).
    specialize (H row Hrow). cbv zeta in H.
    destruct H as (_ & _ & Ht & _ & H).
    assert (SourceRow.name row = Source.Website /\ SourceRow.total row = 80%nat) as [Hn Ht'].
    { vm_compute in Hrow. destruct Hrow as [<- | []]. split; reflexivity. }
    rewrite Hn, Ht' in H.
    destruct H as (C & _); [reflexivity |].
    exact C.
Defined.

(** With 23 of 80 leads won the exact percentage is 28.75, halfway
    between 28.7 and 28.8.  The computed percentage is
    28.749999999999996, so the rate is 28.7 and not 28.8. *)
Lemma rate_rounds_half_away_fails :
  percentage 23 80 == 8092405580431359 # 281474976710656
  /\ map (fun row => (SourceRow.name row, SourceRow.total row))
       (sourceConversionData twentyThreeOfEighty) = [(Source.Website, 80%nat)]
  /\ (forall row, In row (sourceConversionData twentyThreeOfEighty) ->
        SourceRow.rate row == binary64 (287 # 10))
  /\ winRatePercent Source.Website twentyThreeOfEighty == 288 # 10
  /\ ~ rate_rounds_half_away twentyThreeOfEighty.
Proof.
  assert (R : forall row, In row (sourceConversionData twentyThreeOfEighty) ->
                SourceRow.rate row == binary64 (287 # 10)).
  { intros row H. vm_compute in H. destruct H as [<- | []]. vm_compute. reflexivity. }
  split; [vm_compute; reflexivity |].
  split; [vm_compute; reflexivity |].
  split; [exact R |].
  split; [vm_compute; reflexivity |].
  intros H.
  assert (exists row, In row (sourceConversionData twentyThreeOfEighty)) as [row Hrow].
  { eexists. vm_compute. left. reflexivity. }
  specialize (H row Hrow). rewrite (R row Hrow) in H.
  assert (SourceRow.name row = Source.Website) as Hn.
  { vm_compute in Hrow. destruct Hrow as [<- | []]. reflexivity. }
  rewrite Hn in H. vm_compute in H. discriminate H.
Qed.

(* ================================================================= *)
(** ** The rules at concrete inputs *)

Lemma stage_transition_table_witness :
  let lead := sampleLead "a@x.com" Source.Website Stage.New Status.Open 10 1000 100 march2024 in
  Lead.expectedValue (updatedLead lead Stage.Proposal) == 700
  /\ Lead.expectedValue (updatedLead lead Stage.Won) == 1000
  /\ Lead.expectedValue (updatedLead lead Stage.Lost) == 0.
Proof.
  intros lead.
  pose proof (stage_transition_table lead Stage.Proposal) as P.
  pose proof (stage_transition_table lead Stage.Won) as W.
  pose proof (stage_transition_table lead Stage.Lost) as L.
  cbv zeta in P, W, L.
  destruct P as (_ & _ & _ & _ & _ & _ & P).
  destruct W as (_ & _ & _ & _ & _ & _ & W).
  destruct L as (_ & _ & _ & _ & _ & _ & L).
  split; [apply P; reflexivity |].
  split; [apply W; reflexivity | apply L; reflexivity].
Defined.

Lemma calculateLeadScore_rules_witness :
  ScoreRules.vol
    [sampleActivity ActivityOutcome.Interested; sampleActivity ActivityOutcome.NoResponse;
     sampleActivity ActivityOutcome.NotInterested; sampleActivity ActivityOutcome.NoResponse]
  = 10%Z.
Proof.
  pose proof (calculateLeadScore_rules (scoringLead Source.Referral BudgetRange.Above10L)
    [sampleActivity ActivityOutcome.Interested; sampleActivity ActivityOutcome.NoResponse;
     sampleActivity ActivityOutcome.NotInterested; sampleActivity ActivityOutcome.NoResponse])
    as H.
  do 18 (destruct H as [_ H]). destruct H as [H _].
  apply H. simpl. lia.
Defined.

(* ################################################################# *)
(** * Further properties of the pages and services *)

(* ================================================================= *)
(** ** Scores above the hot threshold *)

Lemma calculateLeadScore_bounds_80 (L : Lead.t) (A : list Activity.t) :
  (0 <= calculateLeadScore L A <= 80)%Z.
Proof. rewrite score_as_sum. pose proof (ScoreRules_bounds L A). lia. Qed.

(** X1. A computed score exceeds the hot threshold of 70 only at its maximum,
    80: the lead must come from a referral, be in the top budget range,
    have an interested most recent activity and more than three
    activities. *)
Theorem hot_score_iff (L : Lead.t) (A : list Activity.t) :
  ((70 < calculateLeadScore L A)%Z <->
     Lead.source L = Source.Referral
     /\ Lead.budgetRange L = BudgetRange.Above10L
     /\ (exists mostRecent rest,
           A = mostRecent :: rest
           /\ Activity.outcome mostRecent = ActivityOutcome.Interested)
     /\ (3 < List.length A)%nat)
  /\ ((70 < calculateLeadScore L A)%Z -> calculateLeadScore L A = 80%Z).
Proof.
  rewrite score_as_sum.
  unfold ScoreRules.src, ScoreRules.bud, ScoreRules.eng, ScoreRules.vol.
  destruct (String.eqb_spec (Lead.source L) Source.Referral) as [S | S];
    destruct (String.eqb_spec (Lead.budgetRange L) BudgetRange.Above10L) as [B | B];
    destruct (Nat.ltb_spec 3 (List.length A)) as [V | V];
    destruct A as [| a rest];
    try destruct (String.eqb_spec (Activity.outcome a) ActivityOutcome.Interested) as [E | E];
    repeat match goal with
      | |- context [if ?c then _ else _] => destruct c
      end;
    (split; [split |]);
    try (intros; lia);
    try (intros (? & ? & (? & ? & ? & ?) & ?); congruence || discriminate || lia);
    try (intros _; repeat split; try assumption; try (eexists; eexists; split; [reflexivity | assumption])).
Qed.

(* ================================================================= *)
(** ** Logging an activity and reassigning a lead *)

(** X2. Logging an activity needs a loaded lead, a signed-in user and a
    non-empty description; otherwise nothing is posted.  The activity
    built carries the lead's id, the user's address and the form's type,
    outcome and description.  If its post fails the handler stops there;
    otherwise the lead is rescored with the activity as the most recent
    one (the engagement points come from the logged outcome alone, the
    volume bonus is earned once three activities were already there) and
    marked as contacted at the later instant, every other field staying
    as it was.  Only when the post of the lead succeeds too is the
    activity put in front of the history and the lead replaced on the
    page; after a failed post the page keeps its history and its lead and
    stays in the saving state. *)
Theorem handleAddActivity_effect (lead : Lead.t) (user : User.t)
    (activities : list Activity.t) (newActivity : ActivityForm.t)
    (now_ms now_iso later_iso : string) (addActivity_ok updateLead_ok : bool) :
  let result :=
    handleAddActivity (Some lead) (Some user) activities newActivity now_ms now_iso later_iso
      addActivity_ok updateLead_ok in
  handleAddActivity None (Some user) activities newActivity now_ms now_iso later_iso
    addActivity_ok updateLead_ok = AddActivity.NotSubmitted
  /\ handleAddActivity (Some lead) None activities newActivity now_ms now_iso later_iso
       addActivity_ok updateLead_ok = AddActivity.NotSubmitted
  /\ (ActivityForm.description newActivity = ""%string -> result = AddActivity.NotSubmitted)
  /\ (ActivityForm.description newActivity <> ""%string ->
      exists activity updated,
        result
        = (if addActivity_ok
           then if updateLead_ok
                then AddActivity.Saved activity (activity :: activities) updated
                else AddActivity.UpdateLeadFailed activity updated
           else AddActivity.AddActivityFailed activity)
        /\ (Activity.id activity, Activity.leadId activity, Activity.type activity,
            Activity.subject activity, Activity.description activity,
            Activity.outcome activity, Activity.dateTime activity,
            Activity.createdBy activity)
           = (now_ms, Lead.id lead, ActivityForm.type newActivity,
              (ActivityForm.type newActivity ++ " with " ++ Lead.leadName lead)%string,
              ActivityForm.description newActivity, ActivityForm.outcome newActivity,
              now_iso, User.email user)
        /\ Lead.leadScore updated
           = Z.min 100
               (ScoreRules.src (Lead.source lead) + ScoreRules.bud (Lead.budgetRange lead)
                + (if (ActivityForm.outcome newActivity =? ActivityOutcome.Interested)%string
                   then 20
                   else if (ActivityForm.outcome newActivity
                            =? ActivityOutcome.FollowUpRequired)%string
                        then 10 else 0)
                + (if (3 <=? List.length activities)%nat then 10 else 0))%Z
        /\ (0 <= Lead.leadScore updated <= 80)%Z
        /\ Lead.lastContactedAt updated = Some later_iso
        /\ (Lead.id updated, Lead.leadName updated, Lead.companyName updated,
            Lead.email updated, Lead.phone updated, Lead.industry updated,
            Lead.source updated, Lead.budgetRange updated, Lead.stage updated,
            Lead.status updated, Lead.leadOwner updated, Lead.probability updated,
            Lead.dealValue updated, Lead.expectedValue updated,
            Lead.nextActionType updated, Lead.nextActionDateTime updated,
            Lead.createdAt updated, Lead.notes updated,
            Lead.suggestedEmailSubject updated, Lead.suggestedEmailBody updated)
           = (Lead.id lead, Lead.leadName lead, Lead.companyName lead, Lead.email lead,
              Lead.phone lead, Lead.industry lead, Lead.source lead, Lead.budgetRange lead,
              Lead.stage lead, Lead.status lead, Lead.leadOwner lead, Lead.probability lead,
              Lead.dealValue lead, Lead.expectedValue lead, Lead.nextActionType lead,
              Lead.nextActionDateTime lead, Lead.createdAt lead, Lead.notes lead,
              Lead.suggestedEmailSubject lead, Lead.suggestedEmailBody lead))
  /\ (addActivity_ok && updateLead_ok = false ->
      AddActivity.activities activities result = activities
      /\ AddActivity.lead (Some lead) result = Some lead)
  /\ (ActivityForm.description newActivity <> ""%string ->
      forall saving,
        AddActivity.isSavingActivity saving result
        = negb (addActivity_ok && updateLead_ok)).
Proof.
  intros result. subst result.
  split; [reflexivity |]. split; [reflexivity |]. split; [| split; [| split]].
  - intros E. cbn [handleAddActivity]. now rewrite E.
  - intros N. cbn [handleAddActivity].
    destruct (String.eqb_spec (ActivityForm.description newActivity) "") as [E | _];
      [contradiction |].
    eexists. eexists. split.
    { destruct addActivity_ok, updateLead_ok; reflexivity. }
    split.
    { cbn [loggedActivity Activity.id Activity.leadId Activity.type Activity.subject
           Activity.description Activity.outcome Activity.dateTime Activity.createdBy].
      destruct (String.eqb_spec (ActivityForm.description newActivity) "");
        [contradiction | reflexivity]. }
    cbn [scoredLead Lead.leadScore Lead.lastContactedAt].
    split; [rewrite score_as_sum; reflexivity |].
    split; [apply calculateLeadScore_bounds_80 |].
    split; reflexivity.
  - intros F. cbn [handleAddActivity].
    destruct (ActivityForm.description newActivity =? "")%string; [now split |].
    destruct addActivity_ok; [| now split].
    destruct updateLead_ok; [discriminate F | now split].
  - intros N saving. cbn [handleAddActivity].
    destruct (String.eqb_spec (ActivityForm.description newActivity) "") as [E | _];
      [contradiction |].
    destruct addActivity_ok, updateLead_ok; reflexivity.
Qed.

Lemma handleAddActivity_effect_witness :
  exists activity updated,
    handleAddActivity
      (Some (scoringLead Source.Referral BudgetRange.Above10L))
      (Some (sampleUser "a@x.com" "Sales"))
      [sampleActivity ActivityOutcome.NoResponse]
      {| ActivityForm.type := ActivityType.Call;
         ActivityForm.outcome := ActivityOutcome.Interested;
         ActivityForm.description := "called back" |}
      "1700000000000" "2023-11-14T22:13:20.000Z" "2023-11-14T22:13:21.250Z" true true
    = AddActivity.Saved activity [activity; sampleActivity ActivityOutcome.NoResponse] updated
    /\ Lead.leadScore updated = 70%Z
    /\ Activity.dateTime activity = "2023-11-14T22:13:20.000Z"%string
    /\ Lead.lastContactedAt updated = Some "2023-11-14T22:13:21.250Z"%string.
Proof.
  pose proof (handleAddActivity_effect
    (scoringLead Source.Referral BudgetRange.Above10L) (sampleUser "a@x.com" "Sales")
    [sampleActivity ActivityOutcome.NoResponse]
    {| ActivityForm.type := ActivityType.Call;
       ActivityForm.outcome := ActivityOutcome.Interested;
       ActivityForm.description := "called back" |}
    "1700000000000" "2023-11-14T22:13:20.000Z" "2023-11-14T22:13:21.250Z" true true) as H.
  cbv zeta in H. destruct H as (_ & _ & _ & H & _).
  destruct H as (activity & updated & E & A & S & _ & L & _); [discriminate |].
  exists activity, updated. split; [exact E |]. split; [exact S |].
  split; [| exact L]. now injection A.
Defined.

(** X3. A stage change and the logging of an activity do not interfere: done
    in either order they leave the same lead, the same activity and the
    same history, however the two posts of the logging end.  The same
    holds for a stage change and a reassignment. *)
Theorem stage_change_commutes (lead : Lead.t) (s : Stage.t) (user : option User.t)
    (activities : list Activity.t) (newActivity : ActivityForm.t)
    (now_ms now_iso later_iso newOwnerEmail : string) (addActivity_ok updateLead_ok : bool) :
  handleAddActivity (handleStageChange (Some lead) s) user activities newActivity
    now_ms now_iso later_iso addActivity_ok updateLead_ok
  = AddActivity.map (fun l => updatedLead l s)
      (handleAddActivity (Some lead) user activities newActivity
         now_ms now_iso later_iso addActivity_ok updateLead_ok)
  /\ handleStageChange (handleAssignLead (Some lead) newOwnerEmail) s
     = handleAssignLead (handleStageChange (Some lead) s) newOwnerEmail.
Proof.
  split; [| reflexivity].
  cbn [handleStageChange handleAddActivity]. destruct user as [user |]; [| reflexivity].
  destruct (ActivityForm.description newActivity =? "")%string; [reflexivity |].
  destruct addActivity_ok, updateLead_ok; reflexivity.
Qed.

(** X4. Logging an activity or reassigning a lead keeps the relation
    expectedValue = dealValue * probability / 100 of a lead that
    satisfies it: whenever the logging gets as far as building the
    rescored lead, that lead satisfies the relation too. *)
Theorem invariant_survives_logging (lead : Lead.t) (user : User.t)
    (activities : list Activity.t) (newActivity : ActivityForm.t)
    (now_ms now_iso later_iso newOwnerEmail : string) (addActivity_ok updateLead_ok : bool) :
  Lead.expectedValue lead == Lead.dealValue lead * Lead.probability lead / 100 ->
  (forall r, AddActivity.updatedLead
               (handleAddActivity (Some lead) (Some user) activities newActivity
                  now_ms now_iso later_iso addActivity_ok updateLead_ok) = Some r ->
             Lead.expectedValue r == Lead.dealValue r * Lead.probability r / 100)
  /\ (forall r, handleAssignLead (Some lead) newOwnerEmail = Some r ->
                Lead.expectedValue r == Lead.dealValue r * Lead.probability r / 100).
Proof.
  intros I. split.
  - intros r H. cbn [handleAddActivity] in H.
    destruct (ActivityForm.description newActivity =? "")%string; [discriminate |].
    destruct addActivity_ok, updateLead_ok; try discriminate;
      injection H as <-; exact I.
  - intros r H. injection H as <-. exact I.
Qed.

Lemma invariant_survives_logging_witness :
  Lead.expectedValue
    (assignedLead
       (updatedLead
          (sampleLead "a@x.com" Source.Website Stage.New Status.Open 10 1000 100 march2024)
          Stage.Proposal) "b@x.com")
  == Lead.dealValue
       (assignedLead
          (updatedLead
             (sampleLead "a@x.com" Source.Website Stage.New Status.Open 10 1000 100 march2024)
             Stage.Proposal) "b@x.com")
     * Lead.probability
         (assignedLead
            (updatedLead
               (sampleLead "a@x.com" Source.Website Stage.New Status.Open 10 1000 100
                  march2024)
               Stage.Proposal) "b@x.com") / 100.
Proof.
  destruct (invariant_survives_logging
           (updatedLead
              (sampleLead "a@x.com" Source.Website Stage.New Status.Open 10 1000 100 march2024)
              Stage.Proposal)
           (sampleUser "a@x.com" "Sales") []
           {| ActivityForm.type := ActivityType.Call;
              ActivityForm.outcome := ActivityOutcome.Interested;
              ActivityForm.description := "x" |} "1" "2" "3" "b@x.com" true true) as [_ H].
  - vm_compute. reflexivity.
  - apply H. reflexivity.
Defined.

(* ================================================================= *)
(** ** Creating a lead *)

Lemma or_zeroQ_eq (v : Q) : or_zeroQ v == v.
Proof.
  unfold or_zeroQ. destruct (Qeq_bool v 0) eqn:E; [| reflexivity].
  apply Qeq_bool_iff in E. now rewrite E.
Qed.

(** X5. A lead is created only by a signed-in user and with a name.  The
    created lead is New and Open with probability 10 and score 10, so it
    is not hot; it carries the name, source, budget range and deal value
    of the form, and no next action.  Its expected value is the binary64
    product dealValue * 0.1, which lies within [2^-51] of dealValue *
    probability / 100, relative to that value, without always being equal
    to it.  A blank company becomes "Unknown" and a blank industry
    "Other"; the owner is the one selected in the form, or else the
    creator. *)
Theorem handleCreateLead_lead (user : User.t) (newLead : LeadForm.t)
    (now_ms : string) (now : Date.t) :
  handleCreateLead None newLead now_ms now = None
  /\ (LeadForm.leadName newLead = ""%string ->
      handleCreateLead (Some user) newLead now_ms now = None)
  /\ (LeadForm.leadName newLead <> ""%string ->
      exists lead,
        handleCreateLead (Some user) newLead now_ms now = Some lead
        /\ (Lead.id lead, Lead.leadName lead, Lead.email lead, Lead.phone lead,
            Lead.source lead, Lead.budgetRange lead, Lead.createdAt lead, Lead.notes lead)
           = (now_ms, LeadForm.leadName newLead, LeadForm.email newLead,
              LeadForm.phone newLead, LeadForm.source newLead,
              LeadForm.budgetRange newLead, now, ""%string)
        /\ (Lead.nextActionType lead, Lead.nextActionDateTime lead,
            Lead.lastContactedAt lead, Lead.suggestedEmailSubject lead,
            Lead.suggestedEmailBody lead)
           = (None, None, None, None, None)
        /\ Lead.stage lead = Stage.New
        /\ Lead.status lead = Status.Open
        /\ Lead.leadScore lead = 10%Z
        /\ isHot lead = false
        /\ Lead.probability lead = 10
        /\ Lead.dealValue lead == LeadForm.dealValue newLead
        /\ Lead.expectedValue lead = Number_mul (Lead.dealValue lead) (binary64 (1 # 10))
        /\ Qabs (Lead.expectedValue lead
                 - Lead.dealValue lead * Lead.probability lead / 100)
           <= 2 ^ (-51) * Qabs (Lead.dealValue lead * Lead.probability lead / 100)
              + 2 ^ (-1074) * (Qabs (Lead.dealValue lead) + 1)
        /\ Lead.companyName lead
           = (if (LeadForm.companyName newLead =? "")%string then "Unknown"%string
              else LeadForm.companyName newLead)
        /\ Lead.industry lead
           = (if (LeadForm.industry newLead =? "")%string then "Other"%string
              else LeadForm.industry newLead)
        /\ (forall owner, LeadForm.leadOwner newLead = Some owner -> owner <> ""%string ->
                          Lead.leadOwner lead = owner)
        /\ (LeadForm.leadOwner newLead = None \/ LeadForm.leadOwner newLead = Some ""%string ->
            Lead.leadOwner lead = User.email user)).
Proof.
  split; [reflexivity |]. split.
  - intros E. cbn [handleCreateLead]. now rewrite E.
  - intros N. cbn [handleCreateLead].
    destruct (String.eqb_spec (LeadForm.leadName newLead) "") as [E | _]; [contradiction |].
    eexists. split; [reflexivity |].
    cbn [Lead.id Lead.leadName Lead.companyName Lead.email Lead.phone
         Lead.industry Lead.source Lead.budgetRange Lead.stage Lead.status Lead.leadOwner
         Lead.leadScore Lead.probability Lead.dealValue Lead.expectedValue
         Lead.nextActionType Lead.nextActionDateTime Lead.lastContactedAt Lead.createdAt
         Lead.notes Lead.suggestedEmailSubject Lead.suggestedEmailBody].
    split.
    { unfold or_string.
      destruct (LeadForm.email newLead) eqn:Ee, (LeadForm.phone newLead) eqn:Ep; reflexivity. }
    split; [reflexivity |].
    split; [reflexivity |]. split; [reflexivity |]. split; [reflexivity |].
    split; [reflexivity |]. split; [reflexivity |].
    split; [apply or_zeroQ_eq |].
    split; [reflexivity |].
    split.
    { set (d := or_zeroQ (LeadForm.dealValue newLead)).
      assert (binary64 (1 # 10) = Number_div 10 100) as -> by reflexivity.
      assert (d * 10 / 100 == d * (10 / 100)) as -> by field.
      apply Number_mul_div_close. }
    split; [reflexivity |]. split; [reflexivity |].
    split.
    + intros owner -> No. unfold or_string.
      destruct (String.eqb_spec owner ""); [contradiction | reflexivity].
    + intros [-> | ->]; reflexivity.
Qed.

Lemma handleCreateLead_lead_witness :
  exists lead,
    handleCreateLead (Some (sampleUser "a@x.com" "Sales"))
      {| LeadForm.leadName := "John Doe"; LeadForm.companyName := "";
         LeadForm.email := ""; LeadForm.phone := ""; LeadForm.industry := "";
         LeadForm.source := Source.Website; LeadForm.budgetRange := BudgetRange.OneToFiveL;
         LeadForm.stage := Stage.New; LeadForm.dealValue := 3;
         LeadForm.leadOwner := Some "a@x.com"%string |}
      "1700000000000" march2024 = Some lead
    /\ Lead.expectedValue lead == 5404319552844596 # 18014398509481984
    /\ ~ invariant lead
    /\ Lead.companyName lead = "Unknown"%string
    /\ Lead.leadScore lead = 10%Z.
Proof.
  pose proof (handleCreateLead_lead (sampleUser "a@x.com" "Sales")
      {| LeadForm.leadName := "John Doe"; LeadForm.companyName := "";
         LeadForm.email := ""; LeadForm.phone := ""; LeadForm.industry := "";
         LeadForm.source := Source.Website; LeadForm.budgetRange := BudgetRange.OneToFiveL;
         LeadForm.stage := Stage.New; LeadForm.dealValue := 3;
         LeadForm.leadOwner := Some "a@x.com"%string |}
      "1700000000000" march2024) as H.
  destruct H as (_ & _ & H).
  destruct H as (lead & E & _ & _ & _ & _ & S & _ & _ & _ & V & _ & C & _); [discriminate |].
  exists lead. split; [exact E |].
  split; [rewrite V; injection E as <-; vm_compute; reflexivity |].
  split; [injection E as <-; vm_compute; discriminate |].
  split; [exact C | exact S].
Defined.

(* ================================================================= *)
(** ** Who sees which lead *)

Lemma find_first {A : Type} (f : A -> bool) (l : list A) (x : A) :
  find f l = Some x <->
  exists before after,
    l = (before ++ x :: after)%list /\ f x = true /\ forall y, In y before -> f y = false.
Proof.
  induction l as [| a l IH]; simpl.
  - split; [discriminate |]. intros (before & after & E & _). now destruct before.
  - destruct (f a) eqn:Fa.
    + split.
      * intros [= ->]. exists [], l. repeat split; [exact Fa | intros y []].
      * intros (before & after & E & Fx & B).
        destruct before as [| b before]; simpl in E; injection E as Ea El.
        -- now subst.
        -- subst b. rewrite (B a (or_introl eq_refl)) in Fa. discriminate Fa.
    + rewrite IH. split.
      * intros (before & after & -> & Fx & B). exists (a :: before), after.
        repeat split; [exact Fx |]. intros y [<- | Hy]; [exact Fa | now apply B].
      * intros (before & after & E & Fx & B).
        destruct before as [| b before]; simpl in E; injection E as Ea El.
        -- subst x. congruence.
        -- exists before, after. repeat split; [exact El | exact Fx |].
           intros y Hy. apply B. now right.
Qed.

Lemma find_unique_id (leads : list Lead.t) (l : Lead.t) :
  NoDup (map Lead.id leads) -> In l leads ->
  Backend.getLeadById leads (Lead.id l) = Some l.
Proof.
  unfold Backend.getLeadById.
  induction leads as [| a leads IH]; simpl; intros ND H; [contradiction |].
  inversion ND as [| ? ? Hn ND']; subst.
  destruct H as [-> | H].
  - now rewrite String.eqb_refl.
  - destruct (String.eqb_spec (Lead.id a) (Lead.id l)) as [E | _]; [| now apply IH].
    exfalso. apply Hn. rewrite E. now apply in_map.
Qed.

Lemma In_getLeads (leads : list Lead.t) (user : User.t) (l : Lead.t) :
  In l (getLeads (Some leads) user) <-> In l leads /\ detailAllowed user l = true.
Proof.
  unfold getLeads, Backend.getLeads, detailAllowed.
  destruct (User.role user =? "Admin")%string; simpl.
  - tauto.
  - rewrite filter_In, negb_involutive. tauto.
Qed.

(** X6. The list of leads and the lead detail page apply the same rule.  The
    detail page fetches nothing without a signed-in user or without a
    lead id in the route, an empty id included.  It never shows a lead
    that is missing from the user's list, and the lead it shows has the
    requested id; with distinct lead ids it shows every lead of the list
    whose id is not empty; a user who is not an administrator is only
    listed leads they own, while an administrator is listed the whole
    sheet; and with the backend out of reach both are empty. *)
Theorem detail_agrees_with_list (leads : list Lead.t) (user : User.t) :
  (forall id l, detailLead (Some leads) (Some user) id = Some l ->
                In l (getLeads (Some leads) user)
                /\ id = Some (Lead.id l) /\ Lead.id l <> ""%string)
  /\ (NoDup (map Lead.id leads) ->
      forall l, In l (getLeads (Some leads) user) -> Lead.id l <> ""%string ->
                detailLead (Some leads) (Some user) (Some (Lead.id l)) = Some l)
  /\ (forall sheet id, detailLead sheet None id = None)
  /\ (forall sheet who, detailLead sheet who None = None
                        /\ detailLead sheet who (Some ""%string) = None)
  /\ (User.role user <> "Admin"%string ->
      forall l, In l (getLeads (Some leads) user) -> Lead.leadOwner l = User.email user)
  /\ (User.role user = "Admin"%string -> getLeads (Some leads) user = leads)
  /\ getLeads None user = []
  /\ (forall who id, detailLead None who id = None).
Proof.
  split; [| split; [| split; [| split; [| split; [| split; [| split]]]]]].
  - intros [id |] l H; [| discriminate]. cbn [detailLead] in H.
    destruct (String.eqb_spec id "") as [E | N]; [discriminate |].
    unfold Backend.getLeadById in H.
    destruct (find (fun l0 => (Lead.id l0 =? id)%string) leads) as [found |] eqn:F;
      [| discriminate].
    destruct (detailAllowed user found) eqn:D; [| discriminate].
    injection H as <-.
    apply find_some in F. destruct F as [Hin E]. apply String.eqb_eq in E.
    split; [apply In_getLeads; now split |]. split; [now rewrite E | now rewrite E].
  - intros ND l H N. apply In_getLeads in H. destruct H as [Hin D].
    cbn [detailLead].
    destruct (String.eqb_spec (Lead.id l) "") as [E | _]; [contradiction |].
    rewrite (find_unique_id leads l ND Hin). now rewrite D.
  - intros sheet [id |]; reflexivity.
  - intros sheet [who |]; split; reflexivity.
  - intros NA l H. unfold getLeads, Backend.getLeads in H.
    destruct (String.eqb_spec (User.role user) "Admin") as [E | _]; [contradiction |].
    apply filter_In in H. destruct H as [_ H]. now apply String.eqb_eq in H.
  - intros E. unfold getLeads, Backend.getLeads. now rewrite E.
  - reflexivity.
  - intros [who |] [id |]; cbn [detailLead]; try reflexivity.
    now destruct (id =? "")%string.
Qed.

Lemma detail_agrees_with_list_witness :
  getLeads (Some [leadOf "101" "a@y.com"; leadOf "102" "b@y.com"; leadOf "103" "a@y.com"])
    (sampleUser "a@y.com" "Sales")
  = [leadOf "101" "a@y.com"; leadOf "103" "a@y.com"]
  /\ detailLead
       (Some [leadOf "101" "a@y.com"; leadOf "102" "b@y.com"; leadOf "103" "a@y.com"])
       (Some (sampleUser "a@y.com" "Sales")) (Some "103"%string)
     = Some (leadOf "103" "a@y.com")
  /\ detailLead
       (Some [leadOf "101" "a@y.com"; leadOf "102" "b@y.com"; leadOf "103" "a@y.com"])
       (Some (sampleUser "a@y.com" "Sales")) (Some "102"%string)
     = None.
Proof.
  split; [reflexivity |]. split; [| reflexivity].
  destruct (detail_agrees_with_list
              [leadOf "101" "a@y.com"; leadOf "102" "b@y.com"; leadOf "103" "a@y.com"]
              (sampleUser "a@y.com" "Sales")) as (_ & H & _).
  apply (H ltac:(vm_compute; repeat constructor; simpl; intuition discriminate)
           (leadOf "103" "a@y.com")).
  - right. left. reflexivity.
  - discriminate.
Defined.

(* ================================================================= *)
(** ** Activities, newest first *)

Section NewestFirst.
Context (getTime : string -> Q).

Lemma newest_first_sorted (l : list Activity.t) :
  StronglySorted
    (fun a b => getTime (Activity.dateTime b) <= getTime (Activity.dateTime a))
    (Array_sort
       (fun a b => getTime (Activity.dateTime b) - getTime (Activity.dateTime a)) l).
Proof.
  eapply StronglySorted_impl; [| apply Array_sort_sorted].
  - intros a b H. simpl in H. lra.
  - intros a b H. simpl in *. lra.
  - intros a b c H1 H2. simpl in *. lra.
Qed.

Lemma sorted_head_newest (a : Activity.t) (rest : list Activity.t) :
  StronglySorted
    (fun a b => getTime (Activity.dateTime b) <= getTime (Activity.dateTime a))
    (a :: rest) ->
  forall b, In b (a :: rest) ->
            getTime (Activity.dateTime b) <= getTime (Activity.dateTime a).
Proof.
  intros S b [<- | H]; [lra |].
  apply StronglySorted_inv in S. destruct S as [_ F].
  rewrite Forall_forall in F. now apply F.
Qed.
End NewestFirst.

(** X7. [getActivities] returns nothing when the backend is out of reach.
    Otherwise it returns exactly the activities of the requested lead (all
    of them when no lead is given), each as often as in the sheet, ordered
    from the newest to the oldest, activities of the same instant in sheet
    order; so its first element, the one the score reads, is one of the
    most recent. *)
Theorem getActivities_newest_first (getTime : string -> Q)
    (activities : list Activity.t) (leadId : option string) :
  let result := getActivities getTime (Some activities) leadId in
  getActivities getTime None leadId = []
  /\ (forall id, leadId = Some id -> id <> ""%string ->
        Permutation result
          (filter (fun a => (Activity.leadId a =? id)%string) activities))
  /\ (leadId = None \/ leadId = Some ""%string -> Permutation result activities)
  /\ StronglySorted
       (fun a b => getTime (Activity.dateTime b) <= getTime (Activity.dateTime a)) result
  /\ (forall mostRecent rest, result = mostRecent :: rest ->
        (forall a, In a result ->
           getTime (Activity.dateTime a) <= getTime (Activity.dateTime mostRecent))
        /\ forall lead, ScoreRules.eng result = ScoreRules.eng [mostRecent]
                        /\ (0 <= calculateLeadScore lead result <= 80)%Z)
  /\ (forall t,
        filter (fun a => Qeq_bool (getTime (Activity.dateTime a)) t) result
        = filter (fun a => Qeq_bool (getTime (Activity.dateTime a)) t)
            (Backend.getActivities activities
               (match leadId with
                | Some id => if (id =? "")%string then None else Some id
                | None => None
                end))).
Proof.
  intros result. subst result. unfold getActivities.
  split; [reflexivity |]. split; [| split; [| split; [| split]]].
  - intros id -> N. rewrite Array_sort_perm.
    destruct (String.eqb_spec id "") as [E | _]; [contradiction |].
    unfold Backend.getActivities.
    destruct (String.eqb_spec id "") as [E | _]; [contradiction | reflexivity].
  - intros [-> | ->]; rewrite Array_sort_perm; reflexivity.
  - apply newest_first_sorted.
  - intros mostRecent rest E. split.
    + rewrite E. apply sorted_head_newest. rewrite <- E. apply newest_first_sorted.
    + intros lead. rewrite E. split; [reflexivity | apply calculateLeadScore_bounds_80].
  - intros t. apply Array_sort_stable.
    intros x y Hx Hy. apply Qeq_bool_iff in Hx, Hy. lra.
Qed.

Lemma getActivities_newest_first_witness :
  Permutation
    (getActivities sampleTime
       (Some [activityOf "1" "lead-1" "2024-03-01T10:00:00.000Z";
              activityOf "2" "lead-2" "2024-03-02T10:00:00.000Z";
              activityOf "3" "lead-1" "2024-03-03T10:00:00.000Z"])
       (Some "lead-1"%string))
    (filter (fun a => (Activity.leadId a =? "lead-1")%string)
       [activityOf "1" "lead-1" "2024-03-01T10:00:00.000Z";
        activityOf "2" "lead-2" "2024-03-02T10:00:00.000Z";
        activityOf "3" "lead-1" "2024-03-03T10:00:00.000Z"])
  /\ getActivities sampleTime
       (Some [activityOf "1" "lead-1" "2024-03-01T10:00:00.000Z";
              activityOf "2" "lead-2" "2024-03-02T10:00:00.000Z";
              activityOf "3" "lead-1" "2024-03-03T10:00:00.000Z"])
       (Some "lead-1"%string)
     = [activityOf "3" "lead-1" "2024-03-03T10:00:00.000Z";
        activityOf "1" "lead-1" "2024-03-01T10:00:00.000Z"].
Proof.
  split; [| reflexivity].
  destruct (getActivities_newest_first sampleTime
              [activityOf "1" "lead-1" "2024-03-01T10:00:00.000Z";
               activityOf "2" "lead-2" "2024-03-02T10:00:00.000Z";
               activityOf "3" "lead-1" "2024-03-03T10:00:00.000Z"]
              (Some "lead-1"%string))
    as (_ & H & _).
  apply (H "lead-1"%string); [reflexivity | discriminate].
Defined.

Lemma listed_leads_are_owned (leads : list Lead.t) (user : User.t) :
  User.role user <> "Admin"%string ->
  forall l, In l (getLeads (Some leads) user) -> Lead.leadOwner l = User.email user.
Proof.
  intros NA l H. unfold getLeads, Backend.getLeads in H.
  destruct (String.eqb_spec (User.role user) "Admin") as [E | _]; [contradiction |].
  apply filter_In in H. destruct H as [_ H]. now apply String.eqb_eq in H.
Qed.

(** X8. The activities page shows exactly the activities whose lead is in the
    user's list of leads, newest first; for a user who is not an
    administrator each of them belongs to a lead that the user owns. *)
Theorem visibleActivities_scope (getTime : string -> Q) (leads : list Lead.t)
    (user : User.t) (allActivities : list Activity.t) :
  let shown := visibleActivities getTime (getLeads (Some leads) user) allActivities in
  (forall a, In a shown <->
             In a allActivities
             /\ exists l, In l (getLeads (Some leads) user)
                          /\ Lead.id l = Activity.leadId a)
  /\ (User.role user <> "Admin"%string ->
      forall a, In a shown ->
                exists l, In l leads /\ Lead.id l = Activity.leadId a
                          /\ Lead.leadOwner l = User.email user)
  /\ StronglySorted
       (fun a b => getTime (Activity.dateTime b) <= getTime (Activity.dateTime a)) shown
  /\ (List.length shown <= List.length allActivities)%nat.
Proof.
  intros shown.
  assert (Scope : forall a, In a shown <->
             In a allActivities
             /\ exists l, In l (getLeads (Some leads) user)
                          /\ Lead.id l = Activity.leadId a).
  { intros a. subst shown. unfold visibleActivities. split.
    - intros H. apply (Permutation_in _ (Array_sort_perm _ _)) in H.
      apply filter_In in H. destruct H as [Ha H]. split; [exact Ha |].
      apply existsb_exists in H. destruct H as [i [Hi E]].
      apply String.eqb_eq in E. apply in_map_iff in Hi. destruct Hi as [l [El Hl]].
      exists l. split; [exact Hl | congruence].
    - intros [Ha [l [Hl E]]].
      apply (Permutation_in _ (Permutation_sym (Array_sort_perm _ _))).
      apply filter_In. split; [exact Ha |].
      apply existsb_exists. exists (Lead.id l). split; [now apply in_map |].
      apply String.eqb_eq. now rewrite E. }
  split; [exact Scope |]. split; [| split].
  - intros NA a H. apply Scope in H. destruct H as [_ [l [Hl E]]].
    exists l. split; [| split; [exact E |]].
    + apply In_getLeads in Hl. tauto.
    + exact (listed_leads_are_owned leads user NA l Hl).
  - apply newest_first_sorted.
  - subst shown. unfold visibleActivities.
    rewrite (Permutation_length (Array_sort_perm _ _)). apply filter_length_le.
Qed.

(* ================================================================= *)
(** ** Signing in *)

(** X9. Signing in succeeds exactly when the first user row with the given
    e-mail address carries the given password; the user returned is that
    row.  Later rows with the same address are never reached, a row
    without a password never signs in, and with the backend out of reach
    nobody does. *)
Theorem authenticateUser_first_match (users : list User.t) (email passwordInput : string)
    (user : User.t) :
  (authenticateUser (Some users) email passwordInput = Some user <->
     exists before after,
       users = (before ++ user :: after)%list
       /\ (forall other, In other before -> User.email other <> email)
       /\ User.email user = email
       /\ User.password user = Some passwordInput)
  /\ authenticateUser None email passwordInput = None.
Proof.
  split; [| reflexivity].
  unfold authenticateUser, Backend.authenticateUser. split.
  - destruct (find (fun u => (User.email u =? email)%string) users) as [found |] eqn:F;
      [| discriminate].
    destruct (User.password found) as [password |] eqn:P; [| discriminate].
    destruct (String.eqb_spec password passwordInput) as [E | _]; [| discriminate].
    intros [= <-]. apply find_first in F. destruct F as (before & after & U & Em & B).
    exists before, after. repeat split.
    + exact U.
    + intros other Ho. apply String.eqb_neq. now apply B.
    + now apply String.eqb_eq.
    + now rewrite P, E.
  - intros (before & after & U & B & Em & P).
    assert (find (fun u => (User.email u =? email)%string) users = Some user) as F.
    { apply find_first. exists before, after. repeat split.
      - exact U.
      - now apply String.eqb_eq.
      - intros y Hy. apply String.eqb_neq. now apply B. }
    rewrite F, P. now rewrite String.eqb_refl.
Qed.

(* ================================================================= *)
(** ** Sums *)


Lemma sumQ_app (l l' : list Q) : sumQ (l ++ l') == sumQ l + sumQ l'.
Proof. induction l as [| q l IH]; simpl; [ring | rewrite IH; ring]. Qed.



(* ================================================================= *)
(** ** Dashboard *)











(* ================================================================= *)
(** ** Rates *)

(** X13. Every win rate of the conversion table is a number between 0 and
    100, written with one decimal; so is the dashboard's conversion rate,
    which is 0 when there is no lead at all.  As long as the leads are
    fewer than 2^32, as many as an array holds, the printed decimal is
    within 0.05 of the exact percentage of won leads. *)
Theorem win_rate_bounds (leads : list Lead.t) :
  (forall row, In row (sourceConversionData leads) ->
     0 <= SourceRow.rate row /\ SourceRow.rate row <= 100
     /\ exists printed,
          SourceRow.rate row = binary64 printed
          /\ 0 <= printed /\ printed <= 100
          /\ ((Z.of_nat (List.length leads) < 2 ^ 32)%Z ->
              Qabs (printed
                    - (Q_of_nat (List.length
                                   (filter isWon (fromSource (SourceRow.name row) leads)))
                       / Q_of_nat (List.length (fromSource (SourceRow.name row) leads)))
                      * 100)
              <= 1 # 20))
  /\ 0 <= conversionRate leads /\ conversionRate leads <= 100
  /\ (leads <> [] -> (Z.of_nat (List.length leads) < 2 ^ 32)%Z ->
      Qabs (conversionRate leads
            - (Q_of_nat (wonLeads leads) / Q_of_nat (List.length leads)) * 100) <= 1 # 20)
  /\ conversionRate [] == 0.
Proof.
  split; [| split; [| split; [| split]]].
  - intros row H. destruct (source_row_in_data leads row H) as (Hs & Ht & Hr).
    pose proof (fromSource_nonempty _ leads Hs) as Pos.
    set (won := List.length (filter isWon (fromSource (SourceRow.name row) leads))) in *.
    assert (won <= List.length (fromSource (SourceRow.name row) leads))%nat as Hw
      by apply filter_length_le.
    rewrite Ht in Hr.
    destruct (printed_percentage_bounds won _ Hw Pos) as [[P0 P1] [B0 B1]].
    rewrite Hr. unfold Number_toFixed1.
    split; [exact B0 |]. split; [exact B1 |].
    eexists. split; [reflexivity |]. split; [exact P0 |]. split; [exact P1 |].
    intros Hb.
    assert (Z.of_nat (List.length (fromSource (SourceRow.name row) leads)) < 2 ^ 32)%Z as Hb'.
    { pose proof (filter_length_le (fun lead => (Lead.source lead =? SourceRow.name row)%string)
                    leads) as Le.
      unfold fromSource. lia. }
    apply (printed_percentage won _ Hw Pos Hb').
  - unfold conversionRate, totalLeads.
    destruct (Nat.ltb_spec 0 (List.length leads)) as [Pos | _]; [| lra].
    apply (printed_percentage_bounds (wonLeads leads) (List.length leads)
             (filter_length_le _ _) Pos).
  - unfold conversionRate, totalLeads.
    destruct (Nat.ltb_spec 0 (List.length leads)) as [Pos | _]; [| lra].
    apply (printed_percentage_bounds (wonLeads leads) (List.length leads)
             (filter_length_le _ _) Pos).
  - intros N Hb. unfold conversionRate, totalLeads.
    assert (0 < List.length leads)%nat as Pos by (destruct leads; [contradiction | simpl; lia]).
    destruct (Nat.ltb_spec 0 (List.length leads)) as [_ | F]; [| lia].
    apply (printed_percentage (wonLeads leads) (List.length leads)
             (filter_length_le _ _) Pos Hb).
  - reflexivity.
Qed.

Lemma win_rate_bounds_witness :
  Qabs (conversionRate twentyThreeOfEighty
        - (Q_of_nat (wonLeads twentyThreeOfEighty)
           / Q_of_nat (List.length twentyThreeOfEighty)) * 100) <= 1 # 20.
Proof.
  destruct (win_rate_bounds twentyThreeOfEighty) as (_ & _ & _ & H & _).
  apply H; [discriminate | reflexivity].
Defined.

(* ================================================================= *)
(** ** Totals of the grouped reports *)


Section GroupTotals.
Context {X : Type} (key : X -> string).







End GroupTotals.




(* ================================================================= *)
(** ** Owner keys and period keys *)

Lemma String_split_nonempty (sep : ascii) (s : string) : String_split sep s <> [].
Proof.
  destruct s as [| c s]; simpl; [discriminate |].
  destruct (Ascii.eqb c sep); [discriminate |].
  destruct (String_split sep s); discriminate.
Qed.

Lemma String_split_head (sep : ascii) (s : string) :
  nth 0 (String_split sep s) ""%string = before_first sep s.
Proof.
  induction s as [| c s IH]; simpl; [reflexivity |].
  destruct (Ascii.eqb c sep); [reflexivity |].
  destruct (String_split sep s) as [| piece pieces] eqn:E.
  - now destruct (String_split_nonempty sep s).
  - simpl in *. now rewrite IH.
Qed.

Lemma String_split_join (sep : ascii) (s : string) :
  String_join sep (String_split sep s) = s.
Proof.
  induction s as [| c s IH]; simpl; [reflexivity |].
  destruct (Ascii.eqb_spec c sep) as [-> | _].
  - destruct (String_split sep s) as [| piece pieces] eqn:E.
    + now destruct (String_split_nonempty sep s).
    + simpl. simpl in IH. now rewrite IH.
  - destruct (String_split sep s) as [| piece pieces] eqn:E.
    + now destruct (String_split_nonempty sep s).
    + simpl in *. destruct pieces; simpl; now rewrite <- IH.
Qed.

Lemma before_first_prefix (sep : ascii) (s : string) :
  contains sep (before_first sep s) = false
  /\ (exists rest, s = (before_first sep s ++ rest)%string
                   /\ (rest = ""%string \/ exists r, rest = String sep r))
  /\ (contains sep s = false -> before_first sep s = s).
Proof.
  induction s as [| c s (IH1 & (rest & IH2 & IH3) & IH4)]; simpl.
  - repeat split. exists ""%string. split; [reflexivity | now left].
  - destruct (Ascii.eqb_spec c sep) as [-> | N]; simpl.
    + repeat split; [| discriminate].
      exists (String sep s). split; [reflexivity | right; now exists s].
    + destruct (Ascii.eqb_spec c sep) as [E | _]; [contradiction |]. simpl.
      repeat split; [exact IH1 | | intros H; f_equal; now apply IH4].
      exists rest. split; [now rewrite <- IH2 | exact IH3].
Qed.

(** X15. The owner key under which the leaderboard groups a lead, also the
    short name that the lead table prints, is the part of the owner's
    address before its first [@]: it holds no [@], the address continues
    after it with nothing or with an [@], and an address without [@] is
    its own key.  Splitting loses nothing: joining the pieces with [@]
    gives the address back. *)
Theorem ownerKey_prefix (lead : Lead.t) :
  ownerKey lead = before_first "@" (Lead.leadOwner lead)
  /\ contains "@" (ownerKey lead) = false
  /\ (exists rest, Lead.leadOwner lead = (ownerKey lead ++ rest)%string
                   /\ (rest = ""%string \/ exists r, rest = String "@" r))
  /\ (contains "@" (Lead.leadOwner lead) = false -> ownerKey lead = Lead.leadOwner lead)
  /\ String_join "@" (String_split "@" (Lead.leadOwner lead)) = Lead.leadOwner lead.
Proof.
  unfold ownerKey. rewrite String_split_head.
  destruct (before_first_prefix "@" (Lead.leadOwner lead)) as (A & B & C).
  repeat split; [exact A | exact B | exact C | apply String_split_join].
Qed.

Lemma ownerKey_prefix_witness :
  ownerKey (sampleLead "sales" Source.Website Stage.New Status.Open 0 0 0 march2024)
  = "sales"%string.
Proof.
  destruct (ownerKey_prefix
              (sampleLead "sales" Source.Website Stage.New Status.Open 0 0 0 march2024))
    as (_ & _ & _ & H & _).
  apply H. reflexivity.
Defined.

Lemma uint_no_hyphen (d : Decimal.uint) : has_hyphen (NilEmpty.string_of_uint d) = false.
Proof. induction d; simpl; assumption || reflexivity. Qed.

Lemma String_of_nat_no_hyphen (n : nat) : has_hyphen (String_of_nat n) = false.
Proof.
  unfold String_of_nat, NilZero.string_of_uint.
  destruct (Nat.to_uint n); try reflexivity; apply (uint_no_hyphen (_ _)) || apply uint_no_hyphen.
Qed.

Lemma has_hyphen_append (a b : string) :
  has_hyphen (a ++ b) = has_hyphen a || has_hyphen b.
Proof.
  induction a as [| c a IH]; simpl; [reflexivity |]. now rewrite IH, orb_assoc.
Qed.

Lemma pad_filler_zero_no_hyphen (n : nat) (rest : string) :
  has_hyphen rest = false -> has_hyphen (pad_filler n "0" rest) = false.
Proof.
  revert rest. induction n as [| n IH]; intros rest H; simpl; [reflexivity |].
  destruct rest as [| c rest]; simpl.
  - now apply IH.
  - simpl in H. apply orb_false_iff in H. destruct H as [H1 H2].
    rewrite H1. now apply IH.
Qed.

Lemma month_part_no_hyphen (m : nat) :
  has_hyphen (padStart (String_of_nat (m + 1)) 2 "0") = false.
Proof.
  unfold padStart.
  destruct (2 <=? String.length (String_of_nat (m + 1)))%nat.
  - apply String_of_nat_no_hyphen.
  - rewrite has_hyphen_append, String_of_nat_no_hyphen, orb_false_r.
    now apply pad_filler_zero_no_hyphen.
Qed.

Lemma split_at_last_hyphen (a a' b b' : string) :
  has_hyphen b = false -> has_hyphen b' = false ->
  (a ++ String "-" b)%string = (a' ++ String "-" b')%string -> a = a' /\ b = b'.
Proof.
  intros Hb Hb'. revert a'.
  induction a as [| c a IH]; intros [| c' a'] E; simpl in E.
  - injection E as E. now split.
  - injection E as Ec E. exfalso. rewrite E, has_hyphen_app in Hb. discriminate Hb.
  - injection E as Ec E. exfalso. rewrite <- E, has_hyphen_app in Hb'. discriminate Hb'.
  - injection E as Ec E. destruct (IH a' E) as [-> ->]. now subst.
Qed.

Lemma String_of_Z_inj (y y' : Z) : String_of_Z y = String_of_Z y' -> y = y'.
Proof.
  unfold String_of_Z. intros E. apply DecimalZ.to_int_inj.
  assert (N : forall z, Z.to_int z <> Decimal.Pos Decimal.Nil
                        /\ Z.to_int z <> Decimal.Neg Decimal.Nil).
  { intros [| p | p]; simpl; split; try discriminate;
      intros [= H]; now apply (DecimalPos.Unsigned.to_uint_nonnil p). }
  destruct (N y) as [P1 N1]. destruct (N y') as [P2 N2].
  pose proof (NilZero.isi _ P1 N1) as R1. pose proof (NilZero.isi _ P2 N2) as R2.
  rewrite E in R1. congruence.
Qed.

Lemma to_uint_nonnil (n : nat) : Nat.to_uint n <> Decimal.Nil.
Proof.
  intros E. pose proof (DecimalNat.Unsigned.to_of (Nat.to_uint n)) as H.
  rewrite DecimalNat.Unsigned.of_to in H. rewrite E in H. discriminate H.
Qed.

Lemma String_of_nat_inj (n n' : nat) : String_of_nat n = String_of_nat n' -> n = n'.
Proof.
  unfold String_of_nat. intros E. apply DecimalNat.Unsigned.to_uint_inj.
  pose proof (NilZero.usu _ (to_uint_nonnil n)) as R1.
  pose proof (NilZero.usu _ (to_uint_nonnil n')) as R2.
  rewrite E in R1. congruence.
Qed.

(** A decimal numeral that starts with [0] is ["0"]. *)
Lemma String_of_nat_leading_zero (n : nat) (s : string) :
  String_of_nat n = String "0" s -> s = ""%string.
Proof.
  unfold String_of_nat. intros E.
  pose proof (DecimalNat.Unsigned.to_of (Nat.to_uint n)) as H.
  rewrite DecimalNat.Unsigned.of_to in H.
  destruct (Nat.to_uint n) as [| d | d | d | d | d | d | d | d | d | d] eqn:U;
    simpl in E; try discriminate E.
  - now injection E.
  - injection E as E. unfold Decimal.unorm in H. simpl in H.
    destruct (Decimal.nzhead d) eqn:Z; try discriminate H.
    + injection H as H. subst d. simpl in E. now subst s.
    + exfalso. apply (DecimalFacts.nzhead_nonzero d u). exact Z.
Qed.

Lemma String_of_nat_nonempty (n : nat) : String_of_nat n <> ""%string.
Proof.
  unfold String_of_nat. destruct (Nat.to_uint n); simpl; discriminate.
Qed.

Lemma month_part_inj (m m' : nat) :
  padStart (String_of_nat (m + 1)) 2 "0" = padStart (String_of_nat (m' + 1)) 2 "0" ->
  m = m'.
Proof.
  intros E.
  assert (String_of_nat (m + 1) = String_of_nat (m' + 1)) as S.
  { pose proof (String_of_nat_nonempty (m + 1)) as N.
    pose proof (String_of_nat_nonempty (m' + 1)) as N'.
    pose proof (String_of_nat_leading_zero (m + 1)) as Z.
    pose proof (String_of_nat_leading_zero (m' + 1)) as Z'.
    unfold padStart in E.
    destruct (String_of_nat (m + 1)) as [| c [| c2 r]];
      destruct (String_of_nat (m' + 1)) as [| c' [| c2' r']];
      try contradiction; simpl in E.
    - now injection E as ->.
    - injection E as <- <- <-. discriminate (Z' _ eq_refl).
    - injection E as -> -> ->. discriminate (Z _ eq_refl).
    - exact E. }
  apply String_of_nat_inj in S. lia.
Qed.

(** X16. The period key tells months apart and nothing else: two creation
    dates get the same key exactly when they fall in the same month of the
    same year, so a row of the revenue trend collects the leads of one
    calendar month. *)
Theorem periodKey_injective (d d' : Date.t) :
  periodKey d = periodKey d'
  <-> Date.getFullYear d = Date.getFullYear d' /\ Date.getMonth d = Date.getMonth d'.
Proof.
  split.
  - unfold periodKey. intros E.
    change ("-" ++ ?x)%string with (String "-" x) in E.
    apply split_at_last_hyphen in E; try apply month_part_no_hyphen.
    destruct E as [Y M]. split; [now apply String_of_Z_inj | now apply month_part_inj].
  - intros [Y M]. unfold periodKey. now rewrite Y, M.
Qed.

(* ================================================================= *)
(** ** Backend writes *)

Lemma mapi_from_length {A B : Type} (f : A -> nat -> B) (i : nat) (l : list A) :
  List.length (mapi_from f i l) = List.length l.
Proof. revert i. induction l as [| a l IH]; intros i; simpl; [reflexivity | now rewrite IH]. Qed.

Lemma mapi_from_nth {A B : Type} (f : A -> nat -> B) (i k : nat) (l : list A) :
  nth_error (mapi_from f i l) k = option_map (fun a => f a (i + k)%nat) (nth_error l k).
Proof.
  revert i k. induction l as [| a l IH]; intros i [| k]; simpl; try reflexivity.
  - now rewrite Nat.add_0_r.
  - rewrite IH. now rewrite Nat.add_succ_r.
Qed.

Lemma findIndex_None {A : Type} (p : A -> bool) (l : list A) :
  findIndex p l = None <-> forall a, In a l -> p a = false.
Proof.
  induction l as [| a l IH]; simpl.
  - split; [intros _ a [] | reflexivity].
  - destruct (p a) eqn:P.
    + split; [discriminate |]. intros H. specialize (H a (or_introl eq_refl)). congruence.
    + destruct (findIndex p l) as [i |]; simpl.
      * split; [discriminate |]. intros H.
        assert (Some i = None) as E by (apply IH; intros b Hb; apply H; now right).
        discriminate E.
      * split; [| reflexivity]. intros _ b [<- | Hb]; [exact P |].
        now apply (proj1 IH eq_refl).
Qed.

Lemma findIndex_Some {A : Type} (p : A -> bool) (l : list A) (i : nat) :
  findIndex p l = Some i ->
  exists a, nth_error l i = Some a /\ p a = true
            /\ forall j b, (j < i)%nat -> nth_error l j = Some b -> p b = false.
Proof.
  revert i. induction l as [| a l IH]; intros i; simpl; [discriminate |].
  destruct (p a) eqn:P.
  - intros [= <-]. exists a. repeat split; [exact P |]. intros j b Hj. lia.
  - destruct (findIndex p l) as [i' |]; simpl; [| discriminate].
    intros [= <-]. destruct (IH i' eq_refl) as (x & Hx & Px & Before).
    exists x. repeat split; [exact Hx | exact Px |].
    intros [| j] b Hj Hb; simpl in Hb.
    + now injection Hb as <-.
    + apply (Before j b); [lia | exact Hb].
Qed.

Section SheetFacts.
Context {cell : Type}.
Context (key_of : cell -> string) (is_id : cell -> bool)
        (loose_eq : option cell -> option cell -> bool)
        (truthy : cell -> bool) (empty_string : cell).

Lemma set_row_length (data : list (list cell)) (i : nat) (newRow : list cell) :
  List.length (set_row data i newRow) = List.length data.
Proof.
  revert i. induction data as [| row data IH]; intros [| i]; simpl; try reflexivity.
  now rewrite IH.
Qed.

Lemma set_row_same (data : list (list cell)) (i : nat) (newRow oldRow : list cell) :
  nth_error data i = Some oldRow -> nth_error (set_row data i newRow) i = Some newRow.
Proof.
  revert i. induction data as [| row data IH]; intros [| i]; simpl; try discriminate.
  - reflexivity.
  - apply IH.
Qed.

Lemma set_row_other (data : list (list cell)) (i j : nat) (newRow : list cell) :
  j <> i -> nth_error (set_row data i newRow) j = nth_error data j.
Proof.
  revert i j. induction data as [| row data IH]; intros [| i] [| j] N; simpl;
    try reflexivity; try contradiction.
  apply IH. lia.
Qed.

Lemma merged_row_nth (headers oldRow : list cell) (leadData : JsObject.t cell)
    (k : nat) (header : cell) :
  nth_error headers k = Some header ->
  nth_error (merged_row key_of empty_string headers oldRow leadData) k
  = Some (match JsObject.get leadData (key_of header) with
          | Some value => value
          | None => nth k oldRow empty_string
          end).
Proof.
  intros H. unfold merged_row, mapi. now rewrite mapi_from_nth, H.
Qed.

Lemma merged_row_length (headers oldRow : list cell) (leadData : JsObject.t cell) :
  List.length (merged_row key_of empty_string headers oldRow leadData)
  = List.length headers.
Proof. unfold merged_row, mapi. apply mapi_from_length. Qed.

(** X17. [updateLead] fails, leaving the sheet alone, exactly when no row has
    an id cell equal ([==]) to the id sent.  Otherwise it rewrites the
    first such row and no other: the sheet keeps its length and all other
    rows, and the rewritten row has one cell per header, holding the value
    sent for that header when the object has one and the old cell
    otherwise; a field the client leaves out is never cleared. *)
Theorem updateLead_effect (data : list (list cell)) (leadData : JsObject.t cell) :
  let headers := nth 0 data [] in
  let matches row :=
    loose_eq (cell_at row (indexOf_id is_id headers)) (JsObject.get leadData "id") in
  (updateLead key_of is_id loose_eq empty_string data leadData = None
   <-> forall row, In row data -> matches row = false)
  /\ (forall data',
        updateLead key_of is_id loose_eq empty_string data leadData = Some data' ->
        exists rowIndex oldRow,
          nth_error data rowIndex = Some oldRow
          /\ matches oldRow = true
          /\ (forall j row, (j < rowIndex)%nat -> nth_error data j = Some row ->
                            matches row = false)
          /\ List.length data' = List.length data
          /\ (forall j, j <> rowIndex -> nth_error data' j = nth_error data j)
          /\ (exists newRow,
                nth_error data' rowIndex = Some newRow
                /\ List.length newRow = List.length headers
                /\ forall k header, nth_error headers k = Some header ->
                     nth_error newRow k
                     = Some (match JsObject.get leadData (key_of header) with
                             | Some value => value
                             | None => nth k oldRow empty_string
                             end))).
Proof.
  intros headers matches. unfold updateLead. fold headers.
  change (fun row => loose_eq (cell_at row (indexOf_id is_id headers))
                       (JsObject.get leadData "id")) with matches.
  split.
  - destruct (findIndex matches data) as [i |] eqn:F.
    + split; [discriminate |]. intros H. apply findIndex_None in H. congruence.
    + split; [intros _; now apply findIndex_None | reflexivity].
  - intros data' H.
    destruct (findIndex matches data) as [i |] eqn:F; [| discriminate].
    injection H as <-.
    destruct (findIndex_Some _ _ _ F) as (oldRow & Hi & M & Before).
    exists i, oldRow.
    assert (nth i data [] = oldRow) as E by (now apply nth_error_nth).
    rewrite E.
    repeat split.
    + exact Hi.
    + exact M.
    + exact Before.
    + apply set_row_length.
    + intros j N. now apply set_row_other.
    + exists (merged_row key_of empty_string headers oldRow leadData).
      repeat split.
      * eapply set_row_same. exact Hi.
      * apply merged_row_length.
      * intros k header. apply merged_row_nth.
Qed.

Lemma row_object_from (headers row : list cell) (start : nat) (obj : JsObject.t cell)
    (k : nat) (header : cell) :
  NoDup (map key_of headers) ->
  nth_error headers k = Some header ->
  JsObject.get
    (fold_left
       (fun obj hi => JsObject.set obj (key_of (fst hi)) (nth (snd hi) row empty_string))
       (combine headers (seq start (List.length headers))) obj)
    (key_of header)
  = Some (nth (start + k) row empty_string).
Proof.
  revert start obj k.
  induction headers as [| h headers IH]; intros start obj k ND H.
  - destruct k; discriminate H.
  - inversion ND as [| ? ? Hn ND']; subst. simpl.
    destruct k as [| k]; simpl in H.
    + injection H as ->. rewrite Nat.add_0_r.
      assert (forall hs s o,
                 ~ In (key_of header) (map key_of hs) ->
                 JsObject.get
                   (fold_left
                      (fun obj hi =>
                         JsObject.set obj (key_of (fst hi)) (nth (snd hi) row empty_string))
                      (combine hs (seq s (List.length hs))) o) (key_of header)
                 = JsObject.get o (key_of header)) as Keep.
      { induction hs as [| h' hs IHh]; intros s o N; simpl; [reflexivity |].
        rewrite IHh by (intros Hin; apply N; now right).
        apply get_set_neq. intros E. apply N. left. exact E. }
      rewrite Keep by exact Hn. apply get_set_eq.
    + rewrite (IH (S start) _ k ND' H). f_equal. f_equal. lia.
Qed.

Lemma row_object_get (headers row : list cell) (k : nat) (header : cell) :
  NoDup (map key_of headers) ->
  nth_error headers k = Some header ->
  JsObject.get (row_object key_of empty_string headers row) (key_of header)
  = Some (nth k row empty_string).
Proof. intros ND H. unfold row_object. now rewrite (row_object_from _ _ 0 _ k header ND H). Qed.

(** X18. What is created can be read back.  [createLead] (and [addActivity])
    adds one row at the end and touches no other; with distinct header
    names, [getData] then returns the objects it returned before followed
    by one more, in which every header holds the value sent for it, or the
    empty string when none was sent or the value sent is falsy (such as 0
    or the empty string). *)
Theorem createLead_then_getData (headers : list cell) (rows : list (list cell))
    (leadData : JsObject.t cell) :
  NoDup (map key_of headers) ->
  let data := headers :: rows in
  let data' := createLead key_of truthy empty_string data leadData in
  List.length data' = S (List.length data)
  /\ (forall j, (j < List.length data)%nat -> nth_error data' j = nth_error data j)
  /\ (exists created,
        getData key_of empty_string data'
        = (getData key_of empty_string data ++ [created])%list
        /\ forall header, In header headers ->
             JsObject.get created (key_of header)
             = Some (match JsObject.get leadData (key_of header) with
                     | Some value => if truthy value then value else empty_string
                     | None => empty_string
                     end)).
Proof.
  intros ND data data'. subst data data'. unfold createLead. simpl nth.
  split; [| split].
  - rewrite length_app. simpl. lia.
  - intros j Hj. now apply nth_error_app1.
  - exists (row_object key_of empty_string headers
              (appended_row key_of truthy empty_string headers leadData)).
    split.
    + simpl. now rewrite map_app.
    + intros header Hin. apply In_nth_error in Hin. destruct Hin as [k Hk].
      rewrite (row_object_get _ _ k header ND Hk).
      f_equal. unfold appended_row.
      apply nth_error_nth.
      now rewrite nth_error_map, Hk.
Qed.
End SheetFacts.

Lemma createLead_then_getData_witness :
  exists created,
    getData (fun s => s) ""%string
      (createLead (fun s => s) string_truthy ""%string sampleSheet
         [("id", "9"); ("leadName", "Cy"); ("notes", "x")]%string)
    = (getData (fun s => s) ""%string sampleSheet ++ [created])%list
    /\ JsObject.get created "stage" = Some ""%string
    /\ JsObject.get created "leadName" = Some "Cy"%string.
Proof.
  destruct (createLead_then_getData (fun s : string => s) string_truthy ""%string
              ["id"; "leadName"; "stage"]%string
              [["7"; "Ann"; "New"]; ["8"; "Bob"; "Won"]]%string
              [("id", "9"); ("leadName", "Cy"); ("notes", "x")]%string) as (_ & _ & H).
  - repeat constructor; simpl; intuition discriminate.
  - destruct H as (created & E & G). exists created. split; [exact E |].
    split; [apply (G "stage"%string) | apply (G "leadName"%string)]; simpl; tauto.
Defined.

Section SheetReadBack.
Context {cell : Type}.
Context (key_of : cell -> string) (is_id : cell -> bool)
        (loose_eq : option cell -> option cell -> bool) (empty_string : cell).

(** X19. An update can be read back.  When the header names are distinct and
    the header row itself does not pass for the lead, a successful
    [updateLead] changes what [getData] returns in one place only: the
    object of the first row with the id sent.  In that object every header
    sent by the client holds the value sent, and every other header holds
    what it held before. *)
Theorem updateLead_then_getData (headers : list cell) (rows : list (list cell))
    (leadData : JsObject.t cell) (data' : list (list cell)) :
  NoDup (map key_of headers) ->
  loose_eq (cell_at headers (indexOf_id is_id headers)) (JsObject.get leadData "id") = false ->
  updateLead key_of is_id loose_eq empty_string (headers :: rows) leadData = Some data' ->
  exists i oldRow,
    nth_error rows i = Some oldRow
    /\ loose_eq (cell_at oldRow (indexOf_id is_id headers)) (JsObject.get leadData "id") = true
    /\ List.length (getData key_of empty_string data')
       = List.length (getData key_of empty_string (headers :: rows))
    /\ (forall j, j <> i ->
          nth_error (getData key_of empty_string data') j
          = nth_error (getData key_of empty_string (headers :: rows)) j)
    /\ exists updated,
         nth_error (getData key_of empty_string data') i = Some updated
         /\ forall header, In header headers ->
              JsObject.get updated (key_of header)
              = match JsObject.get leadData (key_of header) with
                | Some value => Some value
                | None =>
                    JsObject.get (row_object key_of empty_string headers oldRow)
                      (key_of header)
                end.
Proof.
  intros ND NotHeader H. unfold updateLead in H. simpl nth in H.
  set (matches := fun row => loose_eq (cell_at row (indexOf_id is_id headers))
                               (JsObject.get leadData "id")) in *.
  destruct (findIndex matches (headers :: rows)) as [rowIndex |] eqn:F; [| discriminate].
  injection H as <-.
  simpl in F. fold (matches headers) in NotHeader. rewrite NotHeader in F.
  destruct (findIndex matches rows) as [i |] eqn:Fr; [| discriminate].
  injection F as <-.
  destruct (findIndex_Some _ _ _ Fr) as (oldRow & Hi & M & _).
  exists i, oldRow. simpl.
  assert (nth i rows [] = oldRow) as E by (now apply nth_error_nth).
  rewrite E.
  repeat split.
  - exact Hi.
  - exact M.
  - now rewrite !length_map, set_row_length.
  - intros j N. now rewrite !nth_error_map, set_row_other.
  - exists (row_object key_of empty_string headers
              (merged_row key_of empty_string headers oldRow leadData)).
    split.
    + now rewrite nth_error_map, (set_row_same _ _ _ _ Hi).
    + intros header Hin. apply In_nth_error in Hin. destruct Hin as [k Hk].
      rewrite !(row_object_get key_of empty_string _ _ k header ND Hk).
      rewrite (nth_error_nth _ _ _ (merged_row_nth key_of empty_string _ oldRow leadData
                                      k header Hk)).
      now destruct (JsObject.get leadData (key_of header)).
Qed.
End SheetReadBack.

Lemma updateLead_then_getData_witness :
  exists i oldRow updated,
    nth_error [["7"; "Ann"; "New"]; ["8"; "Bob"; "Won"]]%string i = Some oldRow
    /\ nth_error
         (getData (fun s => s) ""%string
            [ ["id"; "leadName"; "stage"]; ["7"; "Ann"; "New"]; ["8"; "Bob"; "Lost"] ]%string)
         i = Some updated
    /\ JsObject.get updated "stage" = Some "Lost"%string
    /\ JsObject.get updated "leadName" = Some "Bob"%string.
Proof.
  destruct (updateLead_then_getData (fun s : string => s) (String.eqb "id") string_loose_eq
              ""%string ["id"; "leadName"; "stage"]%string
              [["7"; "Ann"; "New"]; ["8"; "Bob"; "Won"]]%string
              [("id", "8"); ("stage", "Lost")]%string
              [ ["id"; "leadName"; "stage"]; ["7"; "Ann"; "New"]; ["8"; "Bob"; "Lost"] ]%string)
    as (i & oldRow & Hi & M & _ & _ & updated & Hu & G).
  - repeat constructor; simpl; intuition discriminate.
  - reflexivity.
  - reflexivity.
  - exists i, oldRow, updated. split; [exact Hi |]. split; [exact Hu |].
    destruct i as [| [| i]]; simpl in Hi.
    + injection Hi as <-. discriminate M.
    + injection Hi as <-.
      split; [apply (G "stage"%string) | apply (G "leadName"%string)]; simpl; tauto.
    + destruct i; discriminate Hi.
Defined.

(* ================================================================= *)
(** ** The session *)

Lemma Auth_step_invariant (s : Auth.state) (a : Auth.action) :
  Auth.user s = Auth.stored s /\ Auth.loading s = false ->
  Auth.user (Auth.step s a) = Auth.stored (Auth.step s a)
  /\ Auth.loading (Auth.step s a) = false.
Proof.
  intros [U L]. destruct a as [sheet email password |]; simpl.
  - unfold Auth.login. destruct (authenticateUser sheet email password); simpl; now split.
  - now split.
Qed.

Lemma Auth_fold_invariant (actions : list Auth.action) (s : Auth.state) :
  Auth.user s = Auth.stored s /\ Auth.loading s = false ->
  Auth.user (fold_left Auth.step actions s) = Auth.stored (fold_left Auth.step actions s)
  /\ Auth.loading (fold_left Auth.step actions s) = false.
Proof.
  revert s. induction actions as [| a actions IH]; intros s I; simpl; [exact I |].
  apply IH. now apply Auth_step_invariant.
Qed.

Lemma Auth_fold_origin (actions : list Auth.action) (s : Auth.state) (u : User.t) :
  Auth.user (fold_left Auth.step actions s) = Some u ->
  Auth.user s = Some u
  \/ exists sheet email password,
       In (Auth.Login sheet email password) actions
       /\ authenticateUser sheet email password = Some u.
Proof.
  revert s. induction actions as [| a actions IH]; intros s H; simpl in H; [now left |].
  destruct (IH _ H) as [Hs | (sheet & email & password & Hin & A)].
  - destruct a as [sheet email password |]; simpl in Hs.
    + unfold Auth.login in Hs.
      destruct (authenticateUser sheet email password) as [found |] eqn:A; simpl in Hs.
      * right. exists sheet, email, password. split; [now left | congruence].
      * now left.
    + discriminate Hs.
  - right. exists sheet, email, password. split; [now right | exact A].
Qed.

(** X20. Once the provider has mounted, whatever sequence of sign-ins and
    sign-outs follows, the user in memory is the user in session storage,
    and a protected page is shown exactly when there is one.  A session
    that started without a stored user holds a user only if one of the
    sign-ins authenticated that very user; a failed sign-in changes
    nothing, and right after a sign-out every protected page redirects to
    the login page. *)
Theorem session_invariant (stored : option User.t) (actions : list Auth.action) :
  let s := Auth.run stored actions in
  Auth.user s = Auth.stored s
  /\ (Auth.ProtectedRoute s = Auth.Children <-> Auth.user s <> None)
  /\ (Auth.ProtectedRoute s = Auth.RedirectToLogin <-> Auth.user s = None)
  /\ (forall u, stored = None -> Auth.user s = Some u ->
        exists sheet email password,
          In (Auth.Login sheet email password) actions
          /\ authenticateUser sheet email password = Some u)
  /\ (forall sheet email password,
        authenticateUser sheet email password = None ->
        Auth.run stored (actions ++ [Auth.Login sheet email password]) = s)
  /\ Auth.ProtectedRoute (Auth.run stored (actions ++ [Auth.Logout])) = Auth.RedirectToLogin.
Proof.
  intros s. subst s. unfold Auth.run.
  assert (I0 : Auth.user (Auth.mount (Auth.initial stored))
               = Auth.stored (Auth.mount (Auth.initial stored))
               /\ Auth.loading (Auth.mount (Auth.initial stored)) = false).
  { destruct stored; simpl; now split. }
  destruct (Auth_fold_invariant actions _ I0) as [U L].
  split; [exact U |]. split; [| split; [| split; [| split]]].
  - unfold Auth.ProtectedRoute. rewrite L.
    destruct (Auth.user (fold_left Auth.step actions (Auth.mount (Auth.initial stored))));
      split; congruence.
  - unfold Auth.ProtectedRoute. rewrite L.
    destruct (Auth.user (fold_left Auth.step actions (Auth.mount (Auth.initial stored))));
      split; congruence.
  - intros u -> H. destruct (Auth_fold_origin _ _ _ H) as [H0 | H1]; [discriminate H0 | exact H1].
  - intros sheet email password A. rewrite fold_left_app. simpl.
    unfold Auth.login. now rewrite A.
  - rewrite fold_left_app. simpl. unfold Auth.ProtectedRoute. simpl. now rewrite L.
Qed.

Lemma session_invariant_witness :
  exists sheet email password,
    In (Auth.Login sheet email password)
      [Auth.Login (Some [ {| User.id := "u2"; User.email := "sales@apex.com";
                             User.name := "John Sales"; User.role := "Sales";
                             User.password := Some "sales"%string;
                             User.territory := Some "North"%string |} ])
         "sales@apex.com" "sales"]
    /\ authenticateUser sheet email password
       = Some {| User.id := "u2"; User.email := "sales@apex.com";
                 User.name := "John Sales"; User.role := "Sales";
                 User.password := Some "sales"%string;
                 User.territory := Some "North"%string |}.
Proof.
  destruct (session_invariant None
      [Auth.Login (Some [ {| User.id := "u2"; User.email := "sales@apex.com";
                             User.name := "John Sales"; User.role := "Sales";
                             User.password := Some "sales"%string;
                             User.territory := Some "North"%string |} ])
         "sales@apex.com" "sales"]) as (_ & _ & _ & H & _).
  apply H; reflexivity.
Defined.

(* ================================================================= *)
(** ** Reassigning a lead *)

Lemma getLeads_app (l1 l2 : list Lead.t) (user : User.t) :
  getLeads (Some (l1 ++ l2)%list) user
  = (getLeads (Some l1) user ++ getLeads (Some l2) user)%list.
Proof.
  unfold getLeads, Backend.getLeads.
  destruct (User.role user =? "Admin")%string; [reflexivity | apply filter_app].
Qed.

(** X21. Reassigning a lead changes its owner and nothing else: each of the
    twenty-one other fields keeps its value.  Once the reassigned lead
    has replaced the old one in the sheet, a representative whose address
    is the new owner has it in their list, and every other
    representative's list is what it would be without the lead; an
    administrator still sees the whole sheet. *)
Theorem reassignment_moves_lead (before after : list Lead.t) (lead : Lead.t)
    (newOwnerEmail : string) (user : User.t) :
  let moved := assignedLead lead newOwnerEmail in
  let sheet' := (before ++ moved :: after)%list in
  handleAssignLead (Some lead) newOwnerEmail = Some moved
  /\ handleAssignLead None newOwnerEmail = None
  /\ Lead.leadOwner moved = newOwnerEmail
  /\ (Lead.id moved, Lead.leadName moved, Lead.companyName moved, Lead.email moved,
      Lead.phone moved, Lead.industry moved, Lead.source moved, Lead.budgetRange moved,
      Lead.stage moved, Lead.status moved, Lead.leadScore moved, Lead.probability moved,
      Lead.dealValue moved, Lead.expectedValue moved, Lead.nextActionType moved,
      Lead.nextActionDateTime moved, Lead.lastContactedAt moved, Lead.createdAt moved,
      Lead.notes moved, Lead.suggestedEmailSubject moved, Lead.suggestedEmailBody moved)
     = (Lead.id lead, Lead.leadName lead, Lead.companyName lead, Lead.email lead,
        Lead.phone lead, Lead.industry lead, Lead.source lead, Lead.budgetRange lead,
        Lead.stage lead, Lead.status lead, Lead.leadScore lead, Lead.probability lead,
        Lead.dealValue lead, Lead.expectedValue lead, Lead.nextActionType lead,
        Lead.nextActionDateTime lead, Lead.lastContactedAt lead, Lead.createdAt lead,
        Lead.notes lead, Lead.suggestedEmailSubject lead, Lead.suggestedEmailBody lead)
  /\ (User.role user <> "Admin"%string ->
      (User.email user = newOwnerEmail ->
       getLeads (Some sheet') user
       = (getLeads (Some before) user ++ moved :: getLeads (Some after) user)%list)
      /\ (User.email user <> newOwnerEmail ->
          getLeads (Some sheet') user = getLeads (Some (before ++ after)%list) user))
  /\ (User.role user = "Admin"%string -> getLeads (Some sheet') user = sheet').
Proof.
  intros moved sheet'. subst moved sheet'.
  split; [reflexivity |]. split; [reflexivity |]. split; [reflexivity |].
  split; [reflexivity |]. split.
  - intros NA. rewrite !getLeads_app.
    change (assignedLead lead newOwnerEmail :: after)
      with ([assignedLead lead newOwnerEmail] ++ after)%list.
    rewrite getLeads_app.
    assert (forall b, (newOwnerEmail =? User.email user)%string = b ->
              getLeads (Some [assignedLead lead newOwnerEmail]) user
              = if b then [assignedLead lead newOwnerEmail] else []) as One.
    { intros b E. unfold getLeads, Backend.getLeads.
      destruct (String.eqb_spec (User.role user) "Admin") as [A | _]; [contradiction |].
      simpl. now rewrite E. }
    split.
    + intros E. rewrite (One true); [reflexivity |]. apply String.eqb_eq. now symmetry.
    + intros N. rewrite (One false); [reflexivity |]. apply String.eqb_neq. congruence.
  - intros A. unfold getLeads, Backend.getLeads. now rewrite A.
Qed.

Lemma reassignment_moves_lead_witness :
  getLeads
    (Some [leadOf "101" "a@x.com"; assignedLead (leadOf "102" "a@x.com") "b@x.com";
           leadOf "103" "a@x.com"; leadOf "104" "b@x.com"])
    (sampleUser "a@x.com" "Sales")
  = [leadOf "101" "a@x.com"; leadOf "103" "a@x.com"]
  /\ getLeads
       (Some [leadOf "101" "a@x.com"; assignedLead (leadOf "102" "a@x.com") "b@x.com";
              leadOf "103" "a@x.com"; leadOf "104" "b@x.com"])
       (sampleUser "b@x.com" "Sales")
     = [leadOf "102" "b@x.com"; leadOf "104" "b@x.com"].
Proof.
  split.
  - destruct (reassignment_moves_lead [leadOf "101" "a@x.com"]
                [leadOf "103" "a@x.com"; leadOf "104" "b@x.com"]
                (leadOf "102" "a@x.com") "b@x.com" (sampleUser "a@x.com" "Sales"))
      as (_ & _ & _ & _ & H & _).
    destruct H as [_ H]; [discriminate |].
    etransitivity; [apply H; discriminate | reflexivity].
  - destruct (reassignment_moves_lead [leadOf "101" "a@x.com"]
                [leadOf "103" "a@x.com"; leadOf "104" "b@x.com"]
                (leadOf "102" "a@x.com") "b@x.com" (sampleUser "b@x.com" "Sales"))
      as (_ & _ & _ & _ & H & _).
    destruct H as [H _]; [discriminate |].
    etransitivity; [apply H; reflexivity | reflexivity].
Defined.
